(** * Multi-agent policy manager (tianshou/policy/multiagent/mapolicy.py)

    A shallow embedding of [MultiAgentPolicyManager]: the policy registry
    with its agent ids, and the four dispatch operations [forward],
    [process_fn], [exploration_noise] and [learn].

    Python objects that are mutated are kept in an explicit store
    ([World]); calls into the sub-policies are opaque and are answered by
    an oracle that sees the whole call history.  A sub-policy call may
    change the policy's own hidden state (the history stands for it) and,
    for [process_fn], the buffer it is handed, and through the reward
    view in that buffer the saved reward matrix the view shares its
    memory with; it does not touch the registry, the agent ids or the
    caller's action arrays.  Batches are values: a slice [batch[index]]
    is a copy. *)

From Stdlib Require Import Ascii.
From stdpp Require Import base option list strings pretty gmap fin_maps.

Local Open Scope Z_scope.

(** ** Python exceptions *)

Section Exceptions.
Context {Exc : Type}.

(** [IndexError], [ValueError] and [KeyError] are the built-in ones the
    manager's own statements can raise (list and numpy indexing, numpy
    broadcasting, dict lookup); [PyExc e] is any other exception
    object.  A sub-policy may raise any of them. *)
Inductive exn : Type :=
  | IndexError
  | ValueError
  | KeyError
  | PyExc (e : Exc).

Inductive result (A : Type) : Type :=
  | Return (a : A)
  | Raise (e : exn).
End Exceptions.

Arguments exn : clear implicits.
Arguments result : clear implicits.
Arguments Return {Exc A} a.
Arguments Raise {Exc A} e.

(** ** numpy and list primitives *)

Section Arrays.
Context {A : Type}.

(** [np.nonzero(tags == a)[0]], scanning from position [i]. *)
Fixpoint nonzero_from (i : nat) (tags : list Z) (a : Z) : list nat :=
  match tags with
  | [] => []
  | t :: ts =>
      if decide (t = a) then i :: nonzero_from (S i) ts a
      else nonzero_from (S i) ts a
  end.

Definition nonzero_eq (tags : list Z) (a : Z) : list nat :=
  nonzero_from 0 tags a.

(** [arr[index]] for an array of non-negative indices: a fresh array;
    any index out of bounds raises. *)
Definition take_index (arr : list A) (index : list nat) : option (list A) :=
  mapM (λ i, arr !! i) index.

(** Broadcasting a value of shape [(len v, ...)] against an indexing
    result of shape [(n, ...)]: equal lengths, or a length-one value
    that is repeated. *)
Definition broadcast_to (n : nat) (v : list A) : option (list A) :=
  if decide (length v = n) then Some v
  else match v with
       | [x] => Some (replicate n x)
       | _ => None
       end.

Fixpoint write_all (arr : list A) (index : list nat) (vals : list A) : list A :=
  match index, vals with
  | i :: index', x :: vals' => write_all (<[i := x]> arr) index' vals'
  | _, _ => arr
  end.

(** Python's [l[i] = x] on a list: negative [i] counts from the end. *)
Definition list_setitem (l : list A) (i : Z) (x : A) : option (list A) :=
  let n := Z.of_nat (length l) in
  if decide (0 ≤ i < n) then Some (<[Z.to_nat i := x]> l)
  else if decide (- n ≤ i < 0) then Some (<[Z.to_nat (i + n) := x]> l)
  else None.
End Arrays.

Section Scatter.
Context {Exc A : Type}.

(** [arr[index] = v]: the value is broadcast to the index's shape
    ([ValueError] when it cannot be), the indices are bounds-checked
    ([IndexError]), then the elements are written. *)
Definition set_index (arr : list A) (index : list nat) (v : list A)
  : result Exc (list A) :=
  match broadcast_to (length index) v with
  | None => Raise ValueError
  | Some vals =>
      if decide (Forall (λ i, (i < length arr)%nat) index)
      then Return (write_all arr index vals)
      else Raise IndexError
  end.
End Scatter.

(** ** Reward fields and batches *)

Section Batches.
Context {Exc RewV Row : Type}.

(** [rew] is an empty [Batch()] (after the initial reset), or an
    ndarray: one-dimensional, or a matrix with one column per agent. *)
Inductive Rew : Type :=
  | EmptyBatch
  | Vec (v : list RewV)
  | Mat (ncols : nat) (rows : list (list RewV)).

Definition is_ndarray (r : Rew) : bool :=
  match r with EmptyBatch => false | _ => true end.

(** [r[:, k]] *)
Definition rew_column (r : Rew) (k : Z) : result Exc Rew :=
  match r with
  | EmptyBatch => Raise IndexError
  | Vec _ => Raise IndexError
  | Mat ncols rows =>
      let n := Z.of_nat ncols in
      if decide (- n ≤ k < n) then
        let j := Z.to_nat (k `mod` n) in
        match mapM (λ row : list RewV, row !! j) rows with
        | Some col => Return (Vec col)
        | None => Raise IndexError
        end
      else Raise IndexError
  end.

(** In-place assignment through the view [r[:, k]], which shares its
    memory with [r]: the elements of [col] are stored into column [k] of
    [r], row by row.  The shape of [r] stays as it is. *)
Definition rew_write_column (r : Rew) (k : Z) (col : list RewV) : Rew :=
  match r with
  | Mat ncols rows =>
      let j := Z.to_nat (k `mod` Z.of_nat ncols) in
      Mat ncols (imap (λ i row, match col !! i with
                                | Some x => <[j := x]> row
                                | None => row
                                end) rows)
  | _ => r
  end.

(** [r[index]] along the first axis. *)
Definition rew_take (r : Rew) (index : list nat) : option Rew :=
  match r with
  | EmptyBatch => Some EmptyBatch
  | Vec v => Vec <$> take_index v index
  | Mat n rows => Mat n <$> take_index rows index
  end.

(** A batch of transitions, column-wise as the [Batch] holds it:
    [obs.agent_id], [rew], and the remaining per-transition fields. *)
Record Batch : Type := mkBatch {
  obs_agent_id : list Z;
  rew : Rew;
  rows : list Row
}.

Definition batch_len (b : Batch) : nat := length (obs_agent_id b).

(** Modelled from the spec: [Batch.__getitem__] with an index array
    (class [Batch] is not part of the sources at hand); "slicing by an
    arbitrary index subsequence (returns a new container with the same
    fields)", order-preserving. *)
Definition batch_getitem (b : Batch) (index : list nat) : option Batch :=
  ids ← take_index (obs_agent_id b) index;
  r ← rew_take (rew b) index;
  rs ← take_index (rows b) index;
  Some (mkBatch ids r rs).

Definition set_rew (b : Batch) (r : Rew) : Batch :=
  mkBatch (obs_agent_id b) r (rows b).

(** *** Well-formed batches *)

(** All fields of a batch have one entry per transition, and the rows of
    a reward matrix have one entry per column. *)
Definition rew_wf (r : Rew) (len : nat) : Prop :=
  match r with
  | EmptyBatch => True
  | Vec v => length v = len
  | Mat n rws => length rws = len ∧ Forall (λ row, length row = n) rws
  end.

Definition batch_wf (b : Batch) : Prop :=
  length (rows b) = batch_len b ∧ rew_wf (rew b) (batch_len b).

(** [r] is a matrix that has the column of agent [a] (Python's negative
    indices included). *)
Definition has_column (r : Rew) (a : Z) : Prop :=
  match r with
  | Mat n _ => - Z.of_nat n ≤ a - 1 < Z.of_nat n
  | _ => False
  end.

(** [r'] has the shape of [r]. *)
Definition rew_same_shape (r r' : Rew) : Prop :=
  match r, r' with
  | EmptyBatch, EmptyBatch => True
  | Vec v, Vec v' => length v' = length v
  | Mat n rws, Mat n' rws' =>
      n' = n ∧ Forall2 (λ row row' : list RewV, length row' = length row) rws rws'
  | _, _ => False
  end.

End Batches.

Arguments Rew : clear implicits.
Arguments Batch : clear implicits.

(** ** The store *)

(** Policy objects and ndarray objects are identified by references. *)
Definition loc := nat.

(** ["agent_" + str(agent_id)] *)
Definition agent_key (a : Z) : string := "agent_" +:+ pretty a.

(** ["agent_" + str(agent_id) + "/" + k] *)
Definition metric_key (a : Z) (k : string) : string :=
  agent_key a +:+ "/" +:+ k.

(** ** Metric keys as the specification words them *)

(** ["<agentId>/<metricName>"] *)
Definition spec_metric_key (a : Z) (k : string) : string :=
  pretty a +:+ "/" +:+ k.

(** No character of [s] is a slash. *)
Fixpoint slash_free (s : string) : bool :=
  match s with
  | EmptyString => true
  | String c s' => if decide (c = "/"%char) then false else slash_free s'
  end.

Section Manager.
Context {Exc RewV Row Act HState Payload Data Metric Other : Type}.

Local Abbreviation exn := (exn Exc).
Local Abbreviation result := (result Exc).
Local Abbreviation Rew := (Rew RewV).
Local Abbreviation Batch := (Batch RewV Row).

(** The [ReplayBuffer]: its [_meta.rew] and everything else. *)
Record Buffer : Type := mkBuffer {
  meta_rew : Rew;
  meta_other : Other
}.

(** What a sub-policy's [forward] returns: [out.act], [out.state]
    ([None] when the attribute is missing or is None) and the rest. *)
Record Out : Type := mkOut {
  out_act : list Act;
  out_state : option HState;
  out_rest : Payload
}.

(** Calls made into sub-policies, with their arguments. *)
Inductive Event : Type :=
  | CallForward (l : loc) (b : Batch) (st : option HState)
  | CallProcessFn (l : loc) (b : Batch) (buf : Buffer) (indices : list Z)
  | CallNoise (l : loc) (act : list Act) (b : Batch)
  | CallLearn (l : loc) (d : Data).

Definition callee (e : Event) : loc :=
  match e with
  | CallForward l _ _ | CallProcessFn l _ _ _
  | CallNoise l _ _ | CallLearn l _ => l
  end.

(** The sub-policies are opaque.  Each method is answered from the
    history of calls made so far (which stands for the internal state
    of all policy objects), the callee and the arguments.  [process_fn]
    is handed the buffer and may leave it changed, also when it raises.
    A processed batch is [None] when it is the empty [Batch()].

    The array that is [buffer.rew] during a call of [process_fn] is a
    view [save_rew[:, k]]: it shares its memory with the saved reward
    matrix, so what the sub-policy writes into it in place is written
    into that matrix.  [policy_process_fn_writes] is what the call
    leaves in the memory of that array: [None] when the sub-policy did
    not write it in place, and its elements otherwise. *)
Record SubPolicies : Type := mkSubPolicies {
  policy_forward :
    list Event → loc → Batch → option HState → result Out;
  policy_process_fn :
    list Event → loc → Batch → Buffer → list Z → result (option Data) * Buffer;
  policy_process_fn_writes :
    list Event → loc → Batch → Buffer → list Z → option (list RewV);
  policy_exploration_noise :
    list Event → loc → list Act → Batch → result (list Act);
  policy_learn :
    list Event → loc → Data → result (gmap string Metric)
}.

Record World : Type := mkWorld {
  agent_id : loc → Z;            (* policy.agent_id of each policy object *)
  policies : list loc;           (* self.policies *)
  buffer : Buffer;               (* the replay buffer object *)
  ndarray : loc → list Act;      (* action arrays passed by reference *)
  trace : list Event             (* calls made so far *)
}.

Definition with_agent_id (f : loc → Z) (w : World) : World :=
  mkWorld f (policies w) (buffer w) (ndarray w) (trace w).
Definition with_policies (ps : list loc) (w : World) : World :=
  mkWorld (agent_id w) ps (buffer w) (ndarray w) (trace w).
Definition with_buffer (b : Buffer) (w : World) : World :=
  mkWorld (agent_id w) (policies w) b (ndarray w) (trace w).
Definition with_ndarray (f : loc → list Act) (w : World) : World :=
  mkWorld (agent_id w) (policies w) (buffer w) f (trace w).
Definition with_trace (t : list Event) (w : World) : World :=
  mkWorld (agent_id w) (policies w) (buffer w) (ndarray w) t.

(** *** Statements: state and exceptions *)

Definition M (A : Type) : Type := World → result A * World.

Definition ret {A} (a : A) : M A := λ w, (Return a, w).
Definition bind {A B} (c : M A) (k : A → M B) : M B :=
  λ w, match c w with
       | (Return a, w') => k a w'
       | (Raise e, w') => (Raise e, w')
       end.
#[global] Instance M_ret : MRet M := @ret.
#[global] Instance M_bind : MBind M := λ A B k c, bind c k.
Definition lift {A} (r : result A) : M A := λ w, (r, w).
Definition index_or_raise {A} (o : option A) : M A :=
  λ w, match o with Some a => (Return a, w) | None => (Raise IndexError, w) end.
Definition key_or_raise {A} (o : option A) : M A :=
  λ w, match o with Some a => (Return a, w) | None => (Raise KeyError, w) end.

(** *** Registry *)

(** Modelled from the spec: [BasePolicy.set_agent_id] (class
    [BasePolicy] is not part of the sources at hand); "setAgentId
    (integer)" stores the id that "getAgentId" reads back. *)
Definition set_agent_id (l : loc) (a : Z) (w : World) : World :=
  with_agent_id (λ l', if decide (l' = l) then a else agent_id w l') w.

Fixpoint init_loop (i : nat) (ps : list loc) (w : World) : World :=
  match ps with
  | [] => w
  | policy :: ps' => init_loop (S i) ps' (set_agent_id policy (Z.of_nat i + 1) w)
  end.

(** [__init__] *)
Definition init (ps : list loc) (w : World) : World :=
  init_loop 0 ps (with_policies ps w).

Definition replace_policy (policy : loc) (a : Z) : M unit :=
  λ w, match list_setitem (policies w) (a - 1) policy with
       | None => (Raise IndexError, w)
       | Some ps => (Return (), set_agent_id policy a (with_policies ps w))
       end.

(** *** Reading and writing the store *)

Definition get_policies : M (list loc) := λ w, (Return (policies w), w).
Definition get_agent_id (l : loc) : M Z := λ w, (Return (agent_id w l), w).
Definition get_buffer_rew : M Rew := λ w, (Return (meta_rew (buffer w)), w).
(** [buffer._meta.rew = r] *)
Definition set_buffer_rew (r : Rew) : M unit :=
  λ w, (Return (), with_buffer (mkBuffer r (meta_other (buffer w))) w).
Definition get_ndarray (a : loc) : M (list Act) := λ w, (Return (ndarray w a), w).
Definition set_ndarray (a : loc) (v : list Act) : M unit :=
  λ w, (Return (),
        with_ndarray (λ a', if decide (a' = a) then v else ndarray w a') w).

(** *** Calls into a sub-policy *)

Variable P : SubPolicies.

Definition call_forward (l : loc) (b : Batch) (st : option HState) : M Out :=
  λ w, (policy_forward P (trace w) l b st,
        with_trace (trace w ++ [CallForward l b st]) w).

(** The call returns the processed batch; with it comes what the call
    left in the memory of the array that was [buffer.rew]. *)
Definition call_process_fn (l : loc) (b : Batch) (indices : list Z)
  : M (option Data * option (list RewV)) :=
  λ w, let '(r, buf) := policy_process_fn P (trace w) l b (buffer w) indices in
       let written := policy_process_fn_writes P (trace w) l b (buffer w) indices in
       (match r with
        | Return d => Return (d, written)
        | Raise e => Raise e
        end,
        with_buffer buf
          (with_trace (trace w ++ [CallProcessFn l b (buffer w) indices]) w)).

Definition call_exploration_noise (l : loc) (act : list Act) (b : Batch)
  : M (list Act) :=
  λ w, (policy_exploration_noise P (trace w) l act b,
        with_trace (trace w ++ [CallNoise l act b]) w).

Definition call_learn (l : loc) (d : Data) : M (gmap string Metric) :=
  λ w, (policy_learn P (trace w) l d,
        with_trace (trace w ++ [CallLearn l d]) w).

(** *** process_fn *)

(** The saved reward matrix after the call of the policy with agent id
    [a]: when [buffer._meta.rew] was the view [save_rew[:, a - 1]]
    and the sub-policy wrote [col] into it in place, column [a - 1] of
    the matrix holds [col]. *)
Definition saved_after (has_rew : bool) (save_rew : Rew) (a : Z)
    (written : option (list RewV)) : Rew :=
  match has_rew, written with
  | true, Some col => rew_write_column save_rew (a - 1) col
  | _, _ => save_rew
  end.

(** One round of the [for policy in self.policies] loop per element of
    [ps]; [results] is the dict built so far, and [save_rew] the
    contents of the saved reward matrix: during a sub-policy's call
    [buffer._meta.rew] is the view [save_rew[:, agent_id - 1]], so what
    the sub-policy writes into it in place is written into [save_rew]. *)
Fixpoint process_fn_loop (batch : Batch) (indices : list Z)
    (has_rew : bool) (save_rew : Rew)
    (ps : list loc) (results : gmap string (option Data))
  : M (gmap string (option Data) * Rew) :=
  match ps with
  | [] => ret (results, save_rew)
  | policy :: ps' =>
      a ← get_agent_id policy;
      let agent_index := nonzero_eq (obs_agent_id batch) a in
      if decide (length agent_index = 0%nat) then
        process_fn_loop batch indices has_rew save_rew ps'
          (<[agent_key a := None]> results)
      else
        tmp_batch ← index_or_raise (batch_getitem batch agent_index);
        tmp_indices ← index_or_raise (take_index indices agent_index);
        tmp_batch ← (if has_rew then
                       r ← lift (rew_column (rew tmp_batch) (a - 1));
                       r_buf ← lift (rew_column save_rew (a - 1));
                       _ ← set_buffer_rew r_buf;
                       ret (set_rew tmp_batch r)
                     else ret tmp_batch);
        '(res, written) ← call_process_fn policy tmp_batch tmp_indices;
        process_fn_loop batch indices has_rew
          (saved_after has_rew save_rew a written) ps'
          (<[agent_key a := res]> results)
  end.

Definition process_fn (batch : Batch) (indices : list Z)
  : M (gmap string (option Data)) :=
  save_rew ← get_buffer_rew;
  let has_rew := is_ndarray save_rew in
  _ ← (if has_rew then set_buffer_rew EmptyBatch else ret ());
  ps ← get_policies;
  '(results, save_rew) ← process_fn_loop batch indices has_rew save_rew ps ∅;
  _ ← (if has_rew then set_buffer_rew save_rew else ret ());
  ret results.

(** *** exploration_noise *)

(** [act] is the reference of the caller's action array. *)
Fixpoint exploration_noise_loop (act : loc) (batch : Batch) (ps : list loc)
  : M unit :=
  match ps with
  | [] => ret ()
  | policy :: ps' =>
      a ← get_agent_id policy;
      let agent_index := nonzero_eq (obs_agent_id batch) a in
      if decide (length agent_index = 0%nat) then
        exploration_noise_loop act batch ps'
      else
        arr ← get_ndarray act;
        sub_act ← index_or_raise (take_index arr agent_index);
        sub_batch ← index_or_raise (batch_getitem batch agent_index);
        v ← call_exploration_noise policy sub_act sub_batch;
        arr ← get_ndarray act;
        arr ← lift (set_index arr agent_index v);
        _ ← set_ndarray act arr;
        exploration_noise_loop act batch ps'
  end.

Definition exploration_noise (act : loc) (batch : Batch) : M loc :=
  ps ← get_policies;
  _ ← exploration_noise_loop act batch ps;
  ret act.

(** *** forward *)

(** An element of [results]: [NoData] is the tuple
    [(False, np.array([-1]), Batch(), Batch(), Batch())], [HasData] is
    [(True, agent_index, out, act, each_state)].  An [each_state] of
    [None] is the empty [Batch()]. *)
Inductive Slot : Type :=
  | NoData
  | HasData (agent_index : list nat) (out : Out) (act : list Act)
            (each_state : option HState).

Definition slot_act (s : Slot) : option (list Act) :=
  match s with NoData => None | HasData _ _ act _ => Some act end.
Definition slot_out (s : Slot) : option Out :=
  match s with NoData => None | HasData _ out _ _ => Some out end.
Definition slot_state (s : Slot) : option HState :=
  match s with NoData => None | HasData _ _ _ st => st end.

(** The first loop; [state] is [None] or the mapping with keys
    ["agent_1"], ["agent_2"], ... *)
Fixpoint forward_loop (batch : Batch) (state : option (gmap string HState))
    (ps : list loc) (results : list Slot) : M (list Slot) :=
  match ps with
  | [] => ret results
  | policy :: ps' =>
      a ← get_agent_id policy;
      let agent_index := nonzero_eq (obs_agent_id batch) a in
      if decide (length agent_index = 0%nat) then
        forward_loop batch state ps' (results ++ [NoData])
      else
        tmp_batch ← index_or_raise (batch_getitem batch agent_index);
        tmp_batch ← (if is_ndarray (rew tmp_batch) then
                       r ← lift (rew_column (rew tmp_batch) (a - 1));
                       ret (set_rew tmp_batch r)
                     else ret tmp_batch);
        st ← match state with
             | None => ret None
             | Some sd => s ← key_or_raise (sd !! agent_key a); ret (Some s)
             end;
        out ← call_forward policy tmp_batch st;
        forward_loop batch state ps'
          (results ++ [HasData agent_index out (out_act out) (out_state out)])
  end.

(** Modelled from the spec: [Batch.cat] on the [{"act": act}] dicts
    (class [Batch] is not part of the sources at hand); "concatenation of
    homogeneous field sets".  The concatenation of no dict at all is the
    empty container. *)
Definition cat_act (results : list Slot) : list Act :=
  mjoin (omap slot_act results).

(** The returned [holder]: [act], and the dicts [out] and [state]; an
    entry of [None] is the empty [Batch()]. *)
Record Holder : Type := mkHolder {
  holder_act : list Act;
  holder_out : gmap string (option Out);
  holder_state : gmap string (option HState)
}.

(** The second loop, over [zip(self.policies, results)]. *)
Fixpoint forward_merge (zs : list (loc * Slot)) (h : Holder) : M Holder :=
  match zs with
  | [] => ret h
  | (policy, slot) :: zs' =>
      acts ← match slot with
             | HasData agent_index _ act _ =>
                 lift (set_index (holder_act h) agent_index act)
             | NoData => ret (holder_act h)
             end;
      a ← get_agent_id policy;
      forward_merge zs'
        (mkHolder acts
           (<[agent_key a := slot_out slot]> (holder_out h))
           (<[agent_key a := slot_state slot]> (holder_state h)))
  end.

Definition forward (batch : Batch) (state : option (gmap string HState))
  : M Holder :=
  ps ← get_policies;
  results ← forward_loop batch state ps [];
  let holder := mkHolder (cat_act results) ∅ ∅ in
  ps ← get_policies;
  forward_merge (zip ps results) holder.

(** *** learn *)

(** [for k, v in out.items(): results["agent_<id>/" + k] = v] *)
Definition add_metrics (a : Z) (out : gmap string Metric)
    (results : gmap string Metric) : gmap string Metric :=
  foldl (λ acc kv, <[metric_key a kv.1 := kv.2]> acc) results (map_to_list out).

Fixpoint learn_loop (batch : gmap string (option Data)) (ps : list loc)
    (results : gmap string Metric) : M (gmap string Metric) :=
  match ps with
  | [] => ret results
  | policy :: ps' =>
      a ← get_agent_id policy;
      data ← key_or_raise (batch !! agent_key a);
      match data with
      | None => learn_loop batch ps' results
      | Some d =>
          out ← call_learn policy d;
          learn_loop batch ps' (add_metrics a out results)
      end
  end.

Definition learn (batch : gmap string (option Data)) : M (gmap string Metric) :=
  ps ← get_policies;
  learn_loop batch ps ∅.

(** *** Registry invariant *)

(** Every registered policy's agent id is its registry position + 1. *)
Definition registry_inv (w : World) : Prop :=
  ∀ (k : nat) (l : loc), policies w !! k = Some l → agent_id w l = Z.of_nat k + 1.

(** The agent ids of the registered policies, in registry order. *)
Definition registered_ids (w : World) : list Z := agent_id w <$> policies w.

(** The manager's life: built by [__init__] from pairwise distinct
    policy objects, then changed by [replace_policy] with an id in
    1..N and a policy object that is in no other slot, and used through
    the four dispatch operations. *)
Inductive well_used : World → Prop :=
  | wu_init ps w :
      NoDup ps → well_used (init ps w)
  | wu_replace w q a w' :
      well_used w →
      1 ≤ a ≤ Z.of_nat (length (policies w)) →
      (∀ k : nat, policies w !! k = Some q → Z.of_nat k = a - 1) →
      replace_policy q a w = (Return (), w') →
      well_used w'
  | wu_forward w batch state r w' :
      well_used w → forward batch state w = (r, w') → well_used w'
  | wu_process_fn w batch indices r w' :
      well_used w → process_fn batch indices w = (r, w') → well_used w'
  | wu_exploration_noise w act batch r w' :
      well_used w → exploration_noise act batch w = (r, w') → well_used w'
  | wu_learn w batch r w' :
      well_used w → learn batch w = (r, w') → well_used w'.

(** *** What a run leaves alone *)

(** The dispatch operations neither touch the registry nor any
    [agent_id], and only add to the call history. *)
Definition same_registry (w w' : World) : Prop :=
  policies w' = policies w ∧ agent_id w' = agent_id w ∧
  trace w `prefix_of` trace w'.

Definition preserves {A} (R : World → World → Prop) (c : M A) : Prop :=
  ∀ w r w', c w = (r, w') → R w w'.

(** *** What a sub-policy is handed on the action path *)

(** The transitions of agent [a] as its policy sees them: the slice at
    its partition, with the reward matrix narrowed to its column. *)
Definition agent_view (batch : Batch) (a : Z) : result Batch :=
  match batch_getitem batch (nonzero_eq (obs_agent_id batch) a) with
  | None => Raise IndexError
  | Some tb =>
      if is_ndarray (rew tb) then
        match rew_column (rew tb) (a - 1) with
        | Return r => Return (set_rew tb r)
        | Raise e => Raise e
        end
      else Return tb
  end.

(** The prior state looked up under the agent's key. *)
Definition prior_state (state : option (gmap string HState)) (a : Z)
  : result (option HState) :=
  match state with
  | None => Return None
  | Some sd =>
      match sd !! agent_key a with
      | Some s => Return (Some s)
      | None => Raise KeyError
      end
  end.

(** Between the stores [w0] and [w'], policy [l]'s [forward] was called
    on its view of [batch] and its prior state, and returned [out]. *)
Definition forward_call (batch : Batch) (state : option (gmap string HState))
    (w0 w' : World) (l : loc) (out : Out) : Prop :=
  ∃ tr sub prior,
    agent_view batch (agent_id w0 l) = Return sub ∧
    prior_state state (agent_id w0 l) = Return prior ∧
    trace w0 `prefix_of` tr ∧
    (tr ++ [CallForward l sub prior]) `prefix_of` trace w' ∧
    policy_forward P tr l sub prior = Return out.

(** The partitions of the registered policies, in registry order. *)
Definition partitions (w : World) (batch : Batch) : list (list nat) :=
  (λ l, nonzero_eq (obs_agent_id batch) (agent_id w l)) <$> policies w.

Definition slot_index (s : Slot) : list nat :=
  match s with NoData => [] | HasData index _ _ _ => index end.
Definition slot_acts (s : Slot) : list Act :=
  match s with NoData => [] | HasData _ _ act _ => act end.

(** What the first loop of [forward] records for policy [l] during a
    run from [w0] to [w']. *)
Definition slot_ok (batch : Batch) (state : option (gmap string HState))
    (w0 w' : World) (l : loc) (s : Slot) : Prop :=
  let index := nonzero_eq (obs_agent_id batch) (agent_id w0 l) in
  match s with
  | NoData => index = []
  | HasData index' out act st =>
      index' = index ∧ index ≠ [] ∧ act = out_act out ∧ st = out_state out ∧
      forward_call batch state w0 w' l out
  end.

(** *** Conditions under which the action path returns *)

(** What [forward] needs of a registered policy with data: the batch's
    reward is empty or has the policy's column, and the state mapping,
    when given, has the policy's key. *)
Definition forward_ready (batch : Batch) (state : option (gmap string HState))
    (w : World) : Prop :=
  ∀ l, l ∈ policies w →
    nonzero_eq (obs_agent_id batch) (agent_id w l) ≠ [] →
    (rew batch = EmptyBatch ∨ has_column (rew batch) (agent_id w l)) ∧
    match state with
    | None => True
    | Some sd => is_Some (sd !! agent_key (agent_id w l))
    end.

(** Every sub-policy's [forward] returns, with one action per transition
    it was given. *)
Definition forward_total : Prop :=
  ∀ tr l b st, ∃ out,
    policy_forward P tr l b st = Return out ∧ length (out_act out) = batch_len b.

(** Every sub-policy's [process_fn] returns. *)
Definition process_fn_total : Prop :=
  ∀ tr l b buf ix, ∃ d buf',
    policy_process_fn P tr l b buf ix = (Return d, buf').

(** Every sub-policy's [exploration_noise] returns as many actions as it
    was given. *)
Definition exploration_noise_total : Prop :=
  ∀ tr l act b, ∃ v,
    policy_exploration_noise P tr l act b = Return v ∧ length v = length act.

(** Every sub-policy's [learn] returns. *)
Definition learn_total : Prop :=
  ∀ tr l d, ∃ out, policy_learn P tr l d = Return out.

(** *** Statements that make no call *)

(** [c] leaves the store as it is, and any exception it raises is one of
    [E]. *)
Definition quiet {A} (E : exn → Prop) (c : M A) : Prop :=
  ∀ w r w', c w = (r, w') →
    w' = w ∧ match r with Return _ => True | Raise e => E e end.

(** The exceptions the manager's own indexing statements raise. *)
Definition manager_error (e : exn) : Prop :=
  e = IndexError ∨ e = ValueError ∨ e = KeyError.

(** The registered policies that have transitions in [batch], in registry
    order. *)
Definition with_data (batch : Batch) (w : World) : list loc :=
  filter (λ l, nonzero_eq (obs_agent_id batch) (agent_id w l) ≠ []) (policies w).

(** The run ended at [w'] in a sub-policy's call that raised [e]. *)
Definition forward_raised (w' : World) (e : exn) : Prop :=
  ∃ tr l b st,
    trace w' = tr ++ [CallForward l b st] ∧
    policy_forward P tr l b st = Raise e.

Definition process_fn_raised (w' : World) (e : exn) : Prop :=
  ∃ tr l b buf ix,
    trace w' = tr ++ [CallProcessFn l b buf ix] ∧
    policy_process_fn P tr l b buf ix = (Raise e, buffer w').

Definition exploration_noise_raised (w' : World) (e : exn) : Prop :=
  ∃ tr l act b,
    trace w' = tr ++ [CallNoise l act b] ∧
    policy_exploration_noise P tr l act b = Raise e.

Definition learn_raised (w' : World) (e : exn) : Prop :=
  ∃ tr l d,
    trace w' = tr ++ [CallLearn l d] ∧
    policy_learn P tr l d = Raise e.

(** The registered policies whose entry in [batch] is non-empty, in
    registry order. *)
Definition to_learn (batch : gmap string (option Data)) (w : World) : list loc :=
  filter (λ l, is_Some (mjoin (batch !! agent_key (agent_id w l)))) (policies w).

(** *** What a sub-policy is handed on the pre-learning path *)

(** The transitions of agent [a] as its [process_fn] sees them: the slice
    at its partition, with the reward narrowed to its column when the
    buffer's reward is an array. *)
Definition process_view (batch : Batch) (has_rew : bool) (a : Z) : result Batch :=
  match batch_getitem batch (nonzero_eq (obs_agent_id batch) a) with
  | None => Raise IndexError
  | Some tb =>
      if has_rew then
        match rew_column (rew tb) (a - 1) with
        | Return r => Return (set_rew tb r)
        | Raise e => Raise e
        end
      else Return tb
  end.

(** Between the stores [w0] and [w'], policy [l]'s [process_fn] was
    called on its view of [batch], on a buffer whose reward is its column
    of the saved reward (when [save_rew], the reward saved at the start,
    is an array: the saved reward has kept that shape and holds what the
    earlier calls left in it) and on its slice of [indices], and
    returned [d]. *)
Definition process_fn_call (batch : Batch) (indices : list Z) (save_rew : Rew)
    (w0 w' : World) (l : loc) (d : option Data) : Prop :=
  ∃ tr sub ti buf buf',
    process_view batch (is_ndarray save_rew) (agent_id w0 l) = Return (Exc:=Exc) sub ∧
    take_index indices (nonzero_eq (obs_agent_id batch) (agent_id w0 l)) = Some ti ∧
    (is_ndarray save_rew = true →
     ∃ cur, rew_same_shape save_rew cur ∧
            rew_column (Exc:=Exc) cur (agent_id w0 l - 1) = Return (meta_rew buf)) ∧
    trace w0 `prefix_of` tr ∧
    (tr ++ [CallProcessFn l sub buf ti]) `prefix_of` trace w' ∧
    policy_process_fn P tr l sub buf ti = (Return d, buf').

End Manager.

(** * A concrete manager

    Two policy objects (references 0 and 1) and the six-transition batch
    of the source's own example: [agent_id] is [1, 2, 1, 2, 1, 2]. *)

Module Example.

Abbreviation Rew := (Rew Z).
Abbreviation Batch := (Batch Z Z).
Abbreviation Buffer := (@Buffer Z unit).
Abbreviation Out := (@Out Z Z unit).
Abbreviation Event := (@Event Z Z Z Z (list Z) unit).
Abbreviation World := (@World Z Z Z Z (list Z) unit).
Abbreviation SubPolicies := (@SubPolicies unit Z Z Z Z unit (list Z) Z unit).

(** Rewards: one row per transition, one column per agent. *)
Definition rew6 : Rew :=
  Mat 2 [[1; -1]; [2; -2]; [3; -3]; [4; -4]; [5; -5]; [6; -6]].

Definition batch6 : Batch :=
  mkBatch [1; 2; 1; 2; 1; 2] rew6 [10; 11; 12; 13; 14; 15].

(** A store before any manager is built: every policy object still has
    the agent id 0. *)
Definition world0 : World :=
  mkWorld (λ _, 0) [] (mkBuffer rew6 ()) (λ _, [100; 101; 102; 103; 104; 105]) [].

(** [MultiAgentPolicyManager([p0, p1])] *)
Definition world2 : World := init [0%nat; 1%nat] world0.

(** Sub-policies that act on the observation they see: policy [l] answers
    a transition with row [r] by the action [10 * r + l]; its
    [process_fn] returns the rows it was given and leaves the buffer as
    it is, its noise adds [l + 1], and [learn] reports how many rows it
    learnt from. *)
Definition pols : SubPolicies :=
  mkSubPolicies
    (λ _ l b _, Return (mkOut ((λ r, 10 * r + Z.of_nat l) <$> rows b) None ()))
    (λ _ l b buf _, (Return (Some (rows b)), buf))
    (λ _ _ _ _ _, None)
    (λ _ l act _, Return ((λ x, x + Z.of_nat l + 1) <$> act))
    (λ _ l d, Return {[ "loss" := Z.of_nat (length d) ]}).

(** The same, except that policy 1's [process_fn] raises. *)
Definition pols_failing : SubPolicies :=
  mkSubPolicies
    (policy_forward pols)
    (λ tr l b buf ix,
       if decide (l = 1%nat) then (Raise (PyExc ()), buf)
       else policy_process_fn pols tr l b buf ix)
    (policy_process_fn_writes pols)
    (policy_exploration_noise pols)
    (policy_learn pols).

(** [MultiAgentPolicyManager([p4, p4])]: one policy object in both
    slots; it ends up with the agent id 2. *)
Definition world_same : World := init [4%nat; 4%nat] world0.

(** Two transitions, both of agent 2. *)
Definition batch_two : Batch :=
  mkBatch [2; 2] (Mat 2 [[1; -1]; [2; -2]]) [10; 11].

(** The same, except that policy 0's [process_fn] normalises the rewards
    in the buffer in place: it sets every element of [buffer.rew] to 0. *)
Definition pols_writing : SubPolicies :=
  mkSubPolicies
    (policy_forward pols)
    (policy_process_fn pols)
    (λ _ l _ buf _,
       if decide (l = 0%nat) then
         match meta_rew buf with
         | Vec col => Some (replicate (length col) 0)
         | _ => None
         end
       else None)
    (policy_exploration_noise pols)
    (policy_learn pols).

(** A reward matrix with a single column, for two agents. *)
Definition rew_one_column : Rew := Mat 1 [[1]; [2]].

(** Three transitions, all of agent 1: policy 1 has no data. *)
Definition batch_one : Batch :=
  mkBatch [1; 1; 1] (Mat 2 [[1; -1]; [2; -2]; [3; -3]]) [10; 11; 12].

(** The two-policy manager on a buffer whose reward matrix has a single
    column, and two transitions, one of each agent. *)
Definition world_one_column : World :=
  init [0%nat; 1%nat]
    (mkWorld (λ _, 0) [] (mkBuffer rew_one_column ()) (λ _, []) []).

Definition batch_one_column : Batch :=
  mkBatch [1; 2] rew_one_column [10; 11].

(** Two transitions of an agent that is not registered. *)
Definition batch_stray : Batch :=
  mkBatch [3; 3] (Mat 2 [[1; -1]; [2; -2]]) [10; 11].

(** [manager.replace_policy(p5, 2)] on the two-policy manager. *)
Definition world2_swapped : World :=
  (replace_policy (Exc:=unit) 5%nat 2 world2).2.

(** Sub-policies that act on the tag they see: policy [l] answers a
    transition tagged [t] by the action [10 * t + l]; the rest is as in
    [pols]. *)
Definition pols_tag : SubPolicies :=
  mkSubPolicies
    (λ _ l b _, Return (mkOut ((λ t, 10 * t + Z.of_nat l) <$> obs_agent_id b) None ()))
    (policy_process_fn pols)
    (policy_process_fn_writes pols)
    (policy_exploration_noise pols)
    (policy_learn pols).

End Example.

(** * Properties *)

Section Properties.
Context {Exc RewV Row Act HState Payload Data Metric Other : Type}.

Local Abbreviation exn := (exn Exc).
Local Abbreviation result := (result Exc).
Local Abbreviation Rew := (Rew RewV).
Local Abbreviation Batch := (Batch RewV Row).
Local Abbreviation Buffer := (@Buffer RewV Other).
Local Abbreviation Out := (@Out Act HState Payload).
Local Abbreviation Event := (@Event RewV Row Act HState Data Other).
Local Abbreviation World := (@World RewV Row Act HState Data Other).
Local Abbreviation SubPolicies :=
  (@SubPolicies Exc RewV Row Act HState Payload Data Metric Other).
Local Abbreviation M := (@M Exc RewV Row Act HState Data Other).
Local Abbreviation Slot := (@Slot Act HState Payload).
Local Abbreviation Holder := (@Holder Act HState Payload).

Implicit Types (w : World) (l q policy : loc) (a : Z) (ps : list loc).

(** ** The registry *)

Lemma list_setitem_nonneg {A} (xs : list A) (i : Z) (x : A) :
  0 ≤ i < Z.of_nat (length xs) →
  list_setitem xs i x = Some (<[Z.to_nat i := x]> xs).
Proof. intros Hi. unfold list_setitem. by rewrite decide_True. Qed.

Lemma list_setitem_negative {A} (xs : list A) (i : Z) (x : A) :
  - Z.of_nat (length xs) ≤ i < 0 →
  list_setitem xs i x = Some (<[Z.to_nat (i + Z.of_nat (length xs)) := x]> xs).
Proof.
  intros Hi. unfold list_setitem.
  rewrite decide_False by lia. by rewrite decide_True.
Qed.

Lemma list_setitem_out_of_range {A} (xs : list A) (i : Z) (x : A) :
  i < - Z.of_nat (length xs) ∨ Z.of_nat (length xs) ≤ i →
  list_setitem xs i x = None.
Proof.
  intros Hi. unfold list_setitem.
  rewrite !decide_False by lia. done.
Qed.

Lemma policies_set_agent_id l a w :
  policies (set_agent_id l a w) = policies w.
Proof. done. Qed.

Lemma agent_id_set_agent_id l a w l' :
  agent_id (set_agent_id l a w) l' = if decide (l' = l) then a else agent_id w l'.
Proof. done. Qed.

Lemma policies_init_loop i ps w :
  policies (init_loop i ps w) = policies w.
Proof. revert i w. induction ps as [|p ps IH]; intros i w; simpl; [done|]. by rewrite IH. Qed.

Lemma agent_id_init_loop_notin i ps w l :
  l ∉ ps → agent_id (init_loop i ps w) l = agent_id w l.
Proof.
  revert i w. induction ps as [|p ps IH]; intros i w Hl; simpl; [done|].
  apply not_elem_of_cons in Hl as [Hne Hl].
  rewrite IH by done. rewrite agent_id_set_agent_id. by rewrite decide_False.
Qed.

Lemma agent_id_init_loop i ps w k l :
  NoDup ps → ps !! k = Some l →
  agent_id (init_loop i ps w) l = Z.of_nat (i + k) + 1.
Proof.
  revert i w k. induction ps as [|p ps IH]; intros i w k Hnd Hk; [done|].
  apply NoDup_cons in Hnd as [Hp Hnd]. destruct k as [|k]; simpl in *.
  - simplify_eq. rewrite agent_id_init_loop_notin by done.
    rewrite agent_id_set_agent_id, decide_True by done. f_equal. lia.
  - rewrite (IH (S i) _ k) by done. f_equal. lia.
Qed.

(** In range, [replace_policy] overwrites slot [a - 1] and assigns [a]. *)
Lemma replace_policy_in_range w q a :
  1 ≤ a ≤ Z.of_nat (length (policies w)) →
  replace_policy (Exc:=Exc) q a w =
    (Return (),
     set_agent_id q a (with_policies (<[Z.to_nat (a - 1) := q]> (policies w)) w)).
Proof.
  intros Ha. unfold replace_policy.
  by rewrite list_setitem_nonneg by lia.
Qed.

(** A non-positive id that Python's negative indexing accepts. *)
Lemma replace_policy_wraps w q a :
  1 - Z.of_nat (length (policies w)) ≤ a ≤ 0 →
  replace_policy (Exc:=Exc) q a w =
    (Return (),
     set_agent_id q a
       (with_policies
          (<[Z.to_nat (Z.of_nat (length (policies w)) + a - 1) := q]> (policies w)) w)).
Proof.
  intros Ha. unfold replace_policy.
  rewrite list_setitem_negative by lia.
  do 4 f_equal. lia.
Qed.

(** Beyond both ends the list assignment raises and nothing is changed. *)
Lemma replace_policy_out_of_range w q a :
  a < 1 - Z.of_nat (length (policies w)) ∨ Z.of_nat (length (policies w)) < a →
  replace_policy (Exc:=Exc) q a w = (Raise IndexError, w).
Proof.
  intros Ha. unfold replace_policy.
  by rewrite list_setitem_out_of_range by lia.
Qed.

(** C10: for a registry of size N ≥ 1 and any agent id with
    1 − N ≤ agent_id ≤ 0, [replace_policy] does not fail: it overwrites
    the slot at position N + agent_id − 1 (the last slot for agent id 0)
    and assigns the non-positive id, so that slot's policy no longer has
    an agent id equal to its registry position + 1. *)
Theorem replace_policy_nonpositive w q a :
  1 - Z.of_nat (length (policies w)) ≤ a ≤ 0 →
  ∃ w', let k := Z.to_nat (Z.of_nat (length (policies w)) + a - 1) in
    replace_policy (Exc:=Exc) q a w = (Return (), w') ∧
    policies w' = <[k := q]> (policies w) ∧
    policies w' !! k = Some q ∧
    agent_id w' q = a ∧
    agent_id w' q ≠ Z.of_nat k + 1.
Proof.
  intros Ha. eexists. cbv zeta. split; [by apply replace_policy_wraps|].
  rewrite policies_set_agent_id, agent_id_set_agent_id, decide_True by done.
  simpl. split_and!; [done| |done|lia].
  apply list_lookup_insert_eq. lia.
Qed.

(** ** Running statements *)

Lemma bind_inv {A B} (c : M A) (k : A → M B) w r w' :
  (c ≫= k) w = (r, w') →
  (∃ x w1, c w = (Return x, w1) ∧ k x w1 = (r, w')) ∨
  (∃ e, c w = (Raise e, w') ∧ r = Raise e).
Proof.
  unfold mbind, M_bind, bind. destruct (c w) as [[x|e] w1]; intros H.
  - left. eauto.
  - right. simplify_eq. eauto.
Qed.

Lemma bind_inv_Return {A B} (c : M A) (k : A → M B) w y w' :
  (c ≫= k) w = (Return y, w') →
  ∃ x w1, c w = (Return x, w1) ∧ k x w1 = (Return y, w').
Proof. intros [H|(e & _ & ?)]%bind_inv; [done|simplify_eq]. Qed.

Section Preserves.
Variable R : World → World → Prop.
Hypothesis R_refl : ∀ w, R w w.
Hypothesis R_trans : ∀ w1 w2 w3, R w1 w2 → R w2 w3 → R w1 w3.

Lemma preserves_bind {A B} (c : M A) (k : A → M B) :
  preserves R c → (∀ x, preserves R (k x)) → preserves R (c ≫= k).
Proof.
  intros Hc Hk w r w' [(x & w1 & H1 & H2)|(e & H1 & _)]%bind_inv.
  - eapply R_trans; [by eapply Hc|by eapply Hk].
  - by eapply Hc.
Qed.

Lemma preserves_pure {A} (c : M A) :
  (∀ w, (c w).2 = w) → preserves R c.
Proof. intros Hc w r w' H. specialize (Hc w). rewrite H in Hc. simpl in Hc. by subst. Qed.

Lemma preserves_ret {A} (x : A) : preserves R (ret (Exc:=Exc) x).
Proof. by apply preserves_pure. Qed.

Lemma preserves_lift {A} (r : result A) : preserves R (lift r).
Proof. by apply preserves_pure. Qed.

Lemma preserves_index_or_raise {A} (o : option A) :
  preserves R (index_or_raise (Exc:=Exc) o).
Proof. apply preserves_pure. by destruct o. Qed.

Lemma preserves_key_or_raise {A} (o : option A) :
  preserves R (key_or_raise (Exc:=Exc) o).
Proof. apply preserves_pure. by destruct o. Qed.

Lemma preserves_get_agent_id l : preserves R (get_agent_id (Exc:=Exc) l).
Proof. by apply preserves_pure. Qed.

Lemma preserves_get_policies : preserves R (get_policies (Exc:=Exc)).
Proof. by apply preserves_pure. Qed.

Lemma preserves_get_buffer_rew : preserves R (get_buffer_rew (Exc:=Exc)).
Proof. by apply preserves_pure. Qed.

Lemma preserves_get_ndarray l : preserves R (get_ndarray (Exc:=Exc) l).
Proof. by apply preserves_pure. Qed.
End Preserves.

Variable P : SubPolicies.

Lemma same_registry_refl w : same_registry w w.
Proof. by split_and!. Qed.

Lemma same_registry_trans w1 w2 w3 :
  same_registry w1 w2 → same_registry w2 w3 → same_registry w1 w3.
Proof.
  intros (?&?&?) (?&?&?). split_and!; [congruence..|by etrans].
Qed.

Lemma same_registry_step {A} (c : M A) :
  (∀ w, policies (c w).2 = policies w ∧ agent_id (c w).2 = agent_id w ∧
        trace w `prefix_of` trace (c w).2) →
  preserves same_registry c.
Proof. intros Hc w r w' H. specialize (Hc w). by rewrite H in Hc. Qed.

Lemma same_registry_set_buffer_rew (r : Rew) :
  preserves same_registry (set_buffer_rew r : M ()).
Proof. by apply same_registry_step. Qed.

Lemma same_registry_set_ndarray l (v : list Act) :
  preserves same_registry (set_ndarray l v : M ()).
Proof. by apply same_registry_step. Qed.

Lemma same_registry_call_forward l b st :
  preserves same_registry (call_forward P l b st).
Proof. apply same_registry_step. intros w. split_and!; [done..|]. by apply prefix_app_r. Qed.

Lemma same_registry_call_process_fn l b indices :
  preserves same_registry (call_process_fn P l b indices).
Proof.
  apply same_registry_step. intros w. unfold call_process_fn.
  destruct (policy_process_fn _ _ _ _ _ _). split_and!; [done..|]. by apply prefix_app_r.
Qed.

Lemma same_registry_call_exploration_noise l act b :
  preserves same_registry (call_exploration_noise P l act b).
Proof. apply same_registry_step. intros w. split_and!; [done..|]. by apply prefix_app_r. Qed.

Lemma same_registry_call_learn l d :
  preserves same_registry (call_learn P l d).
Proof. apply same_registry_step. intros w. split_and!; [done..|]. by apply prefix_app_r. Qed.

Ltac preserves_step :=
  first
    [ assumption
    | apply preserves_ret; apply same_registry_refl
    | apply preserves_lift; apply same_registry_refl
    | apply preserves_index_or_raise; apply same_registry_refl
    | apply preserves_key_or_raise; apply same_registry_refl
    | apply preserves_get_agent_id; apply same_registry_refl
    | apply preserves_get_policies; apply same_registry_refl
    | apply preserves_get_buffer_rew; apply same_registry_refl
    | apply preserves_get_ndarray; apply same_registry_refl
    | apply same_registry_set_buffer_rew
    | apply same_registry_set_ndarray
    | apply same_registry_call_forward
    | apply same_registry_call_process_fn
    | apply same_registry_call_exploration_noise
    | apply same_registry_call_learn
    | apply preserves_bind; [apply same_registry_trans | | intros ?]
    | case_decide
    | case_match ].

Lemma same_registry_process_fn_loop batch indices has_rew save_rew ps results :
  preserves same_registry
    (process_fn_loop P batch indices has_rew save_rew ps results).
Proof.
  revert save_rew results.
  induction ps as [|policy ps IH]; intros save_rew results; simpl.
  - repeat preserves_step.
  - repeat preserves_step; apply IH.
Qed.

Lemma same_registry_process_fn batch indices :
  preserves same_registry (process_fn P batch indices).
Proof.
  unfold process_fn. repeat preserves_step.
  apply same_registry_process_fn_loop.
Qed.

Lemma same_registry_exploration_noise_loop act batch ps :
  preserves same_registry (exploration_noise_loop P act batch ps).
Proof.
  induction ps as [|policy ps IH]; simpl; repeat preserves_step.
Qed.

Lemma same_registry_exploration_noise act batch :
  preserves same_registry (exploration_noise P act batch).
Proof.
  unfold exploration_noise. repeat preserves_step.
  apply same_registry_exploration_noise_loop.
Qed.

Lemma same_registry_forward_loop batch state ps results :
  preserves same_registry (forward_loop P batch state ps results).
Proof.
  revert results. induction ps as [|policy ps IH]; intros results; simpl.
  - repeat preserves_step.
  - repeat preserves_step; apply IH.
Qed.

Lemma same_registry_forward_merge zs (h : Holder) :
  preserves same_registry (forward_merge zs h : M Holder).
Proof.
  revert h. induction zs as [|[policy slot] zs IH]; intros h; simpl.
  - repeat preserves_step.
  - repeat preserves_step; apply IH.
Qed.

Lemma same_registry_forward batch state :
  preserves same_registry (forward P batch state).
Proof.
  unfold forward. repeat preserves_step.
  - apply same_registry_forward_loop.
  - apply same_registry_forward_merge.
Qed.

Lemma same_registry_learn_loop batch ps results :
  preserves same_registry (learn_loop P batch ps results).
Proof.
  revert results. induction ps as [|policy ps IH]; intros results; simpl.
  - repeat preserves_step.
  - repeat preserves_step; apply IH.
Qed.

Lemma same_registry_learn batch :
  preserves same_registry (learn P batch).
Proof. unfold learn. repeat preserves_step. apply same_registry_learn_loop. Qed.

Lemma registry_inv_same_registry w w' :
  same_registry w w' → registry_inv w → registry_inv w'.
Proof. intros (Hp & Ha & _) Hinv k l. rewrite Hp, Ha. apply Hinv. Qed.

Lemma registry_inv_init ps w : NoDup ps → registry_inv (init ps w).
Proof.
  intros Hnd k l. unfold init. rewrite policies_init_loop. simpl.
  intros Hk. by rewrite (agent_id_init_loop 0 ps _ k).
Qed.

Lemma registry_inv_replace_policy w q a w' :
  registry_inv w →
  1 ≤ a ≤ Z.of_nat (length (policies w)) →
  (∀ k : nat, policies w !! k = Some q → Z.of_nat k = a - 1) →
  replace_policy (Exc:=Exc) q a w = (Return (), w') →
  registry_inv w'.
Proof.
  intros Hinv Ha Hq. rewrite replace_policy_in_range by done.
  intros [= <-] k l. rewrite policies_set_agent_id, agent_id_set_agent_id. simpl.
  destruct (decide (k = Z.to_nat (a - 1))) as [->|Hk].
  - rewrite list_lookup_insert_eq by lia. intros [= <-].
    rewrite decide_True by done. lia.
  - rewrite list_lookup_insert_ne by done. intros Hl.
    case_decide as Hlq; [|by apply Hinv]. subst l.
    apply Hq in Hl. lia.
Qed.

(** C6 (as amended): immediately after construction from a list of N
    pairwise distinct policy objects, after every [replace_policy] call
    with 1 ≤ agent_id ≤ N whose policy object is held by no other
    slot, and across the dispatch operations, every registered policy's
    agent id equals its registry position + 1. *)
Theorem well_used_registry_inv w : well_used P w → registry_inv w.
Proof.
  induction 1 as [ps w Hnd | w q a w' _ IH Ha Hq Hrun
                 | w b st r w' _ IH Hrun | w b ix r w' _ IH Hrun
                 | w act b r w' _ IH Hrun | w b r w' _ IH Hrun ].
  - by apply registry_inv_init.
  - by eapply registry_inv_replace_policy.
  - eapply registry_inv_same_registry; [|done]. by eapply same_registry_forward.
  - eapply registry_inv_same_registry; [|done]. by eapply same_registry_process_fn.
  - eapply registry_inv_same_registry; [|done]. by eapply same_registry_exploration_noise.
  - eapply registry_inv_same_registry; [|done]. by eapply same_registry_learn.
Qed.

(** ** Runs that return normally *)

Lemma ret_Return {A} (x y : A) w w' :
  ret (Exc:=Exc) x w = (Return y, w') → y = x ∧ w' = w.
Proof. unfold ret. by intros [= -> ->]. Qed.

Lemma lift_Return {A} (r : result A) (y : A) w w' :
  lift r w = (Return y, w') → r = Return y ∧ w' = w.
Proof. unfold lift. by intros [= -> ->]. Qed.

Lemma index_or_raise_Return {A} (o : option A) (y : A) w w' :
  index_or_raise (Exc:=Exc) o w = (Return y, w') → o = Some y ∧ w' = w.
Proof. unfold index_or_raise. destruct o; by intros [= -> ->]. Qed.

Lemma key_or_raise_Return {A} (o : option A) (y : A) w w' :
  key_or_raise (Exc:=Exc) o w = (Return y, w') → o = Some y ∧ w' = w.
Proof. unfold key_or_raise. destruct o; by intros [= -> ->]. Qed.

Lemma get_agent_id_Return l a w w' :
  get_agent_id (Exc:=Exc) l w = (Return a, w') → a = agent_id w l ∧ w' = w.
Proof. unfold get_agent_id. by intros [= -> ->]. Qed.

Lemma get_policies_Return ps w w' :
  get_policies (Exc:=Exc) w = (Return ps, w') → ps = policies w ∧ w' = w.
Proof. unfold get_policies. by intros [= -> ->]. Qed.

Lemma get_ndarray_Return l (v : list Act) w w' :
  get_ndarray (Exc:=Exc) l w = (Return v, w') → v = ndarray w l ∧ w' = w.
Proof. unfold get_ndarray. by intros [= -> ->]. Qed.

Lemma call_process_fn_Return l b indices (r : option Data)
    (written : option (list RewV)) w w' :
  call_process_fn P l b indices w = (Return (r, written), w') →
  ∃ buf, policy_process_fn P (trace w) l b (buffer w) indices = (Return r, buf) ∧
         written = policy_process_fn_writes P (trace w) l b (buffer w) indices ∧
         w' = with_buffer buf
                (with_trace (trace w ++ [CallProcessFn l b (buffer w) indices]) w).
Proof.
  unfold call_process_fn.
  destruct (policy_process_fn _ _ _ _ _ _) as [[r'|e] buf]; [|done].
  intros Heq. simplify_eq. eauto.
Qed.

Lemma call_forward_Return l b st (out : Out) w w' :
  call_forward P l b st w = (Return out, w') →
  policy_forward P (trace w) l b st = Return out ∧
  w' = with_trace (trace w ++ [CallForward l b st]) w.
Proof. unfold call_forward. by intros [= -> <-]. Qed.

Lemma call_exploration_noise_Return l act b (v : list Act) w w' :
  call_exploration_noise P l act b w = (Return v, w') →
  policy_exploration_noise P (trace w) l act b = Return v ∧
  w' = with_trace (trace w ++ [CallNoise l act b]) w.
Proof. unfold call_exploration_noise. by intros [= -> <-]. Qed.

Lemma call_learn_Return l d (out : gmap string Metric) w w' :
  call_learn P l d w = (Return out, w') →
  policy_learn P (trace w) l d = Return out ∧
  w' = with_trace (trace w ++ [CallLearn l d]) w.
Proof. unfold call_learn. by intros [= -> <-]. Qed.

(** Splits a normally returning sequence [x ← c; k x] in hypothesis [H]
    into the run of [c] and the run of [k x]. *)
Ltac inv_bind_as H x w Hc :=
  apply bind_inv_Return in H as (x & w & Hc & H);
  first
    [ apply call_forward_Return in Hc as [Hc ->]
    | apply call_exploration_noise_Return in Hc as [Hc ->]
    | apply call_learn_Return in Hc as [Hc ->]
    | apply get_agent_id_Return in Hc as [-> ->]
    | apply get_policies_Return in Hc as [-> ->]
    | apply get_ndarray_Return in Hc as [-> ->]
    | apply index_or_raise_Return in Hc as [Hc ->]
    | apply key_or_raise_Return in Hc as [Hc ->]
    | apply lift_Return in Hc as [Hc ->]
    | apply ret_Return in Hc as [-> ->]
    | idtac ].

Tactic Notation "inv_bind" hyp(H) "as" ident(x) ident(w) ident(Hc) :=
  inv_bind_as H x w Hc.

Tactic Notation "inv_bind" hyp(H) :=
  let x := fresh "x" in
  let w := fresh "w" in
  let Hc := fresh "Hc" in
  inv_bind_as H x w Hc.

(** ** process_fn *)

Lemma agent_key_inj : Inj (=) (=) agent_key.
Proof.
  intros a b H. unfold agent_key in H. simpl in H.
  apply (inj pretty). by simplify_eq.
Qed.

(** *** The saved reward matrix and the views into it *)

Lemma rew_same_shape_refl (r : Rew) : rew_same_shape r r.
Proof.
  destruct r as [|v|n rws]; simpl; [done|done|]. split; [done|].
  by apply Forall2_same_length_lookup_2; [|intros; simplify_eq].
Qed.

Lemma rew_same_shape_trans (r1 r2 r3 : Rew) :
  rew_same_shape r1 r2 → rew_same_shape r2 r3 → rew_same_shape r1 r3.
Proof.
  destruct r1 as [|v1|n1 rws1], r2 as [|v2|n2 rws2], r3 as [|v3|n3 rws3];
    simpl; try done; [congruence|].
  intros [-> H12] [-> H23]. split; [done|].
  revert rws3 H23. induction H12 as [|row1 row2 rws1 rws2 Hrow _ IH];
    intros rws3 H23; inversion H23; simplify_eq; constructor; [congruence|auto].
Qed.

Lemma rew_same_shape_write_column (r : Rew) k col :
  rew_same_shape r (rew_write_column r k col).
Proof.
  destruct r as [|v|n rws]; simpl; [done|done|]. split; [done|].
  apply Forall2_same_length_lookup_2; [by rewrite length_imap|].
  intros i row row' Hrow. rewrite list_lookup_imap, Hrow. simpl.
  intros [= <-]. destruct (col !! i); [by rewrite length_insert|done].
Qed.

Lemma rew_same_shape_has_column (r r' : Rew) a :
  rew_same_shape r r' → has_column r a ↔ has_column r' a.
Proof.
  destruct r as [|v|n rws], r' as [|v'|n' rws']; simpl; try done.
  by intros [-> _].
Qed.

Lemma rew_same_shape_wf (r r' : Rew) len :
  rew_same_shape r r' → rew_wf r len → rew_wf r' len.
Proof.
  destruct r as [|v|n rws], r' as [|v'|n' rws']; simpl; try done; [congruence|].
  intros [-> HF] [Hlen Hrows]. split.
  - by rewrite <-(Forall2_length _ _ _ HF).
  - apply Forall_forall. intros row' [i Hi]%list_elem_of_lookup_1.
    destruct (Forall2_lookup_r _ _ _ _ _ HF Hi) as (row & Hrow & ->).
    rewrite Forall_forall in Hrows. apply Hrows. by eapply list_elem_of_lookup_2.
Qed.

Lemma rew_same_shape_is_ndarray (r r' : Rew) :
  rew_same_shape r r' → is_ndarray r' = is_ndarray r.
Proof. by destruct r, r'. Qed.

(** Writing through the view of one column leaves the other columns as
    they are. *)
Lemma rew_write_column_other n (rws rws' : list (list RewV)) k col
    (i j : nat) row row' :
  rew_write_column (Mat n rws) k col = Mat n rws' →
  rws !! i = Some row → rws' !! i = Some row' →
  Z.to_nat (k `mod` Z.of_nat n) ≠ j →
  row' !! j = row !! j.
Proof.
  simpl. intros [= <-] Hrow. rewrite list_lookup_imap, Hrow. simpl.
  intros [= <-] Hne. destruct (col !! i); [|done].
  by rewrite list_lookup_insert_ne.
Qed.

Lemma saved_after_same_shape has_rew (save_rew : Rew) a written :
  rew_same_shape save_rew (saved_after has_rew save_rew a written).
Proof.
  unfold saved_after. destruct has_rew, written;
    auto using rew_same_shape_refl, rew_same_shape_write_column.
Qed.

(** One round of the loop that delegates: what was handed to the
    sub-policy and what came back. *)
Lemma process_fn_round {B} (has_rew : bool) (save_rew : Rew) policy a
    (tb : Batch) (ti : list Z)
    (k : option Data * option (list RewV) → M B) w (res : B) w' :
  (tmp_batch ← (if has_rew then
                  r ← lift (rew_column (rew tb) (a - 1));
                  r_buf ← lift (rew_column save_rew (a - 1));
                  _ ← set_buffer_rew r_buf;
                  ret (set_rew tb r)
                else ret tb);
   r ← call_process_fn P policy tmp_batch ti;
   k r : M _) w = (Return res, w') →
  ∃ tmp_batch buf0 r buf1,
    policy_process_fn P (trace w) policy tmp_batch buf0 ti = (Return r, buf1) ∧
    k (r, policy_process_fn_writes P (trace w) policy tmp_batch buf0 ti)
      (with_buffer buf1
         (with_trace (trace w ++ [CallProcessFn policy tmp_batch buf0 ti]) w))
      = (Return res, w').
Proof.
  intros Hrun. inv_bind Hrun. inv_bind Hrun. destruct x0 as [r written].
  apply call_process_fn_Return in Hc0 as (buf1 & Hcall & -> & ->).
  destruct has_rew.
  - do 3 inv_bind Hc. apply ret_Return in Hc as [-> ->].
    injection Hc2 as <-. simpl in *. eauto 10.
  - apply ret_Return in Hc as [-> ->]. eauto 10.
Qed.

Lemma process_fn_loop_results batch indices has_rew save_rew ps results w
    res save' w' :
  process_fn_loop P batch indices has_rew save_rew ps results w
    = (Return (res, save'), w') →
  ∃ evs,
    trace w' = trace w ++ evs ∧
    (∀ e, e ∈ evs →
       callee e ∈ ps ∧ nonzero_eq (obs_agent_id batch) (agent_id w (callee e)) ≠ []) ∧
    (∀ key, is_Some (results !! key) → is_Some (res !! key)) ∧
    (∀ l, l ∈ ps → is_Some (res !! agent_key (agent_id w l))) ∧
    (∀ a, nonzero_eq (obs_agent_id batch) a = [] →
       results !! agent_key a = Some None ∨ (∃ l, l ∈ ps ∧ agent_id w l = a) →
       res !! agent_key a = Some None).
Proof.
  revert save_rew results w.
  induction ps as [|policy ps IH]; intros save_rew results w Hrun.
  - simpl in Hrun. apply ret_Return in Hrun as [[= -> ->] ->].
    exists []. rewrite app_nil_r.
    split_and!; [done|by intros ? ?%elem_of_nil|done|by intros ? ?%elem_of_nil|].
    intros a _ [?|(l & ?%elem_of_nil & _)]; done.
  - simpl in Hrun. inv_bind Hrun. case_decide as Hidx.
    + apply IH in Hrun as (evs & Htr & Hev & Hmono & Hdom & Hempty).
      exists evs. split_and!; [done|..].
      * intros e He. destruct (Hev e He). split; [by right|done].
      * intros key Hkey. apply Hmono. rewrite lookup_insert. by case_decide.
      * intros l [->|Hl]%elem_of_cons; [|by apply Hdom].
        apply Hmono. by rewrite lookup_insert_eq.
      * intros a Ha Hor. apply Hempty; [done|].
        destruct (decide (a = agent_id w policy)) as [->|Hne].
        { left. by rewrite lookup_insert_eq. }
        rewrite lookup_insert_ne by (by intros ?%agent_key_inj).
        destruct Hor as [?|(l & [->|Hl]%elem_of_cons & Hl')]; eauto.
        done.
    + do 2 inv_bind Hrun.
      apply process_fn_round in Hrun as (tmp_batch & buf0 & r & buf1 & Hcall & Hrun).
      apply IH in Hrun as (evs & Htr & Hev & Hmono & Hdom & Hempty). simpl in *.
      exists (CallProcessFn policy tmp_batch buf0 x0 :: evs).
      split_and!.
      * rewrite Htr. by rewrite <-app_assoc.
      * intros e [->|He]%elem_of_cons.
        { simpl. split; [by left|]. by intros Hnil; rewrite Hnil in Hidx. }
        destruct (Hev e He). split; [by right|done].
      * intros key Hkey. apply Hmono. rewrite lookup_insert. by case_decide.
      * intros l [->|Hl]%elem_of_cons; [|by apply Hdom].
        apply Hmono. by rewrite lookup_insert_eq.
      * intros a Ha Hor. apply Hempty; [done|].
        assert (a ≠ agent_id w policy) as Hne.
        { intros ->. by rewrite Ha in Hidx. }
        rewrite lookup_insert_ne by (by intros ?%agent_key_inj).
        destruct Hor as [?|(l & [->|Hl]%elem_of_cons & Hl')]; eauto.
        done.
Qed.

(** The saved matrix over the loop: it keeps its shape; a column is
    changed only through the view handed to a policy with data whose
    column it is; and with no in-place write the matrix is unchanged. *)
Lemma process_fn_loop_saved batch indices has_rew save_rew ps results w
    res save' w' :
  process_fn_loop P batch indices has_rew save_rew ps results w
    = (Return (res, save'), w') →
  rew_same_shape save_rew save' ∧
  (∀ n rws rws' (i j : nat) row row',
     save_rew = Mat n rws → save' = Mat n rws' →
     rws !! i = Some row → rws' !! i = Some row' →
     (∀ l, l ∈ ps → nonzero_eq (obs_agent_id batch) (agent_id w l) ≠ [] →
        Z.to_nat ((agent_id w l - 1) `mod` Z.of_nat n) ≠ j) →
     row' !! j = row !! j) ∧
  ((∀ tr l b buf ix,
      trace w `prefix_of` tr →
      (tr ++ [CallProcessFn l b buf ix]) `prefix_of` trace w' →
      policy_process_fn_writes P tr l b buf ix = None) →
   save' = save_rew).
Proof.
  revert save_rew results w.
  induction ps as [|policy ps IH]; intros save_rew results w Hrun.
  - simpl in Hrun. apply ret_Return in Hrun as [[= -> ->] ->].
    split_and!; [apply rew_same_shape_refl| |done].
    intros n rws rws' i j row row' -> [= <-] Hrow Hrow' _. congruence.
  - simpl in Hrun. inv_bind Hrun. case_decide as Hidx.
    + apply IH in Hrun as (Hshape & Hframe & Hsame). split_and!; [done| |done].
      intros n rws rws' i j row row' Hs Hs' Hrow Hrow' Hcol.
      eapply Hframe; [done..|]. intros l Hl. apply Hcol. by right.
    + do 2 inv_bind Hrun.
      apply process_fn_round in Hrun as (tmp_batch & buf0 & r & buf1 & Hcall & Hrun).
      cbv beta iota in Hrun.
      set (save1 := saved_after _ _ _ _) in Hrun.
      pose proof (saved_after_same_shape has_rew save_rew (agent_id w policy)
                    (policy_process_fn_writes P (trace w) policy tmp_batch buf0 x0))
        as Hshape1.
      fold save1 in Hshape1.
      pose proof Hrun as (_ & _ & Hpre)%same_registry_process_fn_loop.
      apply IH in Hrun as (Hshape & Hframe & Hsame). simpl in *.
      split_and!.
      * by eapply rew_same_shape_trans.
      * intros n rws rws' i j row row' -> -> Hrow Hrow' Hcol.
        assert (nonzero_eq (obs_agent_id batch) (agent_id w policy) ≠ []) as Hne.
        { intros Hnil. by rewrite Hnil in Hidx. }
        destruct save1 as [|v1|n1 rws1] eqn:Hs1; simpl in Hshape1; try done.
        destruct Hshape1 as [-> HF1].
        destruct (Forall2_lookup_l _ _ _ _ _ HF1 Hrow) as (row1 & Hrow1 & _).
        rewrite (Hframe n rws1 rws' i j row1 row' eq_refl eq_refl Hrow1 Hrow').
        { subst save1. unfold saved_after in Hs1.
          destruct has_rew; [|by simplify_eq].
          destruct (policy_process_fn_writes _ _ _ _ _ _) as [col|]; [|by simplify_eq].
          eapply rew_write_column_other; [exact Hs1|done..|].
          apply Hcol; [by left|done]. }
        intros l Hl. apply Hcol. by right.
      * intros Hnone.
        assert (policy_process_fn_writes P (trace w) policy tmp_batch buf0 x0 = None)
          as Hw.
        { apply Hnone; [done|]. etrans; [|exact Hpre]. done. }
        rewrite Hsame.
        { subst save1. rewrite Hw. unfold saved_after. by destruct has_rew. }
        intros tr l b buf ix Htr. apply Hnone. etrans; [|exact Htr].
        by apply prefix_app_r.
Qed.

(** C2 (as amended): if the buffer's reward field is a multi-dimensional
    array and [process_fn] returns normally, the reward field right
    after the call is the saved array again, with the shape it had
    before; a column has the contents it had before unless it is the
    column of a registered policy with data (which was handed a view of
    it); and when no sub-policy called wrote the view it was handed in
    place, the reward field is what it was before the call, whatever the
    partitions are, empty ones included. *)
Theorem process_fn_reward_round_trip batch indices w res w' n rws :
  meta_rew (buffer w) = Mat n rws →
  process_fn P batch indices w = (Return res, w') →
  ∃ rws',
    meta_rew (buffer w') = Mat n rws' ∧
    Forall2 (λ row row' : list RewV, length row' = length row) rws rws' ∧
    (∀ (i j : nat) row row',
       rws !! i = Some row → rws' !! i = Some row' →
       (∀ l, l ∈ policies w →
          nonzero_eq (obs_agent_id batch) (agent_id w l) ≠ [] →
          Z.to_nat ((agent_id w l - 1) `mod` Z.of_nat n) ≠ j) →
       row' !! j = row !! j) ∧
    ((∀ tr l b buf ix,
        trace w `prefix_of` tr →
        (tr ++ [CallProcessFn l b buf ix]) `prefix_of` trace w' →
        policy_process_fn_writes P tr l b buf ix = None) →
     rws' = rws).
Proof.
  intros Hrew Hrun. unfold process_fn in Hrun.
  apply bind_inv_Return in Hrun as (save & w1 & [= <- <-] & Hrun).
  rewrite Hrew in Hrun. simpl in Hrun.
  inv_bind Hrun as u w0 Hpre. injection Hpre as <-.
  inv_bind Hrun. inv_bind Hrun as rs w1 Hloop. destruct rs as [res0 save'].
  inv_bind Hrun as u' w2 Hpost. injection Hpost as <-.
  apply ret_Return in Hrun as [-> ->]. simpl in *.
  apply process_fn_loop_saved in Hloop as (Hshape & Hframe & Hsame). simpl in *.
  destruct save' as [|v'|n' rws']; simpl in Hshape; try done.
  destruct Hshape as [-> HF]. exists rws'. split_and!; [done|done|..].
  - intros i j row row'. by apply Hframe.
  - intros Hnone. specialize (Hsame Hnone). by simplify_eq.
Qed.

(** C8: [process_fn] returns a mapping with an entry under "agent_<id>"
    for every registered policy; a policy whose partition is empty has
    the empty [Batch()] there, and its own [process_fn] is not called. *)
Theorem process_fn_entries batch indices w res w' :
  process_fn P batch indices w = (Return res, w') →
  ∃ evs, trace w' = trace w ++ evs ∧
    ∀ l, l ∈ policies w →
      is_Some (res !! agent_key (agent_id w l)) ∧
      (nonzero_eq (obs_agent_id batch) (agent_id w l) = [] →
         res !! agent_key (agent_id w l) = Some None ∧
         ∀ e, e ∈ evs → callee e ≠ l).
Proof.
  intros Hrun. unfold process_fn in Hrun.
  apply bind_inv_Return in Hrun as (save & w1 & [= <- <-] & Hrun).
  inv_bind Hrun as u w0 Hc. inv_bind Hrun. inv_bind Hrun as rs w1 Hc0.
  destruct rs as [res0 save']. inv_bind Hrun as u' w2 Hc1.
  apply ret_Return in Hrun as [-> ->].
  apply process_fn_loop_results in Hc0 as (evs & Htr & Hev & _ & Hdom & Hempty).
  assert (policies w0 = policies w ∧ agent_id w0 = agent_id w ∧ trace w0 = trace w)
    as (Hp & Ha & Ht).
  { destruct (is_ndarray (meta_rew (buffer w)));
      [by injection Hc as <- <-|by apply ret_Return in Hc as [_ ->]]. }
  assert (trace w2 = trace w1) as Ht'.
  { destruct (is_ndarray (meta_rew (buffer w)));
      [by injection Hc1 as <- <-|by apply ret_Return in Hc1 as [_ ->]]. }
  rewrite Hp, Ha, Ht in *. exists evs. split; [congruence|].
  intros l Hl. split; [by apply Hdom|]. intros Hnil. split.
  - apply Hempty; eauto.
  - intros e He <-. destruct (Hev e He) as [_ Hne]. done.
Qed.


(** ** learn *)

Lemma pretty_N_go_slash_free (x : N) (s : string) :
  slash_free s = true → slash_free (pretty_N_go x s) = true.
Proof.
  revert s. induction (N.lt_wf_0 x) as [x _ IH]; intros s Hs.
  assert (x = 0 ∨ 0 < x)%N as [->|Hx] by lia.
  - by rewrite pretty_N_go_0.
  - rewrite pretty_N_go_step by done. apply IH.
    + apply N.div_lt; lia.
    + simpl. rewrite Hs. unfold pretty_N_char. by repeat case_match.
Qed.

Lemma pretty_Z_slash_free (a : Z) : slash_free (pretty a) = true.
Proof.
  assert (∀ p : positive, slash_free (pretty p) = true) as Hpos.
  { intros p. unfold pretty, pretty_positive, pretty, pretty_N.
    case_decide; [done|]. by apply pretty_N_go_slash_free. }
  destruct a as [|p|p]; [done|apply Hpos|].
  unfold pretty, pretty_Z. simpl. apply Hpos.
Qed.

Lemma slash_split_inj (s1 s2 k1 k2 : string) :
  slash_free s1 = true → slash_free s2 = true →
  s1 +:+ "/" +:+ k1 = s2 +:+ "/" +:+ k2 → s1 = s2 ∧ k1 = k2.
Proof.
  revert s2. induction s1 as [|c1 s1 IH]; intros [|c2 s2]; simpl.
  - intros _ _ Heq. by simplify_eq.
  - case_decide; [done|]. intros _ _ Heq. by simplify_eq.
  - case_decide; [done|]. intros _ _ Heq. by simplify_eq.
  - repeat case_decide; try done. intros H1 H2 Heq.
    injection Heq as -> Heq.
    destruct (IH s2 H1 H2 Heq) as [-> ->]. done.
Qed.

Lemma metric_key_inj a1 a2 k1 k2 :
  metric_key a1 k1 = metric_key a2 k2 → a1 = a2 ∧ k1 = k2.
Proof.
  unfold metric_key, agent_key. simpl. intros [= Heq].
  apply slash_split_inj in Heq as [Ha ->]; [|apply pretty_Z_slash_free..].
  split; [|done]. by apply (inj pretty).
Qed.

Lemma foldl_metrics_other a (kvs : list (string * Metric))
    (results : gmap string Metric) key :
  (∀ k, key ≠ metric_key a k) →
  foldl (λ acc kv, <[metric_key a kv.1 := kv.2]> acc) results kvs !! key
  = results !! key.
Proof.
  intros Hkey. revert results.
  induction kvs as [|[k v] kvs IH]; intros results; simpl; [done|].
  rewrite IH. by rewrite lookup_insert_ne.
Qed.

Lemma foldl_metrics_fresh a (kvs : list (string * Metric))
    (results : gmap string Metric) k :
  k ∉ kvs.*1 →
  foldl (λ acc kv, <[metric_key a kv.1 := kv.2]> acc) results kvs !! metric_key a k
  = results !! metric_key a k.
Proof.
  revert results. induction kvs as [|[k' v'] kvs IH]; intros results Hk; simpl; [done|].
  simpl in Hk. apply not_elem_of_cons in Hk as [Hne Hk].
  rewrite IH by done. rewrite lookup_insert_ne; [done|].
  intros [_ ?]%metric_key_inj. done.
Qed.

Lemma foldl_metrics_elem a (kvs : list (string * Metric))
    (results : gmap string Metric) k v :
  NoDup kvs.*1 → (k, v) ∈ kvs →
  foldl (λ acc kv, <[metric_key a kv.1 := kv.2]> acc) results kvs !! metric_key a k
  = Some v.
Proof.
  revert results. induction kvs as [|[k' v'] kvs IH]; intros results Hnd Hin.
  { by apply elem_of_nil in Hin. }
  simpl in *. apply NoDup_cons in Hnd as [Hk' Hnd].
  apply elem_of_cons in Hin as [[= -> ->]|Hin]; [|by apply IH].
  rewrite foldl_metrics_fresh by done. by rewrite lookup_insert_eq.
Qed.

Lemma add_metrics_lookup a (out results : gmap string Metric) k v :
  out !! k = Some v → add_metrics a out results !! metric_key a k = Some v.
Proof.
  intros Hk. unfold add_metrics. apply foldl_metrics_elem.
  - apply NoDup_fst_map_to_list.
  - by apply elem_of_map_to_list.
Qed.

Lemma add_metrics_lookup_other a (out results : gmap string Metric) key :
  (∀ k, key ≠ metric_key a k) →
  add_metrics a out results !! key = results !! key.
Proof. intros Hkey. unfold add_metrics. by apply foldl_metrics_other. Qed.

Lemma learn_loop_results batch ps results w res w' :
  learn_loop P batch ps results w = (Return res, w') →
  ∃ evs,
    trace w' = trace w ++ evs ∧
    (∀ e, e ∈ evs →
       callee e ∈ ps ∧ ∃ d, batch !! agent_key (agent_id w (callee e)) = Some (Some d)) ∧
    (∀ l, l ∈ ps → is_Some (batch !! agent_key (agent_id w l))) ∧
    (∀ key, (∀ l d k, l ∈ ps → batch !! agent_key (agent_id w l) = Some (Some d) →
                      key ≠ metric_key (agent_id w l) k) →
            res !! key = results !! key) ∧
    (NoDup (agent_id w <$> ps) →
     ∀ l d, l ∈ ps → batch !! agent_key (agent_id w l) = Some (Some d) →
       ∃ tr out,
         trace w `prefix_of` tr ∧ (tr ++ [CallLearn l d]) `prefix_of` trace w' ∧
         policy_learn P tr l d = Return out ∧
         ∀ k v, out !! k = Some v → res !! metric_key (agent_id w l) k = Some v).
Proof.
  revert results w. induction ps as [|policy ps IH]; intros results w Hrun.
  - simpl in Hrun. apply ret_Return in Hrun as [-> ->]. exists []. rewrite app_nil_r.
    split_and!; [done|by intros ? ?%elem_of_nil|by intros ? ?%elem_of_nil|done|].
    by intros _ l d ?%elem_of_nil.
  - simpl in Hrun. inv_bind Hrun. inv_bind Hrun as data w1 Hdata.
    destruct data as [d|].
    + inv_bind Hrun as out w1 Hcall.
      apply IH in Hrun as (evs & Htr & Hev & Hdom & Hother & Hmine). simpl in *.
      exists (CallLearn policy d :: evs). split_and!.
      * rewrite Htr. by rewrite <-app_assoc.
      * intros e [->|He]%elem_of_cons; [simpl; split; [by left|eauto]|].
        destruct (Hev e He). split; [by right|done].
      * intros l [->|Hl]%elem_of_cons; [by rewrite Hdata|by apply Hdom].
      * intros key Hkey. rewrite Hother.
        { apply add_metrics_lookup_other. intros k. eapply Hkey; [by left|done]. }
        intros l d' k Hl. apply Hkey. by right.
      * intros [Hnotin Hnd]%NoDup_cons l d' [->|Hl]%elem_of_cons Hd'.
        { rewrite Hdata in Hd'. simplify_eq. exists (trace w), out.
          split_and!; [done| |done|].
          - rewrite Htr. by apply prefix_app_r.
          - intros k v Hk. rewrite Hother; [by apply add_metrics_lookup|].
            intros l d0 k0 Hl _ [Heq _]%metric_key_inj.
            apply Hnotin. rewrite Heq. by apply list_elem_of_fmap_2. }
        destruct (Hmine Hnd l d' Hl Hd') as (tr & out' & Hpre & Hin & Hres & Hout).
        exists tr, out'. split_and!; [|done..].
        etrans; [|done]. by apply prefix_app_r.
    + apply IH in Hrun as (evs & Htr & Hev & Hdom & Hother & Hmine).
      exists evs. split_and!; [done|..].
      * intros e He. destruct (Hev e He). split; [by right|done].
      * intros l [->|Hl]%elem_of_cons; [by rewrite Hdata|by apply Hdom].
      * intros key Hkey. apply Hother. intros l d k Hl. apply Hkey. by right.
      * intros [Hnotin Hnd]%NoDup_cons l d [->|Hl]%elem_of_cons Hd.
        { rewrite Hdata in Hd. simplify_eq. }
        by apply Hmine.
Qed.

(** C7 (as amended): on a registry with pairwise distinct agent ids,
    [learn] returns a flat mapping that holds, for each registered policy
    whose entry is non-empty, every metric its [learn] call returned
    under the key "agent_<agentId>/<metricName>", and holds no such key
    for a policy whose entry is empty, whose [learn] is not called. *)
Theorem learn_metrics batch w res w' :
  NoDup (registered_ids w) →
  learn P batch w = (Return res, w') →
  ∃ evs, trace w' = trace w ++ evs ∧
    ∀ l, l ∈ policies w →
      ∃ data, batch !! agent_key (agent_id w l) = Some data ∧
        match data with
        | Some d =>
            ∃ tr out,
              trace w `prefix_of` tr ∧
              (tr ++ [CallLearn l d]) `prefix_of` trace w' ∧
              policy_learn P tr l d = Return out ∧
              ∀ k v, out !! k = Some v →
                     res !! metric_key (agent_id w l) k = Some v
        | None =>
            (∀ k, res !! metric_key (agent_id w l) k = None) ∧
            (∀ e, e ∈ evs → callee e ≠ l)
        end.
Proof.
  intros Hnd Hrun. unfold learn in Hrun. inv_bind Hrun.
  apply learn_loop_results in Hrun as (evs & Htr & Hev & Hdom & Hother & Hmine).
  exists evs. split; [done|]. intros l Hl.
  destruct (Hdom l Hl) as [[d|] Hdata]; eexists; (split; [done|]).
  - by apply Hmine.
  - split.
    + intros k. rewrite Hother; [done|].
      intros l' d k' Hl' Hd [Heq _]%metric_key_inj. rewrite Heq in Hdata. congruence.
    + intros e He <-. destruct (Hev e He) as (_ & d & Hd). congruence.
Qed.

(** ** Partitions and array updates *)

Lemma elem_of_nonzero_from i tags a j :
  j ∈ nonzero_from i tags a ↔ ∃ k : nat, j = (i + k)%nat ∧ tags !! k = Some a.
Proof.
  revert i. induction tags as [|t tags IH]; intros i; simpl.
  - split; [by intros ?%elem_of_nil|by intros (k & _ & ?)].
  - case_decide as Ht.
    + rewrite elem_of_cons, IH. split.
      * intros [->|(k & -> & Hk)]; [exists 0%nat|exists (S k)]; simpl;
          (split; [lia|by subst]).
      * intros ([|k] & -> & Hk); [left; lia|right; exists k; split; [lia|done]].
    + rewrite IH. split.
      * intros (k & -> & Hk). exists (S k). split; [lia|done].
      * intros ([|k] & -> & Hk); simpl in Hk; [congruence|].
        exists k. split; [lia|done].
Qed.

Lemma elem_of_nonzero_eq tags a i :
  i ∈ nonzero_eq tags a ↔ tags !! i = Some a.
Proof.
  unfold nonzero_eq. rewrite elem_of_nonzero_from. split.
  - by intros (k & -> & Hk).
  - intros Hi. by exists i.
Qed.

Lemma NoDup_nonzero_from i tags a : NoDup (nonzero_from i tags a).
Proof.
  revert i. induction tags as [|t tags IH]; intros i; simpl; [constructor|].
  case_decide; [|done]. constructor; [|done].
  rewrite elem_of_nonzero_from. intros (k & ? & _). lia.
Qed.

Lemma NoDup_nonzero_eq tags a : NoDup (nonzero_eq tags a).
Proof. apply NoDup_nonzero_from. Qed.

Lemma nonzero_eq_lt tags a i : i ∈ nonzero_eq tags a → (i < length tags)%nat.
Proof. rewrite elem_of_nonzero_eq. apply lookup_lt_Some. Qed.

Lemma nonzero_eq_disjoint tags a b i :
  a ≠ b → i ∈ nonzero_eq tags a → i ∉ nonzero_eq tags b.
Proof. rewrite !elem_of_nonzero_eq. congruence. Qed.

Lemma length_write_all {A} (arr : list A) index vals :
  length (write_all arr index vals) = length arr.
Proof.
  revert arr vals. induction index as [|i index IH]; intros arr [|x vals]; simpl; try done.
  by rewrite IH, length_insert.
Qed.

Lemma write_all_lookup_notin {A} (arr : list A) index vals i :
  i ∉ index → write_all arr index vals !! i = arr !! i.
Proof.
  revert arr vals. induction index as [|i' index IH]; intros arr [|x vals] Hi; simpl; try done.
  apply not_elem_of_cons in Hi as [Hne Hi].
  rewrite IH by done. by rewrite list_lookup_insert_ne.
Qed.

Lemma write_all_lookup {A} (arr : list A) index vals (j i : nat) :
  NoDup index → length vals = length index →
  Forall (λ i, (i < length arr)%nat) index →
  index !! j = Some i → write_all arr index vals !! i = vals !! j.
Proof.
  revert arr vals j.
  induction index as [|i' index IH]; intros arr [|x vals] j Hnd Hlen Hlt Hj;
    simpl in *; try done.
  apply NoDup_cons in Hnd as [Hnotin Hnd]. apply Forall_cons in Hlt as [Hi' Hlt].
  destruct j as [|j]; simpl in *.
  - simplify_eq. rewrite write_all_lookup_notin by done.
    by rewrite list_lookup_insert_eq.
  - apply IH; [done|lia| |done]. by rewrite length_insert.
Qed.

Lemma broadcast_to_length {A} n (v vals : list A) :
  broadcast_to n v = Some vals → length vals = n.
Proof.
  unfold broadcast_to. case_decide; [by intros [= <-]|].
  destruct v as [|x [|??]]; intros [= <-]. by rewrite length_replicate.
Qed.

Lemma set_index_Return {A} (arr : list A) index v arr' :
  set_index (Exc:=Exc) arr index v = Return arr' →
  ∃ vals, broadcast_to (length index) v = Some vals ∧
          Forall (λ i, (i < length arr)%nat) index ∧
          arr' = write_all arr index vals.
Proof.
  unfold set_index. destruct (broadcast_to _ _) as [vals|]; [|done].
  case_decide; [|done]. intros [= <-]. eauto.
Qed.

Lemma take_index_lookup {A} (arr sub : list A) index :
  take_index arr index = Some sub →
  length sub = length index ∧
  ∀ (j i : nat), index !! j = Some i → sub !! j = arr !! i.
Proof.
  unfold take_index. rewrite mapM_Some. intros HF. split.
  - symmetry. by eapply Forall2_length.
  - intros j i Hj.
    destruct (Forall2_lookup_l _ _ _ _ _ HF Hj) as (y & Hy & Hi). congruence.
Qed.

Lemma take_index_ext {A} (arr arr' : list A) index :
  (∀ i, i ∈ index → arr !! i = arr' !! i) →
  take_index arr index = take_index arr' index.
Proof.
  intros Hext. unfold take_index. induction index as [|i index IH]; [done|].
  simpl. rewrite (Hext i) by left. rewrite IH; [done|].
  intros i' Hi'. apply Hext. by right.
Qed.

(** ** exploration_noise *)

Lemma exploration_noise_loop_spec act batch ps w u w' :
  exploration_noise_loop P act batch ps w = (Return u, w') →
  (∃ evs, trace w' = trace w ++ evs ∧
     ∀ e, e ∈ evs →
       callee e ∈ ps ∧ nonzero_eq (obs_agent_id batch) (agent_id w (callee e)) ≠ []) ∧
  (∀ r, r ≠ act → ndarray w' r = ndarray w r) ∧
  length (ndarray w' act) = length (ndarray w act) ∧
  (∀ i : nat,
     (∀ l, l ∈ ps → i ∉ nonzero_eq (obs_agent_id batch) (agent_id w l)) →
     ndarray w' act !! i = ndarray w act !! i) ∧
  (NoDup (agent_id w <$> ps) →
   ∀ l, l ∈ ps →
     let index := nonzero_eq (obs_agent_id batch) (agent_id w l) in
     index ≠ [] →
     ∃ tr sub_act sub_batch v vals,
       take_index (ndarray w act) index = Some sub_act ∧
       batch_getitem batch index = Some sub_batch ∧
       trace w `prefix_of` tr ∧
       (tr ++ [CallNoise l sub_act sub_batch]) `prefix_of` trace w' ∧
       policy_exploration_noise P tr l sub_act sub_batch = Return v ∧
       broadcast_to (length index) v = Some vals ∧
       ∀ (j i : nat), index !! j = Some i → ndarray w' act !! i = vals !! j).
Proof.
  revert w. induction ps as [|policy ps IH]; intros w Hrun.
  - simpl in Hrun. apply ret_Return in Hrun as [-> ->].
    split_and!; [|done..|by intros _ l ?%elem_of_nil].
    exists []. rewrite app_nil_r. split; [done|]. by intros ? ?%elem_of_nil.
  - simpl in Hrun. inv_bind Hrun. case_decide as Hidx.
    + apply IH in Hrun as ((evs & Htr & Hev) & Hother & Hlen & Hout & Hmine).
      split_and!; [|done|done|..].
      * exists evs. split; [done|]. intros e He. destruct (Hev e He).
        split; [by right|done].
      * intros i Hi. apply Hout. intros l Hl. apply Hi. by right.
      * intros [Hnotin Hnd]%NoDup_cons l [->|Hl]%elem_of_cons; simpl; intros Hne.
        { destruct Hne. by apply nil_length_inv. }
        by apply Hmine.
    + inv_bind Hrun. inv_bind Hrun as sub_act w1 Hsub.
      inv_bind Hrun as sub_batch w1 Hbatch. inv_bind Hrun as v w1 Hcall.
      inv_bind Hrun. inv_bind Hrun as arr w1 Hset.
      apply bind_inv_Return in Hrun as (? & w2 & Hw2 & Hrun).
      unfold set_ndarray in Hw2. injection Hw2 as _ <-.
      simpl in Hset.
      apply set_index_Return in Hset as (vals & Hbc & Hlt & ->).
      apply IH in Hrun as ((evs & Htr & Hev) & Hother & Hlen & Hout & Hmine).
      simpl in *. rewrite decide_True in Hlen, Hout, Hmine by done.
      set (index := nonzero_eq (obs_agent_id batch) (agent_id w policy)) in *.
      split_and!.
      * exists (CallNoise policy sub_act sub_batch :: evs). split.
        { rewrite Htr. by rewrite <-app_assoc. }
        intros e [->|He]%elem_of_cons.
        { simpl. split; [by left|]. fold index. by intros Hnil; rewrite Hnil in Hidx. }
        destruct (Hev e He). split; [by right|done].
      * intros r Hr. rewrite Hother by done. by rewrite decide_False.
      * by rewrite Hlen, length_write_all.
      * intros i Hi. rewrite Hout.
        { apply write_all_lookup_notin. apply Hi. by left. }
        intros l Hl. apply Hi. by right.
      * intros [Hnotin Hnd]%NoDup_cons l [->|Hl]%elem_of_cons Hne.
        { fold index. exists (trace w), sub_act, sub_batch, v, vals.
          split_and!; [done|done|done| |done|done|].
          - rewrite Htr. by apply prefix_app_r.
          - intros j i Hj. rewrite Hout.
            + apply write_all_lookup; [apply NoDup_nonzero_eq| |done..].
              by apply broadcast_to_length in Hbc.
            + intros l Hl. eapply nonzero_eq_disjoint; [|by eapply list_elem_of_lookup_2].
              intros Heq. apply Hnotin. rewrite Heq. by apply list_elem_of_fmap_2. }
        destruct (Hmine Hnd l Hl Hne) as (tr & sa & sb & v' & vals' & H1 & H2 & H3 & H4 & H5 & H6 & H7).
        exists tr, sa, sb, v', vals'. split_and!; [|done| |done..].
        { rewrite <-H1. apply take_index_ext. intros i Hi. symmetry.
          apply write_all_lookup_notin.
          eapply nonzero_eq_disjoint; [|done].
          intros Heq. apply Hnotin. rewrite <-Heq. by apply list_elem_of_fmap_2. }
        etrans; [|done]. by apply prefix_app_r.
Qed.

(** What each registry slot does to the array, whatever the agent ids
    are: slot [k] is handed the array as the earlier slots left it, and
    what it writes stays unless a later slot writes over it. *)
Lemma exploration_noise_loop_slots act batch ps w u w' :
  exploration_noise_loop P act batch ps w = (Return u, w') →
  ∀ (k : nat) l, ps !! k = Some l →
    let index := nonzero_eq (obs_agent_id batch) (agent_id w l) in
    index ≠ [] →
    ∃ tr arr sub_act sub_batch v vals,
      length arr = length (ndarray w act) ∧
      (∀ i : nat,
         (∀ (k' : nat) l', (k' < k)%nat → ps !! k' = Some l' →
            i ∉ nonzero_eq (obs_agent_id batch) (agent_id w l')) →
         arr !! i = ndarray w act !! i) ∧
      take_index arr index = Some sub_act ∧
      batch_getitem batch index = Some sub_batch ∧
      trace w `prefix_of` tr ∧
      (tr ++ [CallNoise l sub_act sub_batch]) `prefix_of` trace w' ∧
      policy_exploration_noise P tr l sub_act sub_batch = Return v ∧
      broadcast_to (length index) v = Some vals ∧
      ∀ (j i : nat), index !! j = Some i →
        (∀ (k' : nat) l', (k < k')%nat → ps !! k' = Some l' →
           i ∉ nonzero_eq (obs_agent_id batch) (agent_id w l')) →
        ndarray w' act !! i = vals !! j.
Proof.
  revert w. induction ps as [|policy ps IH]; intros w Hrun k l Hk; [done|].
  simpl in Hrun. inv_bind Hrun. case_decide as Hidx.
  - destruct k as [|k]; simpl in Hk.
    { simplify_eq. intros index Hne. destruct Hne. by apply nil_length_inv. }
    intros index Hne.
    destruct (IH _ Hrun k l Hk Hne)
      as (tr & arr & sa & sb & v & vals & Hlen & Harr & Htake & Hb & Hp1 & Hp2 & Hv & Hbc & Hfin).
    exists tr, arr, sa, sb, v, vals. split_and!; try done.
    + intros i Hi. apply Harr. intros k' l' Hk' Hl'. apply (Hi (S k') l'); [lia|done].
    + intros j i Hj Hi. apply (Hfin j i Hj).
      intros k' l' Hk' Hl'. apply (Hi (S k') l'); [lia|done].
  - inv_bind Hrun. inv_bind Hrun as sub_act w1 Hsub.
    inv_bind Hrun as sub_batch w1 Hbatch. inv_bind Hrun as v w1 Hcall.
    inv_bind Hrun. inv_bind Hrun as arr1 w1 Hset.
    apply bind_inv_Return in Hrun as (? & w2 & Hw2 & Hrun).
    unfold set_ndarray in Hw2. injection Hw2 as _ <-.
    simpl in Hset.
    apply set_index_Return in Hset as (vals & Hbc & Hlt & ->).
    set (index0 := nonzero_eq (obs_agent_id batch) (agent_id w policy)) in *.
    destruct k as [|k]; simpl in Hk.
    + simplify_eq. intros index Hne.
      apply exploration_noise_loop_spec in Hrun as ((evs & Htr & _) & _ & _ & Hout & _).
      simpl in Hout, Htr. rewrite decide_True in Hout by done.
      exists (trace w), (ndarray w act), sub_act, sub_batch, v, vals.
      split_and!; [done|done|done|done|done| |done|done|].
      * rewrite Htr. by apply prefix_app_r.
      * intros j i Hj Hi. rewrite Hout.
        { apply write_all_lookup; [apply NoDup_nonzero_eq| |done..].
          by apply broadcast_to_length in Hbc. }
        intros l' [k' Hk']%list_elem_of_lookup_1. apply (Hi (S k') l'); [lia|done].
    + intros index Hne.
      pose proof Hrun as (_ & _ & Hpre)%same_registry_exploration_noise_loop.
      destruct (IH _ Hrun k l Hk Hne)
        as (tr & arr & sa & sb & v' & vals' & Hlen & Harr & Htake & Hb & Hp1 & Hp2 & Hv & Hbc' & Hfin).
      simpl in *. rewrite decide_True in Hlen, Harr by done.
      exists tr, arr, sa, sb, v', vals'. split_and!; try done.
      * by rewrite Hlen, length_write_all.
      * intros i Hi. rewrite Harr.
        { apply write_all_lookup_notin. apply (Hi 0%nat policy); [lia|done]. }
        intros k' l' Hk' Hl'. apply (Hi (S k') l'); [lia|done].
      * etrans; [|exact Hp1]. by apply prefix_app_r.
      * intros j i Hj Hi. apply (Hfin j i Hj).
        intros k' l' Hk' Hl'. apply (Hi (S k') l'); [lia|done].
Qed.

(** C9: [exploration_noise] returns the very array it was given,
    changed in place, and touches no other array.  Every registry slot
    whose policy has a non-empty partition is handed the actions (as the
    earlier slots left them: the caller's values at every position no
    earlier slot has in its partition) and the transitions at its
    positions, and what its policy returns is written back to those same
    positions, where it stays unless a later slot has the position in its
    partition too; policies with an empty partition are not called;
    every position in no partition keeps its value. *)
Theorem exploration_noise_in_place act batch w r w' :
  exploration_noise P act batch w = (Return r, w') →
  r = act ∧
  (∀ r', r' ≠ act → ndarray w' r' = ndarray w r') ∧
  length (ndarray w' act) = length (ndarray w act) ∧
  ∃ evs, trace w' = trace w ++ evs ∧
    (∀ i : nat,
       (∀ l, l ∈ policies w → i ∉ nonzero_eq (obs_agent_id batch) (agent_id w l)) →
       ndarray w' act !! i = ndarray w act !! i) ∧
    ∀ (k : nat) l, policies w !! k = Some l →
      let index := nonzero_eq (obs_agent_id batch) (agent_id w l) in
      (index = [] → ∀ e, e ∈ evs → callee e ≠ l) ∧
      (index ≠ [] →
       ∃ tr arr sub_act sub_batch v vals,
         length arr = length (ndarray w act) ∧
         (∀ i : nat,
            (∀ (k' : nat) l', (k' < k)%nat → policies w !! k' = Some l' →
               i ∉ nonzero_eq (obs_agent_id batch) (agent_id w l')) →
            arr !! i = ndarray w act !! i) ∧
         take_index arr index = Some sub_act ∧
         batch_getitem batch index = Some sub_batch ∧
         trace w `prefix_of` tr ∧
         (tr ++ [CallNoise l sub_act sub_batch]) `prefix_of` trace w' ∧
         policy_exploration_noise P tr l sub_act sub_batch = Return v ∧
         broadcast_to (length index) v = Some vals ∧
         ∀ (j i : nat), index !! j = Some i →
           (∀ (k' : nat) l', (k < k')%nat → policies w !! k' = Some l' →
              i ∉ nonzero_eq (obs_agent_id batch) (agent_id w l')) →
           ndarray w' act !! i = vals !! j).
Proof.
  intros Hrun. unfold exploration_noise in Hrun.
  inv_bind Hrun. inv_bind Hrun as u w1 Hloop. apply ret_Return in Hrun as [-> ->].
  pose proof (exploration_noise_loop_slots _ _ _ _ _ _ Hloop) as Hslots.
  apply exploration_noise_loop_spec in Hloop
    as ((evs & Htr & Hev) & Hother & Hlen & Hout & _).
  split_and!; [done..|]. exists evs. split_and!; [done..|].
  intros k l Hk index. split.
  - intros Hnil e He <-. destruct (Hev e He) as [_ Hne]. done.
  - by apply Hslots.
Qed.

(** ** forward *)

Lemma slot_ok_mono batch state w0 w1 w2 w' l s :
  agent_id w1 = agent_id w0 →
  trace w0 `prefix_of` trace w1 → trace w2 `prefix_of` trace w' →
  slot_ok P batch state w1 w2 l s → slot_ok P batch state w0 w' l s.
Proof.
  intros Ha H01 H2'. unfold slot_ok. rewrite Ha. destruct s; [done|].
  intros (?&?&?&?& tr & sub & prior & ?&?&?&?&?).
  split_and!; try done. exists tr, sub, prior. rewrite <-Ha.
  split_and!; try done; by etrans.
Qed.

Lemma forward_loop_slots batch state ps results w rs w' :
  forward_loop P batch state ps results w = (Return rs, w') →
  ∃ slots, rs = results ++ slots ∧ Forall2 (slot_ok P batch state w w') ps slots.
Proof.
  revert results w. induction ps as [|policy ps IH]; intros results w Hrun.
  - simpl in Hrun. apply ret_Return in Hrun as [-> ->].
    exists []. by rewrite app_nil_r.
  - simpl in Hrun. inv_bind Hrun. case_decide as Hidx.
    + apply IH in Hrun as (slots & -> & HF).
      exists (NoData :: slots). rewrite <-app_assoc. split; [done|].
      constructor; [|done]. simpl. by apply nil_length_inv.
    + inv_bind Hrun as tb w1 Htb. inv_bind Hrun as sub w1 Hsub.
      assert (w1 = w ∧ agent_view (Exc:=Exc) batch (agent_id w policy) = Return sub)
        as [-> Hview].
      { unfold agent_view. rewrite Htb. destruct (is_ndarray (rew tb)).
        - inv_bind Hsub as r w2 Hr. apply ret_Return in Hsub as [-> ->].
          by rewrite Hr.
        - by apply ret_Return in Hsub as [-> ->]. }
      inv_bind Hrun as prior w1 Hprior.
      assert (w1 = w ∧ prior_state (Exc:=Exc) state (agent_id w policy) = Return prior)
        as [-> Hst].
      { unfold prior_state. destruct state as [sd|].
        - inv_bind Hprior as s w2 Hs. apply ret_Return in Hprior as [-> ->].
          by rewrite Hs.
        - by apply ret_Return in Hprior as [-> ->]. }
      inv_bind Hrun as out w1 Hcall.
      pose proof Hrun as Hpre.
      apply same_registry_forward_loop in Hpre as (_ & Hid & Hpre).
      apply IH in Hrun as (slots & -> & HF).
      eexists (_ :: slots). rewrite <-app_assoc. split; [done|].
      constructor.
      * simpl. split_and!; [done| |done|done|].
        { intros Hnil. by rewrite Hnil in Hidx. }
        by exists (trace w), sub, prior.
      * eapply Forall2_impl; [done|]. intros l s. simpl.
        apply slot_ok_mono; [done| |done]. by apply prefix_app_r.
Qed.

Lemma broadcast_to_nil {A} : broadcast_to 0 (@nil A) = Some [].
Proof. done. Qed.

Lemma forward_merge_spec zs (h h' : Holder) w w' :
  forward_merge zs h w = (Return (Exc:=Exc) h', w') →
  w' = w ∧
  length (holder_act h') = length (holder_act h) ∧
  (∀ p s, (p, s) ∈ zs →
     ∃ vals, broadcast_to (length (slot_index s)) (slot_acts s) = Some vals ∧
             Forall (λ i, (i < length (holder_act h))%nat) (slot_index s)) ∧
  (∀ i : nat, (∀ p s, (p, s) ∈ zs → i ∉ slot_index s) →
     holder_act h' !! i = holder_act h !! i) ∧
  (∀ (k : nat) p s, zs !! k = Some (p, s) → NoDup (slot_index s) →
     (∀ (k' : nat) p' s', (k < k')%nat → zs !! k' = Some (p', s') →
        ∀ i, i ∈ slot_index s → i ∉ slot_index s') →
     ∃ vals, broadcast_to (length (slot_index s)) (slot_acts s) = Some vals ∧
       ∀ (j i : nat), slot_index s !! j = Some i → holder_act h' !! i = vals !! j).
Proof.
  revert h w. induction zs as [|[policy slot] zs IH]; intros h w Hrun.
  - simpl in Hrun. apply ret_Return in Hrun as [-> ->].
    split_and!; [done|done|by intros ?? ?%elem_of_nil|done|done].
  - simpl in Hrun. inv_bind Hrun as acts w1 Hacts.
    assert (w1 = w ∧ ∃ vals,
              broadcast_to (length (slot_index slot)) (slot_acts slot) = Some vals ∧
              Forall (λ i, (i < length (holder_act h))%nat) (slot_index slot) ∧
              acts = write_all (holder_act h) (slot_index slot) vals)
      as (-> & vals & Hbc & Hlt & ->).
    { destruct slot as [|index out act st]; simpl in *.
      - apply ret_Return in Hacts as [-> ->]. split; [done|]. by exists [].
      - apply lift_Return in Hacts as [Hacts ->]. split; [done|].
        by apply set_index_Return in Hacts. }
    inv_bind Hrun.
    apply IH in Hrun as (-> & Hlen & Hall & Hout & Hmine). simpl in *.
    rewrite length_write_all in Hlen, Hall.
    split_and!; [done|done|..].
    + intros p s [[= -> ->]|Hin]%elem_of_cons; [by exists vals|by eapply Hall].
    + intros i Hi. rewrite Hout.
      { apply write_all_lookup_notin. eapply Hi. by left. }
      intros p s Hin. eapply Hi. by right.
    + intros [|k] p s Hk Hnd Hlater; simpl in Hk.
      * simplify_eq. exists vals. split; [done|]. intros j i Hj. rewrite Hout.
        { apply write_all_lookup; [done| |done|done].
          by apply broadcast_to_length in Hbc. }
        intros p' s' [k' Hk']%list_elem_of_lookup_1.
        eapply (Hlater (S k')); [lia|done|]. by eapply list_elem_of_lookup_2.
      * eapply Hmine; [done..|]. intros k' p' s' Hkk' Hk'.
        apply (Hlater (S k') p' s'); [lia|done].
Qed.

(** *** Counting positions *)

Lemma NoDup_mjoin_partitions tags (ids : list Z) :
  NoDup ids → NoDup (mjoin (nonzero_eq tags <$> ids)).
Proof.
  induction 1 as [|a ids Hnotin Hnd IH]; simpl; [constructor|].
  apply NoDup_app. split_and!; [apply NoDup_nonzero_eq| |done].
  intros i Hi (index & Hin & (b & -> & Hb)%list_elem_of_fmap_1)%list_elem_of_join.
  eapply nonzero_eq_disjoint; [|exact Hi|exact Hin]. by intros ->.
Qed.

Lemma NoDup_below_length (xs : list nat) (n : nat) :
  NoDup xs → (∀ x, x ∈ xs → (x < n)%nat) → (length xs ≤ n)%nat.
Proof.
  intros Hnd Hlt. transitivity (length (seq 0 n)); [|by rewrite length_seq].
  apply submseteq_length, NoDup_submseteq; [done|].
  intros x Hx. apply elem_of_seq. specialize (Hlt x Hx). lia.
Qed.

Lemma NoDup_below_full (xs : list nat) (n : nat) :
  NoDup xs → (∀ x, x ∈ xs → (x < n)%nat) → (n ≤ length xs)%nat →
  ∀ i, (i < n)%nat → i ∈ xs.
Proof.
  intros Hnd Hlt Hlen i Hi.
  assert (xs ⊆+ seq 0 n) as Hsub.
  { apply NoDup_submseteq; [done|].
    intros x Hx. apply elem_of_seq. specialize (Hlt x Hx). lia. }
  apply submseteq_length_Permutation in Hsub; [|by rewrite length_seq].
  rewrite Hsub. apply elem_of_seq. lia.
Qed.

Lemma mjoin_lengths_eq {A B} (xss : list (list A)) (yss : list (list B)) :
  Forall2 (λ xs ys, (length xs ≤ length ys)%nat) xss yss →
  (length (mjoin yss) ≤ length (mjoin xss))%nat →
  Forall2 (λ xs ys, length xs = length ys) xss yss.
Proof.
  assert (∀ (xss : list (list A)) (yss : list (list B)),
            Forall2 (λ xs ys, (length xs ≤ length ys)%nat) xss yss →
            (length (mjoin xss) ≤ length (mjoin yss))%nat) as Hle.
  { induction 1; simpl; [done|]. rewrite !length_app. lia. }
  induction 1 as [|xs ys xss yss Hxy HF IH]; simpl; [constructor|].
  rewrite !length_app. intros Hlen. specialize (Hle _ _ HF).
  constructor; [lia|]. apply IH. lia.
Qed.

Lemma join_lengths_le {A B} (xss : list (list A)) (yss : list (list B)) :
  Forall2 (λ xs ys, (length xs ≤ length ys)%nat) xss yss →
  (length (mjoin xss) ≤ length (mjoin yss))%nat.
Proof. induction 1; simpl; [done|]. rewrite !length_app. lia. Qed.

Lemma slots_index_partitions batch state w w1 ps (slots : list Slot) :
  Forall2 (slot_ok P batch state w w1) ps slots →
  slot_index <$> slots = (λ l, nonzero_eq (obs_agent_id batch) (agent_id w l)) <$> ps.
Proof.
  induction 1 as [|l s ps slots Hs _ IH]; simpl; [done|]. f_equal; [|done].
  destruct s; simpl in *; [done|]. by destruct Hs as [-> _].
Qed.

Lemma cat_act_slot_acts (slots : list Slot) :
  cat_act slots = mjoin (slot_acts <$> slots).
Proof.
  unfold cat_act. induction slots as [|[|] slots IH]; simpl; [done|done|].
  by f_equal.
Qed.

Lemma partitions_registered_ids w batch :
  partitions w batch = nonzero_eq (obs_agent_id batch) <$> registered_ids w.
Proof. unfold partitions, registered_ids. by rewrite <-list_fmap_compose. Qed.

Lemma elem_of_partitions w batch (i : nat) :
  i ∈ mjoin (partitions w batch) ↔
  ∃ l, l ∈ policies w ∧ obs_agent_id batch !! i = Some (agent_id w l).
Proof.
  rewrite list_elem_of_join. unfold partitions. split.
  - intros (index & Hi & (l & -> & Hl)%list_elem_of_fmap_1).
    exists l. split; [done|]. by apply elem_of_nonzero_eq.
  - intros (l & Hl & Hi). eexists. split; [by apply elem_of_nonzero_eq|].
    by apply (list_elem_of_fmap_2 (λ l, nonzero_eq _ (agent_id w l))).
Qed.

(** The action path on a registry with pairwise distinct agent ids: when
    it returns, the merged container has one position per matched
    transition, every matched position is within it, and every policy
    with data returned one action per transition of its partition, which
    ended up at that transition's position. *)
Lemma forward_general batch state w (h : Holder) w' :
  NoDup (registered_ids w) →
  forward P batch state w = (Return h, w') →
  length (holder_act h) = length (mjoin (partitions w batch)) ∧
  (∀ i, i ∈ mjoin (partitions w batch) → (i < length (holder_act h))%nat) ∧
  ∀ l, l ∈ policies w →
    let index := nonzero_eq (obs_agent_id batch) (agent_id w l) in
    index ≠ [] →
    ∃ out, forward_call P batch state w w' l out ∧
           length (out_act out) = length index ∧
           ∀ (j i : nat), index !! j = Some i →
                          holder_act h !! i = out_act out !! j.
Proof.
  intros Hnd Hrun. unfold forward in Hrun.
  inv_bind Hrun. inv_bind Hrun as slots w1 Hloop. inv_bind Hrun.
  pose proof Hloop as Hreg.
  apply same_registry_forward_loop in Hreg as (Hps & Hids & _).
  apply forward_loop_slots in Hloop as (slots' & -> & HF). simpl in *.
  rewrite Hps in Hrun.
  apply forward_merge_spec in Hrun as (-> & Hlen & Hall & Hout & Hmine).
  simpl in *.
  set (L := length (cat_act slots')) in *.
  pose proof (Forall2_length _ _ _ HF) as Hsame.
  pose proof (slots_index_partitions _ _ _ _ _ _ HF) as Hparts.
  change (_ <$> policies w) with (partitions w batch) in Hparts.
  (* every slot is in the zipped list *)
  assert (∀ (k : nat) s, slots' !! k = Some s →
            ∃ l, policies w !! k = Some l ∧ slot_ok P batch state w w1 l s ∧
                 zip (policies w) slots' !! k = Some (l, s)) as Hslot.
  { intros k s Hk. destruct (Forall2_lookup_r _ _ _ _ _ HF Hk) as (l & Hl & Hok).
    exists l. split_and!; [done..|]. apply lookup_zip_with_Some. eauto. }
  (* bounds *)
  assert (∀ i, i ∈ mjoin (partitions w batch) → (i < L)%nat) as Hbound.
  { intros i. rewrite <-Hparts.
    intros (index & Hi & (s & -> & [k Hk]%list_elem_of_lookup_1)%list_elem_of_fmap_1)
             %list_elem_of_join.
    destruct (Hslot k s Hk) as (l & _ & _ & Hz).
    apply list_elem_of_lookup_2 in Hz.
    destruct (Hall l s Hz) as (_ & _ & Hlt).
    rewrite Forall_forall in Hlt. by apply Hlt. }
  assert (NoDup (mjoin (partitions w batch))) as Hnd'.
  { rewrite partitions_registered_ids. by apply NoDup_mjoin_partitions. }
  (* no policy returned more actions than it has transitions *)
  assert (Forall2 (λ acts index, (length acts ≤ length index)%nat)
            (slot_acts <$> slots') (slot_index <$> slots')) as Hle.
  { apply Forall2_fmap, Forall2_same_length_lookup_2; [done|].
    intros k s s' Hk Hk'. simplify_eq.
    destruct (Hslot k s Hk) as (l & _ & Hok & Hz).
    apply list_elem_of_lookup_2 in Hz.
    destruct (Hall l s Hz) as (vals & Hbc & _).
    destruct s as [|index out act st]; simpl in *; [done|].
    destruct Hok as (-> & Hne & _).
    unfold broadcast_to in Hbc. case_decide as Hl; [lia|].
    destruct act as [|x [|??]]; simplify_eq. simpl.
    destruct (nonzero_eq (obs_agent_id batch) (agent_id w l)); [done|simpl; lia]. }
  assert (L = length (mjoin (partitions w batch))) as HL.
  { apply (anti_symm le).
    - unfold L. rewrite cat_act_slot_acts, <-Hparts. by apply join_lengths_le.
    - by apply NoDup_below_length. }
  split_and!; [congruence|by intros i Hi; rewrite Hlen; apply Hbound|].
  apply mjoin_lengths_eq in Hle;
    [|by rewrite <-cat_act_slot_acts, Hparts; fold L; lia].
  intros l [k Hk]%list_elem_of_lookup_1; cbv zeta; intros Hne.
  destruct (Forall2_lookup_l _ _ _ _ _ HF Hk) as (s & Hs & Hok).
  destruct s as [|index out act st]; simpl in Hok; [by destruct Hne|].
  destruct Hok as (-> & _ & -> & -> & Hcall).
  exists out. split; [done|].
  assert (length (out_act out) = length (nonzero_eq (obs_agent_id batch) (agent_id w l))) as Hlen'.
  { eapply (Forall2_lookup_lr _ _ _ k) in Hle; [exact Hle|..];
      by rewrite list_lookup_fmap, Hs. }
  split; [done|].
  destruct (Hmine k l _ ltac:(apply lookup_zip_with_Some; eauto)) as (vals & Hbc & Hvals).
  { apply NoDup_nonzero_eq. }
  { intros k' p' s' Hkk' (? & ? & [= <- <-] & Hp' & Hs')%lookup_zip_with_Some i Hi.
    destruct (Hslot k' s' Hs') as (l' & Hl' & Hok' & _).
    assert (l' = p') as -> by congruence.
    assert (slot_index s' = nonzero_eq (obs_agent_id batch) (agent_id w p')) as ->.
    { destruct s'; simpl in *; [done|]. by destruct Hok' as [-> _]. }
    eapply nonzero_eq_disjoint; [|exact Hi].
    intros Heq. apply (NoDup_lookup _ k k' (agent_id w l)) in Hnd; [lia|..];
      unfold registered_ids; rewrite list_lookup_fmap.
    - by rewrite Hk.
    - by rewrite Hl', Heq. }
  simpl in Hbc. unfold broadcast_to in Hbc. rewrite decide_True in Hbc by done.
  simplify_eq. done.
Qed.

Lemma partitions_cover_length w batch :
  NoDup (registered_ids w) →
  (∀ t, t ∈ obs_agent_id batch → t ∈ registered_ids w) →
  length (mjoin (partitions w batch)) = batch_len batch.
Proof.
  intros Hnd Hcov. unfold batch_len. apply (anti_symm le).
  - apply NoDup_below_length.
    + rewrite partitions_registered_ids. by apply NoDup_mjoin_partitions.
    + intros i (l & _ & Hi)%elem_of_partitions. by eapply lookup_lt_Some.
  - transitivity (length (seq 0 (length (obs_agent_id batch))));
      [by rewrite length_seq|].
    apply submseteq_length, NoDup_submseteq; [apply NoDup_seq|].
    intros i [_ Hi]%elem_of_seq. apply elem_of_partitions.
    destruct (lookup_lt_is_Some_2 (obs_agent_id batch) i) as [t Ht]; [lia|].
    pose proof (Hcov t (list_elem_of_lookup_2 _ _ _ Ht))
      as (l & -> & Hl)%list_elem_of_fmap_1.
    eauto.
Qed.

(** C1 (as amended): on a registry with pairwise distinct agent ids, for
    a batch in which every agent tag is the id of a registered policy,
    when [forward] returns, the action container it returns is as long
    as the batch, and for every
    registered policy and every position of its partition the value at
    that position is the action which that policy's own [forward], called
    on its slice of the batch with the prior state found under its
    agent key, returned for that transition (same relative order). *)
Theorem forward_positions batch state w (h : Holder) w' :
  NoDup (registered_ids w) →
  (∀ t, t ∈ obs_agent_id batch → t ∈ registered_ids w) →
  forward P batch state w = (Return h, w') →
  length (holder_act h) = batch_len batch ∧
  ∀ l, l ∈ policies w →
    let index := nonzero_eq (obs_agent_id batch) (agent_id w l) in
    index ≠ [] →
    ∃ out, forward_call P batch state w w' l out ∧
           length (out_act out) = length index ∧
           ∀ (j i : nat), index !! j = Some i →
                          holder_act h !! i = out_act out !! j.
Proof.
  intros Hnd Hcov Hrun.
  destruct (forward_general _ _ _ _ _ Hnd Hrun) as (Hlen & _ & Hpos).
  split; [|done]. rewrite Hlen. by apply partitions_cover_length.
Qed.

(** The second loop of [forward] makes no call; the only statement of it
    that can raise is the positional write [holder.act[agent_index] = act]:
    ValueError when the actions cannot be broadcast to the index,
    IndexError when the index is out of range. *)
Lemma forward_merge_Raise zs (h : Holder) w e w' :
  forward_merge zs h w = (Raise (Exc:=Exc) e, w') →
  w' = w ∧ (e = IndexError ∨ e = ValueError) ∧
  ((∀ p s, (p, s) ∈ zs → length (slot_acts s) = length (slot_index s)) →
   e = IndexError).
Proof.
  revert h w. induction zs as [|[policy slot] zs IH]; intros h w Hrun;
    simpl in Hrun; [discriminate Hrun|].
  apply bind_inv in Hrun as [(acts & w1 & Hacts & Hrun)|(e' & Hacts & Heq)].
  - assert (w1 = w) as ->.
    { destruct slot; [by apply ret_Return in Hacts as [_ ->]|].
      by apply lift_Return in Hacts as [_ ->]. }
    apply bind_inv in Hrun as [(a & w1 & Ha & Hrun)|(e' & Ha & _)];
      [|discriminate Ha].
    injection Ha as <- <-.
    apply IH in Hrun as (-> & He & Hix). split_and!; [done..|].
    intros Hall. apply Hix. intros p s Hin. apply (Hall p s). by right.
  - injection Heq as <-.
    destruct slot as [|index out act st]; [discriminate Hacts|].
    unfold lift in Hacts. injection Hacts as Hset <-. split; [done|].
    unfold set_index in Hset.
    destruct (broadcast_to (length index) act) as [vals|] eqn:Hbc.
    + case_decide; [discriminate Hset|]. injection Hset as <-.
      split; [by left|done].
    + injection Hset as <-. split; [by right|]. intros Hall.
      specialize (Hall policy (HasData index out act st)). simpl in Hall.
      unfold broadcast_to in Hbc. rewrite decide_True in Hbc; [done|].
      apply Hall. by left.
Qed.

(** C4 (as amended): on a registry with pairwise distinct agent ids, a
    transition whose agent tag is no registered policy's id is in no
    policy's partition; the merged action container holds the matched
    transitions only, so when [forward] returns, the container ends at or
    before that transition's position (it has no slot there and is
    shorter than the batch); and when a matched transition comes after
    it in the batch, [forward] does not return, it raises: if every
    sub-policy call returned, it is the positional write
    [holder.act[agent_index] = act] that raises, IndexError or
    ValueError, and IndexError (the index is out of range) when every
    sub-policy returned one action per transition of its partition. *)
Theorem forward_unmatched batch state w (i0 : nat) t :
  NoDup (registered_ids w) →
  obs_agent_id batch !! i0 = Some t →
  t ∉ registered_ids w →
  (∀ l, l ∈ policies w → i0 ∉ nonzero_eq (obs_agent_id batch) (agent_id w l)) ∧
  (∀ (h : Holder) w', forward P batch state w = (Return h, w') →
     holder_act h !! i0 = None ∧
     (length (holder_act h) < batch_len batch)%nat) ∧
  (∀ (j : nat) l, (i0 < j)%nat → l ∈ policies w →
     obs_agent_id batch !! j = Some (agent_id w l) →
     ∃ e w', forward P batch state w = (Raise e, w') ∧
       ∀ (slots : list Slot) w1,
         forward_loop P batch state (policies w) [] w = (Return slots, w1) →
         w' = w1 ∧
         forward_merge (zip (policies w) slots) (mkHolder (cat_act slots) ∅ ∅) w1
           = (Raise e, w1) ∧
         (e = IndexError ∨ e = ValueError) ∧
         (Forall (λ s, length (slot_acts s) = length (slot_index s)) slots →
          e = IndexError)).
Proof.
  intros Hnd Hi0 Ht.
  assert (i0 ∉ mjoin (partitions w batch)) as Hnotin.
  { intros (l & Hl & Hi)%elem_of_partitions. apply Ht.
    rewrite Hi0 in Hi. injection Hi as ->. by apply list_elem_of_fmap_2. }
  assert (∀ (h : Holder) w', forward P batch state w = (Return h, w') →
            (length (holder_act h) ≤ i0)%nat) as Hshort.
  { intros h w' Hrun.
    destruct (forward_general _ _ _ _ _ Hnd Hrun) as (Hlen & Hbound & _).
    destruct (decide (i0 < length (holder_act h))%nat) as [Hlt|]; [|lia].
    destruct Hnotin.
    apply (NoDup_below_full _ (length (holder_act h))); [|done|lia|done].
    rewrite partitions_registered_ids. by apply NoDup_mjoin_partitions. }
  split_and!.
  - intros l Hl Hi. apply Hnotin, elem_of_partitions.
    exists l. split; [done|]. by apply elem_of_nonzero_eq.
  - intros h w' Hrun. specialize (Hshort h w' Hrun). split.
    + by apply lookup_ge_None.
    + apply lookup_lt_Some in Hi0. unfold batch_len. lia.
  - intros j l Hj Hl Htag.
    destruct (forward P batch state w) as [[h|e] w'] eqn:Hrun.
    { specialize (Hshort h w' eq_refl).
      destruct (forward_general _ _ _ _ _ Hnd Hrun) as (_ & Hbound & _).
      assert (j < length (holder_act h))%nat; [|lia].
      apply Hbound, elem_of_partitions. eauto. }
    exists e, w'. split; [done|]. intros slots w1 Hloop.
    pose proof Hloop as (Hps & _ & _)%same_registry_forward_loop.
    unfold forward in Hrun.
    apply bind_inv in Hrun as [(ps & w0 & Hps0 & Hrun)|(e' & Hps0 & _)];
      [injection Hps0 as <- <-|discriminate Hps0].
    apply bind_inv in Hrun as [(slots' & w1' & Hloop' & Hrun)|(e' & Hloop' & _)];
      rewrite Hloop in Hloop'; [injection Hloop' as <- <-|discriminate Hloop'].
    apply bind_inv in Hrun as [(ps & w2 & Hps1 & Hrun)|(e' & Hps1 & _)];
      [injection Hps1 as <- <-|discriminate Hps1].
    rewrite Hps in Hrun.
    pose proof Hrun as (-> & He & Hix)%forward_merge_Raise.
    split_and!; [done..|]. intros Hall. apply Hix.
    intros p s Hs%elem_of_zip_r. rewrite Forall_forall in Hall. auto.
Qed.


(** ** Runs that do return *)

Lemma bind_run {A B} (c : M A) (k : A → M B) w x w1 :
  c w = (Return x, w1) → (c ≫= k) w = k x w1.
Proof. intros H. unfold mbind, M_bind, bind. by rewrite H. Qed.

Lemma take_index_Some {A} (arr : list A) index :
  Forall (λ i, (i < length arr)%nat) index →
  ∃ sub, take_index arr index = Some sub ∧ length sub = length index ∧
         ∀ x, x ∈ sub → x ∈ arr.
Proof.
  unfold take_index. induction 1 as [|i index Hi _ (sub & IH & Hlen & Hin)]; simpl.
  - exists []. split_and!; [done..|]. by intros ? ?%elem_of_nil.
  - destruct (lookup_lt_is_Some_2 arr i Hi) as [y Hy]. rewrite Hy, IH. simpl.
    exists (y :: sub). split_and!; [done|simpl; lia|].
    intros x [->|Hx]%elem_of_cons; [by eapply list_elem_of_lookup_2|by apply Hin].
Qed.

Lemma nonzero_eq_Forall_lt tags a (n : nat) :
  (length tags ≤ n)%nat → Forall (λ i, (i < n)%nat) (nonzero_eq tags a).
Proof.
  intros Hn. apply Forall_forall. intros i Hi%nonzero_eq_lt. lia.
Qed.

Lemma rew_column_Return (n : nat) (rws : list (list RewV)) k :
  Forall (λ row, length row = n) rws → - Z.of_nat n ≤ k < Z.of_nat n →
  ∃ col, rew_column (Exc:=Exc) (Mat n rws) k = Return (Vec col).
Proof.
  intros Hrows Hk. unfold rew_column. rewrite decide_True by done.
  assert (Z.to_nat (k `mod` Z.of_nat n) < n)%nat as Hj.
  { pose proof (Z.mod_pos_bound k (Z.of_nat n)). lia. }
  induction Hrows as [|row rws Hrow _ IH]; simpl; [eauto|].
  destruct (lookup_lt_is_Some_2 row (Z.to_nat (k `mod` Z.of_nat n))) as [y Hy]; [lia|].
  rewrite Hy. simpl. destruct IH as [col IH].
  destruct (mapM _ rws); [|done]. simpl. eauto.
Qed.

(** The slice of a well-formed batch at a partition exists and is
    well-formed; the matrix keeps its columns. *)
Lemma batch_getitem_Some (b : Batch) a :
  batch_wf b →
  ∃ tb, batch_getitem b (nonzero_eq (obs_agent_id b) a) = Some tb ∧
        batch_len tb = length (nonzero_eq (obs_agent_id b) a) ∧
        match rew b with
        | EmptyBatch => rew tb = EmptyBatch
        | Vec _ => ∃ v, rew tb = Vec v
        | Mat n _ => ∃ rws, rew tb = Mat n rws ∧ Forall (λ row, length row = n) rws
        end.
Proof.
  intros [Hrows Hrew]. unfold batch_getitem, batch_len in *.
  set (index := nonzero_eq (obs_agent_id b) a).
  destruct (take_index_Some (obs_agent_id b) index) as (ids & -> & Hids & _).
  { by apply nonzero_eq_Forall_lt. }
  destruct (take_index_Some (rows b) index) as (rs & Hrs & _ & _).
  { apply nonzero_eq_Forall_lt. lia. }
  simpl. destruct (rew b) as [|v|n rws]; simpl in *.
  - rewrite Hrs. simpl. eauto.
  - destruct (take_index_Some v index) as (v' & -> & _ & _).
    { apply nonzero_eq_Forall_lt. lia. }
    simpl. rewrite Hrs. simpl. eauto.
  - destruct Hrew as [Hlen Hall].
    destruct (take_index_Some rws index) as (rws' & -> & _ & Hsub).
    { apply nonzero_eq_Forall_lt. lia. }
    simpl. rewrite Hrs. simpl. eexists. split_and!; [done..|].
    exists rws'. split; [done|]. rewrite Forall_forall in Hall |- *. auto.
Qed.

Lemma agent_view_Return (b : Batch) a :
  batch_wf b →
  rew b = EmptyBatch ∨ has_column (rew b) a →
  ∃ sub, agent_view (Exc:=Exc) b a = Return sub ∧
         batch_len sub = length (nonzero_eq (obs_agent_id b) a).
Proof.
  intros Hwf Hcol. unfold agent_view.
  destruct (batch_getitem_Some b a Hwf) as (tb & -> & Hlen & Hrew).
  destruct Hcol as [Hempty|Hcol].
  - rewrite Hempty in Hrew. rewrite Hrew. simpl. eauto.
  - destruct (rew b) as [| |n rws]; simpl in Hcol; try done.
    destruct Hrew as (rws' & -> & Hall).
    destruct (rew_column_Return n rws' (a - 1) Hall Hcol) as [col ->].
    eexists. split; [done|]. done.
Qed.

Lemma agent_view_len (b sub : Batch) a :
  agent_view (Exc:=Exc) b a = Return sub →
  batch_len sub = length (nonzero_eq (obs_agent_id b) a).
Proof.
  unfold agent_view, batch_getitem.
  destruct (take_index (obs_agent_id b) _) as [ids|] eqn:Hids; simpl; [|done].
  destruct (rew_take _ _) as [r|]; simpl; [|done].
  destruct (take_index (rows b) _) as [rs|]; simpl; [|done].
  apply take_index_lookup in Hids as [Hlen _].
  destruct (is_ndarray r).
  - destruct (rew_column r (a - 1)); intros [= <-]. done.
  - intros [= <-]. done.
Qed.

Lemma agent_view_steps (b sub : Batch) a w :
  agent_view (Exc:=Exc) b a = Return sub →
  ∃ tb, batch_getitem b (nonzero_eq (obs_agent_id b) a) = Some tb ∧
        ((if is_ndarray (rew tb) then
            r ← lift (rew_column (rew tb) (a - 1)); ret (set_rew tb r)
          else ret tb) : M Batch) w = (Return sub, w).
Proof.
  unfold agent_view. destruct (batch_getitem _ _) as [tb|]; [|done].
  intros Hview. exists tb. split; [done|].
  destruct (is_ndarray (rew tb)); [|by simplify_eq].
  destruct (rew_column (rew tb) (a - 1)) as [r|e] eqn:Hr; [|done].
  simplify_eq. by erewrite bind_run by reflexivity.
Qed.

Lemma forward_loop_returns batch state ps (results : list Slot) w :
  forward_total P → batch_wf batch →
  (∀ l, l ∈ ps →
     nonzero_eq (obs_agent_id batch) (agent_id w l) ≠ [] →
     (rew batch = EmptyBatch ∨ has_column (rew batch) (agent_id w l)) ∧
     match state with
     | None => True
     | Some sd => is_Some (sd !! agent_key (agent_id w l))
     end) →
  ∃ rs w', forward_loop P batch state ps results w = (Return rs, w').
Proof.
  intros Htotal Hwf. revert results w.
  induction ps as [|policy ps IH]; intros results w Hready; simpl; [by eexists _, _|].
  erewrite bind_run by reflexivity. case_decide as Hidx.
  { apply IH. intros l Hl. apply Hready. by right. }
  destruct (Hready policy) as [Hcol Hstate]; [by left| |].
  { intros Hnil. by rewrite Hnil in Hidx. }
  destruct (agent_view_Return batch (agent_id w policy) Hwf Hcol) as (sub & Hview & _).
  destruct (agent_view_steps _ _ _ w Hview) as (tb & Htb & Hsub).
  rewrite Htb. erewrite bind_run by reflexivity.
  erewrite bind_run by exact Hsub.
  assert (∃ prior,
            (match state with
             | None => ret None
             | Some sd => s ← key_or_raise (sd !! agent_key (agent_id w policy));
                          ret (Some s)
             end : M (option HState)) w = (Return prior, w)) as [prior Hprior].
  { destruct state as [sd|]; [|by eexists].
    destruct Hstate as [s Hs]. rewrite Hs. by eexists. }
  erewrite bind_run by exact Hprior.
  destruct (Htotal (trace w) policy sub prior) as (out & Hout & _).
  erewrite bind_run by (unfold call_forward; rewrite Hout; reflexivity).
  apply IH. intros l Hl. apply Hready. by right.
Qed.

Lemma forward_merge_returns zs (h : Holder) w :
  (∀ p s, (p, s) ∈ zs →
     length (slot_acts s) = length (slot_index s) ∧
     Forall (λ i, (i < length (holder_act h))%nat) (slot_index s)) →
  ∃ h', forward_merge (Exc:=Exc) zs h w = (Return h', w).
Proof.
  revert h. induction zs as [|[policy slot] zs IH]; intros h Hall; simpl;
    [by eexists|].
  destruct (Hall policy slot) as [Hlen Hlt]; [by left|].
  assert (∃ acts,
            (match slot with
             | HasData agent_index _ act _ =>
                 lift (set_index (holder_act h) agent_index act)
             | NoData => ret (holder_act h)
             end : M (list Act)) w = (Return acts, w) ∧
            length acts = length (holder_act h)) as (acts & Hacts & Hlen').
  { destruct slot as [|index out act st]; simpl in *; [by eexists|].
    unfold lift, set_index, broadcast_to.
    rewrite decide_True by done. rewrite decide_True by done.
    eexists. split; [done|]. by rewrite length_write_all. }
  erewrite bind_run by exact Hacts. erewrite bind_run by reflexivity.
  apply IH. simpl. rewrite Hlen'. intros p s Hin. apply (Hall p s). by right.
Qed.

Lemma join_lengths_eq {A B} (xss : list (list A)) (yss : list (list B)) :
  Forall2 (λ xs ys, length xs = length ys) xss yss →
  length (mjoin xss) = length (mjoin yss).
Proof. induction 1; simpl; [done|]. rewrite !length_app. lia. Qed.

(** The action path returns: on a registry with pairwise distinct agent
    ids and a well-formed batch all of whose tags are registered, when
    the reward has every needed column, the state mapping every needed
    key, and the sub-policies answer with one action per transition. *)
Lemma forward_returns batch state w :
  NoDup (registered_ids w) →
  (∀ t, t ∈ obs_agent_id batch → t ∈ registered_ids w) →
  batch_wf batch → forward_ready batch state w → forward_total P →
  ∃ (h : Holder) w', forward P batch state w = (Return h, w').
Proof.
  intros Hnd Hcov Hwf Hready Htotal. unfold forward.
  erewrite bind_run by reflexivity.
  destruct (forward_loop_returns batch state (policies w) [] w Htotal Hwf Hready)
    as (slots & w1 & Hloop).
  erewrite bind_run by exact Hloop. erewrite bind_run by reflexivity.
  pose proof Hloop as Hreg.
  apply same_registry_forward_loop in Hreg as (Hps & Hids & _).
  apply forward_loop_slots in Hloop as (slots' & -> & HF). simpl in *.
  rewrite Hps.
  assert (Forall2 (λ acts index, length acts = length index)
            (slot_acts <$> slots') (slot_index <$> slots')) as Hlens.
  { apply Forall2_fmap, Forall2_same_length_lookup_2; [done|].
    intros k s s' Hk Hk'. simplify_eq.
    destruct (Forall2_lookup_r _ _ _ _ _ HF Hk) as (l & Hl & Hok).
    destruct s as [|index out act st]; simpl in *; [done|].
    destruct Hok as (-> & _ & -> & _ & tr & sub & prior & Hview & _ & _ & _ & Hout).
    destruct (Htotal tr l sub prior) as (out' & Hout' & Hlen).
    rewrite Hout in Hout'. injection Hout' as <-.
    rewrite Hlen. by eapply agent_view_len. }
  assert (length (cat_act slots') = batch_len batch) as HL.
  { rewrite cat_act_slot_acts, (join_lengths_eq _ _ Hlens).
    erewrite slots_index_partitions by done.
    by apply partitions_cover_length. }
  destruct (forward_merge_returns (zip (policies w) slots')
              (mkHolder (cat_act slots') ∅ ∅) w1) as [h' Hmerge]; [|eauto].
  simpl. intros p s [k Hk]%list_elem_of_lookup_1.
  apply lookup_zip_with_Some in Hk as (? & ? & [= <- <-] & Hp & Hs). split.
  - eapply (Forall2_lookup_lr _ _ _ k) in Hlens; [exact Hlens|..];
      by rewrite list_lookup_fmap, Hs.
  - destruct (Forall2_lookup_r _ _ _ _ _ HF Hs) as (l & Hl & Hok).
    assert (slot_index s = nonzero_eq (obs_agent_id batch) (agent_id w l)) as ->.
    { destruct s; simpl in *; [done|]. by destruct Hok as [-> _]. }
    rewrite HL. by apply nonzero_eq_Forall_lt.
Qed.

Lemma process_fn_loop_returns batch indices (has_rew : bool) save_rew ps
    (results : gmap string (option Data)) w :
  process_fn_total P → batch_wf batch →
  (batch_len batch ≤ length indices)%nat →
  (has_rew = true →
   (∃ len, rew_wf save_rew len) ∧
   ∀ l, l ∈ ps →
     nonzero_eq (obs_agent_id batch) (agent_id w l) ≠ [] →
     has_column (rew batch) (agent_id w l) ∧ has_column save_rew (agent_id w l)) →
  ∃ res w',
    process_fn_loop P batch indices has_rew save_rew ps results w = (Return res, w').
Proof.
  intros Htotal Hwf Hix. revert save_rew results w.
  induction ps as [|policy ps IH]; intros save_rew results w Hready; simpl;
    [by eexists _, _|].
  erewrite bind_run by reflexivity. case_decide as Hidx.
  { apply IH. intros Hrew. destruct (Hready Hrew) as [? Hall].
    split; [done|]. intros l Hl. apply Hall. by right. }
  assert (nonzero_eq (obs_agent_id batch) (agent_id w policy) ≠ []) as Hne.
  { intros Hnil. by rewrite Hnil in Hidx. }
  destruct (batch_getitem_Some batch (agent_id w policy) Hwf) as (tb & Htb & _ & Hrew).
  rewrite Htb. erewrite bind_run by reflexivity.
  destruct (take_index_Some indices (nonzero_eq (obs_agent_id batch) (agent_id w policy)))
    as (ti & Hti & _ & _).
  { apply nonzero_eq_Forall_lt. by unfold batch_len in Hix. }
  rewrite Hti. erewrite bind_run by reflexivity.
  assert (∃ tmp_batch w1,
            ((if has_rew then
                r ← lift (rew_column (rew tb) (agent_id w policy - 1));
                r_buf ← lift (rew_column save_rew (agent_id w policy - 1));
                _ ← set_buffer_rew r_buf;
                ret (set_rew tb r)
              else ret tb) : M Batch) w = (Return tmp_batch, w1) ∧
            agent_id w1 = agent_id w) as (tmp_batch & w1 & Hswap & Hid).
  { destruct has_rew; [|by eexists _, _].
    destruct (Hready eq_refl) as [[len Hsave] Hall].
    destruct (Hall policy) as [Hcol Hcol']; [by left|done|].
    destruct (rew batch) as [| |n rws]; simpl in Hcol; try done.
    destruct Hrew as (rws' & Hrew & Hrows).
    destruct (rew_column_Return n rws' _ Hrows Hcol) as [col Hc].
    destruct save_rew as [| |n' srws]; simpl in Hcol'; try done.
    destruct Hsave as [_ Hsrows].
    destruct (rew_column_Return n' srws _ Hsrows Hcol') as [col' Hc'].
    erewrite bind_run by (unfold lift; rewrite Hrew, Hc; reflexivity).
    erewrite bind_run by (unfold lift; rewrite Hc'; reflexivity).
    erewrite bind_run by reflexivity. by eexists _, _. }
  erewrite bind_run by exact Hswap.
  destruct (Htotal (trace w1) policy tmp_batch (buffer w1) ti) as (d & buf' & Hcall).
  erewrite bind_run by (unfold call_process_fn; rewrite Hcall; reflexivity).
  apply IH. simpl. rewrite Hid. intros Hrew'.
  destruct (Hready Hrew') as [[len Hlen] Hall].
  pose proof (saved_after_same_shape has_rew save_rew (agent_id w policy)
                (policy_process_fn_writes P (trace w1) policy tmp_batch (buffer w1) ti))
    as Hshape.
  split; [exists len; by eapply rew_same_shape_wf|].
  intros l Hl Hnel. destruct (Hall l) as [? ?]; [by right|done|].
  split; [done|]. by apply (rew_same_shape_has_column _ _ _ Hshape).
Qed.

(** The pre-learning path returns: on a well-formed batch with enough
    indices, when the buffer's reward is not an array, or is a
    well-formed matrix and both it and the batch's reward have the
    column of every policy with data, and the sub-policies' [process_fn]
    return. *)
Lemma process_fn_returns batch indices w :
  process_fn_total P → batch_wf batch →
  (batch_len batch ≤ length indices)%nat →
  (is_ndarray (meta_rew (buffer w)) = true →
   (∃ len, rew_wf (meta_rew (buffer w)) len) ∧
   ∀ l, l ∈ policies w →
     nonzero_eq (obs_agent_id batch) (agent_id w l) ≠ [] →
     has_column (rew batch) (agent_id w l) ∧
     has_column (meta_rew (buffer w)) (agent_id w l)) →
  ∃ res w', process_fn P batch indices w = (Return res, w').
Proof.
  intros Htotal Hwf Hix Hready.
  unfold process_fn. erewrite bind_run by reflexivity.
  set (has_rew := is_ndarray (meta_rew (buffer w))) in *.
  assert (∃ w0, ((if has_rew then set_buffer_rew EmptyBatch else ret ()) : M ()) w
                = (Return (), w0) ∧
                agent_id w0 = agent_id w ∧ policies w0 = policies w)
    as (w0 & Hw0 & Hid & Hps).
  { destruct has_rew; by eexists. }
  erewrite bind_run by exact Hw0. erewrite bind_run by reflexivity.
  destruct (process_fn_loop_returns batch indices has_rew (meta_rew (buffer w))
              (policies w0) ∅ w0 Htotal Hwf Hix) as ([res save'] & w1 & Hloop).
  { rewrite Hid, Hps. exact Hready. }
  erewrite bind_run by exact Hloop.
  destruct has_rew; by eexists _, _.
Qed.


Lemma exploration_noise_loop_returns act batch ps w :
  exploration_noise_total P → batch_wf batch →
  (batch_len batch ≤ length (ndarray w act))%nat →
  ∃ w', exploration_noise_loop P act batch ps w = (Return (), w').
Proof.
  intros Htotal Hwf. revert w.
  induction ps as [|policy ps IH]; intros w Hlen; simpl; [by eexists|].
  erewrite bind_run by reflexivity. case_decide as Hidx; [by apply IH|].
  erewrite bind_run by reflexivity.
  set (index := nonzero_eq (obs_agent_id batch) (agent_id w policy)).
  destruct (take_index_Some (ndarray w act) index) as (sub_act & Hsub & Hsublen & _).
  { apply nonzero_eq_Forall_lt. by unfold batch_len in Hlen. }
  rewrite Hsub. erewrite bind_run by reflexivity.
  destruct (batch_getitem_Some batch (agent_id w policy) Hwf) as (sub_batch & Hb & _).
  fold index in Hb. rewrite Hb. erewrite bind_run by reflexivity.
  destruct (Htotal (trace w) policy sub_act sub_batch) as (v & Hv & Hvlen).
  erewrite bind_run by (unfold call_exploration_noise; rewrite Hv; reflexivity).
  erewrite bind_run by reflexivity. simpl.
  assert (set_index (Exc:=Exc) (ndarray w act) index v
          = Return (write_all (ndarray w act) index v)) as Hset.
  { unfold set_index, broadcast_to. rewrite decide_True by congruence.
    rewrite decide_True; [done|].
    apply nonzero_eq_Forall_lt. by unfold batch_len in Hlen. }
  rewrite Hset. erewrite bind_run by reflexivity. erewrite bind_run by reflexivity.
  apply IH. simpl. rewrite decide_True by done. by rewrite length_write_all.
Qed.

(** The noise path returns the array it was given: on a well-formed
    batch and an action array with a position for every transition, when
    the sub-policies answer with as many actions as they were given. *)
Lemma exploration_noise_returns act batch w :
  exploration_noise_total P → batch_wf batch →
  (batch_len batch ≤ length (ndarray w act))%nat →
  ∃ w', exploration_noise P act batch w = (Return act, w').
Proof.
  intros Htotal Hwf Hlen. unfold exploration_noise.
  erewrite bind_run by reflexivity.
  destruct (exploration_noise_loop_returns act batch (policies w) w Htotal Hwf Hlen)
    as [w' Hloop].
  erewrite bind_run by exact Hloop. by eexists.
Qed.

Lemma learn_loop_returns (batch : gmap string (option Data)) ps
    (results : gmap string Metric) w :
  learn_total P →
  (∀ l, l ∈ ps → is_Some (batch !! agent_key (agent_id w l))) →
  ∃ res w', learn_loop P batch ps results w = (Return res, w').
Proof.
  intros Htotal. revert results w.
  induction ps as [|policy ps IH]; intros results w Hkeys; simpl; [by eexists _, _|].
  erewrite bind_run by reflexivity.
  destruct (Hkeys policy) as [data Hdata]; [by left|].
  rewrite Hdata. erewrite bind_run by reflexivity.
  destruct data as [d|].
  - destruct (Htotal (trace w) policy d) as [out Hout].
    erewrite bind_run by (unfold call_learn; rewrite Hout; reflexivity).
    apply IH. simpl. intros l Hl. apply Hkeys. by right.
  - apply IH. intros l Hl. apply Hkeys. by right.
Qed.

(** The learning path returns when the mapping has an entry for every
    registered policy (as the one [process_fn] produces has) and the
    sub-policies' [learn] return. *)
Lemma learn_returns (batch : gmap string (option Data)) w :
  learn_total P →
  (∀ l, l ∈ policies w → is_Some (batch !! agent_key (agent_id w l))) →
  ∃ res w', learn P batch w = (Return res, w').
Proof.
  intros Htotal Hkeys. unfold learn. erewrite bind_run by reflexivity.
  by apply learn_loop_returns.
Qed.

(** The registry invariant makes the registered agent ids pairwise
    distinct. *)
Lemma registry_inv_distinct_ids w : registry_inv w → NoDup (registered_ids w).
Proof.
  intros Hinv. unfold registered_ids. apply NoDup_alt.
  intros i j a. rewrite !list_lookup_fmap.
  destruct (policies w !! i) as [li|] eqn:Hi; [|done].
  destruct (policies w !! j) as [lj|] eqn:Hj; [|done].
  simpl. intros [= <-] [= Heq].
  rewrite (Hinv i li Hi), (Hinv j lj Hj) in Heq. lia.
Qed.

(** ** Calls and failures, for every outcome *)

Lemma quiet_weaken {A} (E E' : exn → Prop) (c : M A) :
  (∀ e, E e → E' e) → quiet E c → quiet E' c.
Proof.
  intros HE Hc w r w' Hrun. destruct (Hc w r w' Hrun) as [-> Hr].
  split; [done|]. destruct r; auto.
Qed.

Lemma quiet_ret {A} E (x : A) : quiet E (ret (Exc:=Exc) x : M A).
Proof. intros w r w' [= <- <-]. done. Qed.

Lemma quiet_bind {A B} E (c : M A) (k : A → M B) :
  quiet E c → (∀ x, quiet E (k x)) → quiet E (c ≫= k).
Proof.
  intros Hc Hk w r w' [(x & w1 & H1 & H2)|(e & H1 & ->)]%bind_inv.
  - destruct (Hc _ _ _ H1) as [-> _]. by eapply Hk.
  - by apply (Hc _ _ _ H1).
Qed.

Lemma quiet_index_or_raise {A} (o : option A) :
  quiet (λ e, e = IndexError) (index_or_raise (Exc:=Exc) o : M A).
Proof. intros w r w'. unfold index_or_raise. destruct o; by intros [= <- <-]. Qed.

Lemma quiet_key_or_raise {A} (o : option A) :
  quiet (λ e, e = KeyError) (key_or_raise (Exc:=Exc) o : M A).
Proof. intros w r w'. unfold key_or_raise. destruct o; by intros [= <- <-]. Qed.

Lemma quiet_get_agent_id l E : quiet E (get_agent_id l : M Z).
Proof. intros w r w' [= <- <-]. done. Qed.

Lemma quiet_get_policies E : quiet E (get_policies : M (list loc)).
Proof. intros w r w' [= <- <-]. done. Qed.

Lemma quiet_get_ndarray l E : quiet E (get_ndarray l : M (list Act)).
Proof. intros w r w' [= <- <-]. done. Qed.

Lemma rew_column_Raise (r : Rew) k e :
  rew_column (Exc:=Exc) r k = Raise e → e = IndexError.
Proof.
  unfold rew_column. destruct r as [| |n rws]; try by intros [= <-].
  case_decide; [|by intros [= <-]]. destruct (mapM _ _); [done|by intros [= <-]].
Qed.

Lemma quiet_rew_column (r : Rew) k :
  quiet (λ e, e = IndexError) (lift (rew_column r k) : M Rew).
Proof.
  intros w res w' [= <- <-]. split; [done|].
  destruct (rew_column r k) eqn:Hr; [done|]. by eapply rew_column_Raise.
Qed.

Lemma set_index_Raise {A} (arr : list A) index v e :
  set_index (Exc:=Exc) arr index v = Raise e → e = ValueError ∨ e = IndexError.
Proof.
  unfold set_index. destruct (broadcast_to _ _); [|intros [= <-]; by left].
  case_decide; [done|]. intros [= <-]. by right.
Qed.

Lemma quiet_set_index (arr : list Act) index v :
  quiet manager_error (lift (set_index arr index v) : M (list Act)).
Proof.
  intros w res w' [= <- <-]. split; [done|].
  destruct (set_index arr index v) eqn:Hr; [done|].
  apply set_index_Raise in Hr as [-> | ->]; unfold manager_error; auto.
Qed.

Lemma manager_error_IndexError : manager_error (Exc:=Exc) IndexError.
Proof. by left. Qed.

Lemma manager_error_KeyError : manager_error (Exc:=Exc) KeyError.
Proof. by right; right. Qed.

(** The statements of one round of [forward]'s first loop that come
    before the call. *)
Lemma quiet_forward_view (tb : Batch) a :
  quiet (λ e, e = IndexError)
    ((if is_ndarray (rew tb) then
        r ← lift (rew_column (rew tb) (a - 1)); ret (set_rew tb r)
      else ret tb) : M Batch).
Proof.
  destruct (is_ndarray (rew tb)); [|apply quiet_ret].
  apply quiet_bind; [apply quiet_rew_column|]. intros r. apply quiet_ret.
Qed.

Lemma quiet_forward_state (state : option (gmap string HState)) a :
  quiet (λ e, e = KeyError)
    (match state with
     | None => ret None
     | Some sd => s ← key_or_raise (sd !! agent_key a); ret (Some s)
     end : M (option HState)).
Proof.
  destruct state as [sd|]; [|apply quiet_ret].
  apply quiet_bind; [apply quiet_key_or_raise|]. intros s. apply quiet_ret.
Qed.

Lemma forward_loop_calls batch state ps (results : list Slot) w r w' :
  forward_loop P batch state ps results w = (r, w') →
  ∃ evs,
    trace w' = trace w ++ evs ∧
    let called :=
      filter (λ l, nonzero_eq (obs_agent_id batch) (agent_id w l) ≠ []) ps in
    match r with
    | Return _ => callee <$> evs = called
    | Raise e =>
        callee <$> evs `prefix_of` called ∧
        (manager_error e ∨ forward_raised P w' e)
    end.
Proof.
  revert results w. induction ps as [|policy ps IH]; intros results w Hrun.
  { injection Hrun as <- <-. exists []. by rewrite app_nil_r. }
  simpl in Hrun.
  apply bind_inv in Hrun as [(a & w1 & Ha & Hrun)|(e & Ha & _)];
    [injection Ha as <- <-|discriminate Ha].
  case_decide as Hidx.
  { destruct (IH _ _ Hrun) as (evs & Htr & Hr). exists evs. split; [done|].
    cbv zeta in *. rewrite filter_cons_False; [done|].
    intros Hne. apply Hne. by apply nil_length_inv. }
  assert (nonzero_eq (obs_agent_id batch) (agent_id w policy) ≠ []) as Hne.
  { intros Hnil. by rewrite Hnil in Hidx. }
  cbv zeta. rewrite filter_cons_True by done.
  assert (∀ e, manager_error e →
            ∃ evs, trace w = trace w ++ evs ∧
              callee <$> evs `prefix_of`
                policy :: filter (λ l, nonzero_eq (obs_agent_id batch) (agent_id w l) ≠ []) ps ∧
              (manager_error e ∨ forward_raised P w e)) as Hquiet.
  { intros e He. exists []. rewrite app_nil_r. split_and!; [done|apply prefix_nil|by left]. }
  apply bind_inv in Hrun as [(tb & w1 & H1 & Hrun)|(e & H1 & ->)];
    apply quiet_index_or_raise in H1 as [-> H1];
    [|apply Hquiet; rewrite H1; apply manager_error_IndexError].
  apply bind_inv in Hrun as [(sub & w1 & H2 & Hrun)|(e & H2 & ->)];
    apply quiet_forward_view in H2 as [-> H2];
    [|apply Hquiet; rewrite H2; apply manager_error_IndexError].
  apply bind_inv in Hrun as [(prior & w1 & H3 & Hrun)|(e & H3 & ->)];
    apply quiet_forward_state in H3 as [-> H3];
    [|apply Hquiet; rewrite H3; apply manager_error_KeyError].
  apply bind_inv in Hrun as [(out & w1 & H4 & Hrun)|(e & H4 & ->)];
    unfold call_forward in H4; injection H4 as H4 <-.
  - destruct (IH _ _ Hrun) as (evs & Htr & Hr). simpl in *.
    exists (CallForward policy sub prior :: evs). split.
    { rewrite Htr. by rewrite <-app_assoc. }
    destruct r as [rs|e]; simpl.
    + by f_equal.
    + destruct Hr as [Hpre Hor]. split; [by apply prefix_cons|done].
  - exists [CallForward policy sub prior]. simpl. split_and!; [done| |].
    + apply prefix_cons, prefix_nil.
    + right. by exists (trace w), policy, sub, prior.
Qed.

Lemma quiet_forward_merge zs (h : Holder) :
  quiet manager_error (forward_merge zs h : M Holder).
Proof.
  revert h. induction zs as [|[policy slot] zs IH]; intros h; simpl;
    [apply quiet_ret|].
  apply quiet_bind.
  - destruct slot; [apply quiet_ret|apply quiet_set_index].
  - intros acts. apply quiet_bind; [apply quiet_get_agent_id|]. intros a. apply IH.
Qed.

(** The calls [forward] makes, and where a failure comes from. *)
Lemma forward_calls batch state w (r : result Holder) w' :
  forward P batch state w = (r, w') →
  ∃ evs,
    trace w' = trace w ++ evs ∧
    match r with
    | Return _ => callee <$> evs = with_data batch w
    | Raise e =>
        callee <$> evs `prefix_of` with_data batch w ∧
        (manager_error e ∨ forward_raised P w' e)
    end.
Proof.
  unfold forward. intros Hrun.
  apply bind_inv in Hrun as [(ps & w1 & Hps0 & Hrun)|(e & Hps0 & _)];
    [injection Hps0 as <- <-|discriminate Hps0].
  apply bind_inv in Hrun as [(slots & w1 & Hloop & Hrun)|(e & Hloop & ->)].
  - pose proof Hloop as (Hps & _ & _)%same_registry_forward_loop.
    apply forward_loop_calls in Hloop as (evs & Htr & Hcalls). cbv zeta in Hcalls.
    apply bind_inv in Hrun as [(ps & w2 & Hps1 & Hrun)|(e & Hps1 & _)];
      [injection Hps1 as <- <-|discriminate Hps1].
    apply quiet_forward_merge in Hrun as [-> Hr].
    exists evs. split; [done|]. unfold with_data.
    destruct r as [h|e]; [done|]. rewrite Hcalls. split; [done|by left].
  - apply forward_loop_calls in Hloop as (evs & Htr & Hcalls).
    exists evs. split; [done|]. exact Hcalls.
Qed.

(** The reward swap of one round of [process_fn]: it raises before it
    writes. *)
Lemma process_fn_swap_inv (has_rew : bool) (save_rew : Rew) (tb : Batch) a w
    (r : result Batch) w1 :
  ((if has_rew then
      r ← lift (rew_column (rew tb) (a - 1));
      r_buf ← lift (rew_column save_rew (a - 1));
      _ ← set_buffer_rew r_buf;
      ret (set_rew tb r)
    else ret tb) : M Batch) w = (r, w1) →
  trace w1 = trace w ∧ agent_id w1 = agent_id w ∧
  match r with
  | Return _ => True
  | Raise e => e = IndexError ∧ w1 = w
  end.
Proof.
  destruct has_rew; [|by intros [= <- <-]]. intros Hrun.
  apply bind_inv in Hrun as [(c & w2 & H1 & Hrun)|(e & H1 & ->)];
    apply quiet_rew_column in H1 as [-> H1]; [|done].
  apply bind_inv in Hrun as [(c' & w2 & H2 & Hrun)|(e & H2 & ->)];
    apply quiet_rew_column in H2 as [-> H2]; [|done].
  apply bind_inv in Hrun as [(u & w2 & H3 & Hrun)|(e & H3 & _)];
    [injection H3 as _ <-|discriminate H3].
  by injection Hrun as <- <-.
Qed.

Lemma process_fn_loop_calls batch indices (has_rew : bool) save_rew ps
    (results : gmap string (option Data)) w
    (r : result (gmap string (option Data) * Rew)) w' :
  process_fn_loop P batch indices has_rew save_rew ps results w = (r, w') →
  ∃ evs,
    trace w' = trace w ++ evs ∧
    let called :=
      filter (λ l, nonzero_eq (obs_agent_id batch) (agent_id w l) ≠ []) ps in
    match r with
    | Return _ => callee <$> evs = called
    | Raise e =>
        callee <$> evs `prefix_of` called ∧
        (e = IndexError ∨ process_fn_raised P w' e)
    end.
Proof.
  revert save_rew results w.
  induction ps as [|policy ps IH]; intros save_rew results w Hrun.
  { injection Hrun as <- <-. exists []. by rewrite app_nil_r. }
  simpl in Hrun.
  apply bind_inv in Hrun as [(a & w1 & Ha & Hrun)|(e & Ha & _)];
    [injection Ha as <- <-|discriminate Ha].
  case_decide as Hidx.
  { destruct (IH _ _ _ Hrun) as (evs & Htr & Hr). exists evs. split; [done|].
    cbv zeta in *. rewrite filter_cons_False; [done|].
    intros Hne. apply Hne. by apply nil_length_inv. }
  assert (nonzero_eq (obs_agent_id batch) (agent_id w policy) ≠ []) as Hne.
  { intros Hnil. by rewrite Hnil in Hidx. }
  cbv zeta. rewrite filter_cons_True by done.
  assert (∃ evs, trace w = trace w ++ evs ∧
            callee <$> evs `prefix_of`
              policy :: filter (λ l, nonzero_eq (obs_agent_id batch) (agent_id w l) ≠ []) ps ∧
            ((IndexError : exn) = IndexError ∨ process_fn_raised P w IndexError))
    as Hquiet.
  { exists []. rewrite app_nil_r. split_and!; [done|apply prefix_nil|by left]. }
  apply bind_inv in Hrun as [(tb & w1 & H1 & Hrun)|(e & H1 & ->)];
    apply quiet_index_or_raise in H1 as [-> H1]; [|by rewrite H1].
  apply bind_inv in Hrun as [(ti & w1 & H2 & Hrun)|(e & H2 & ->)];
    apply quiet_index_or_raise in H2 as [-> H2]; [|by rewrite H2].
  apply bind_inv in Hrun as [(sub & w1 & H3 & Hrun)|(e & H3 & ->)];
    apply process_fn_swap_inv in H3 as (Htr1 & Hid1 & H3);
    [|by destruct H3 as [-> ->]].
  apply bind_inv in Hrun as [(dw & w2 & H4 & Hrun)|(e & H4 & ->)];
    unfold call_process_fn in H4;
    destruct (policy_process_fn P (trace w1) policy sub (buffer w1) ti)
      as [[d4|e4] buf'] eqn:Hcall;
    try discriminate H4; injection H4 as <- <-.
  - destruct (IH _ _ _ Hrun) as (evs & Htr & Hr). simpl in *.
    exists (CallProcessFn policy sub (buffer w1) ti :: evs). split.
    { rewrite Htr, Htr1. by rewrite <-app_assoc. }
    rewrite Hid1 in Hr. destruct r as [rs|e]; simpl.
    + by f_equal.
    + destruct Hr as [Hpre Hor]. split; [by apply prefix_cons|done].
  - exists [CallProcessFn policy sub (buffer w1) ti]. simpl.
    rewrite Htr1. split_and!; [done| |].
    + apply prefix_cons, prefix_nil.
    + right. exists (trace w), policy, sub, (buffer w1), ti. simpl.
      split; [done|]. by rewrite <-Htr1.
Qed.

(** The calls [process_fn] makes, and where a failure comes from. *)
Lemma process_fn_calls batch indices w (r : result (gmap string (option Data))) w' :
  process_fn P batch indices w = (r, w') →
  ∃ evs,
    trace w' = trace w ++ evs ∧
    match r with
    | Return _ => callee <$> evs = with_data batch w
    | Raise e =>
        callee <$> evs `prefix_of` with_data batch w ∧
        (e = IndexError ∨ process_fn_raised P w' e)
    end.
Proof.
  unfold process_fn. intros Hrun.
  apply bind_inv in Hrun as [(save & w1 & Hs & Hrun)|(e & Hs & _)];
    [injection Hs as <- <-|discriminate Hs].
  apply bind_inv in Hrun as [(u & w1 & H1 & Hrun)|(e & H1 & _)]; cycle 1.
  { destruct (is_ndarray _); discriminate H1. }
  assert (trace w1 = trace w ∧ agent_id w1 = agent_id w ∧ policies w1 = policies w)
    as (Htr1 & Hid1 & Hps1).
  { destruct (is_ndarray _); by injection H1 as _ <-. }
  apply bind_inv in Hrun as [(ps & w2 & Hps & Hrun)|(e & Hps & _)];
    [injection Hps as <- <-|discriminate Hps].
  apply bind_inv in Hrun as [(res & w2 & Hloop & Hrun)|(e & Hloop & ->)];
    apply process_fn_loop_calls in Hloop as (evs & Htr & Hcalls);
    cbv zeta in Hcalls; rewrite Hid1, Hps1 in Hcalls; rewrite Htr1 in Htr.
  - destruct res as [res save'].
    apply bind_inv in Hrun as [(u' & w3 & H2 & Hrun)|(e & H2 & _)]; cycle 1.
    { destruct (is_ndarray _); discriminate H2. }
    injection Hrun as <- <-. exists evs. split; [|done].
    rewrite <-Htr. destruct (is_ndarray _); by injection H2 as _ <-.
  - by exists evs.
Qed.

Lemma exploration_noise_loop_calls act batch ps w (r : result ()) w' :
  exploration_noise_loop P act batch ps w = (r, w') →
  ∃ evs,
    trace w' = trace w ++ evs ∧
    let called :=
      filter (λ l, nonzero_eq (obs_agent_id batch) (agent_id w l) ≠ []) ps in
    match r with
    | Return _ => callee <$> evs = called
    | Raise e =>
        callee <$> evs `prefix_of` called ∧
        (manager_error e ∨ exploration_noise_raised P w' e)
    end.
Proof.
  revert w. induction ps as [|policy ps IH]; intros w Hrun.
  { injection Hrun as <- <-. exists []. by rewrite app_nil_r. }
  simpl in Hrun.
  apply bind_inv in Hrun as [(a & w1 & Ha & Hrun)|(e & Ha & _)];
    [injection Ha as <- <-|discriminate Ha].
  case_decide as Hidx.
  { destruct (IH _ Hrun) as (evs & Htr & Hr). exists evs. split; [done|].
    cbv zeta in *. rewrite filter_cons_False; [done|].
    intros Hne. apply Hne. by apply nil_length_inv. }
  assert (nonzero_eq (obs_agent_id batch) (agent_id w policy) ≠ []) as Hne.
  { intros Hnil. by rewrite Hnil in Hidx. }
  cbv zeta. rewrite filter_cons_True by done.
  apply bind_inv in Hrun as [(arr & w1 & H0 & Hrun)|(e & H0 & _)];
    [injection H0 as <- <-|discriminate H0].
  apply bind_inv in Hrun as [(sub_act & w1 & H1 & Hrun)|(e & H1 & ->)];
    apply quiet_index_or_raise in H1 as [-> H1].
  2:{ exists []. rewrite app_nil_r. split_and!; [done|apply prefix_nil|].
      left. rewrite H1. apply manager_error_IndexError. }
  apply bind_inv in Hrun as [(sub_batch & w1 & H2 & Hrun)|(e & H2 & ->)];
    apply quiet_index_or_raise in H2 as [-> H2].
  2:{ exists []. rewrite app_nil_r. split_and!; [done|apply prefix_nil|].
      left. rewrite H2. apply manager_error_IndexError. }
  apply bind_inv in Hrun as [(v & w1 & H3 & Hrun)|(e & H3 & ->)];
    unfold call_exploration_noise in H3; injection H3 as H3 <-.
  2:{ exists [CallNoise policy sub_act sub_batch]. simpl. split_and!; [done| |].
      - apply prefix_cons, prefix_nil.
      - right. by exists (trace w), policy, sub_act, sub_batch. }
  apply bind_inv in Hrun as [(arr & w1 & H4 & Hrun)|(e & H4 & _)];
    [injection H4 as <- <-|discriminate H4].
  apply bind_inv in Hrun as [(arr' & w1 & H5 & Hrun)|(e & H5 & ->)];
    apply quiet_set_index in H5 as [-> H5].
  2:{ exists [CallNoise policy sub_act sub_batch]. simpl. split_and!; [done| |].
      - apply prefix_cons, prefix_nil.
      - by left. }
  apply bind_inv in Hrun as [(u & w1 & H6 & Hrun)|(e & H6 & _)];
    [injection H6 as _ <-|discriminate H6].
  destruct (IH _ Hrun) as (evs & Htr & Hr). simpl in *.
  exists (CallNoise policy sub_act sub_batch :: evs). split.
  { rewrite Htr. by rewrite <-app_assoc. }
  destruct r as [rs|e]; simpl.
  - by f_equal.
  - destruct Hr as [Hpre Hor]. split; [by apply prefix_cons|done].
Qed.

(** The calls [exploration_noise] makes, and where a failure comes from. *)
Lemma exploration_noise_calls act batch w (r : result loc) w' :
  exploration_noise P act batch w = (r, w') →
  ∃ evs,
    trace w' = trace w ++ evs ∧
    match r with
    | Return _ => callee <$> evs = with_data batch w
    | Raise e =>
        callee <$> evs `prefix_of` with_data batch w ∧
        (manager_error e ∨ exploration_noise_raised P w' e)
    end.
Proof.
  unfold exploration_noise. intros Hrun.
  apply bind_inv in Hrun as [(ps & w1 & Hps & Hrun)|(e & Hps & _)];
    [injection Hps as <- <-|discriminate Hps].
  apply bind_inv in Hrun as [(u & w1 & Hloop & Hrun)|(e & Hloop & ->)];
    apply exploration_noise_loop_calls in Hloop as (evs & Htr & Hcalls).
  - injection Hrun as <- <-. by exists evs.
  - by exists evs.
Qed.

Lemma learn_loop_calls (batch : gmap string (option Data)) ps
    (results : gmap string Metric) w r w' :
  learn_loop P batch ps results w = (r, w') →
  ∃ evs,
    trace w' = trace w ++ evs ∧
    let called :=
      filter (λ l, is_Some (mjoin (batch !! agent_key (agent_id w l)))) ps in
    match r with
    | Return _ => callee <$> evs = called
    | Raise e =>
        callee <$> evs `prefix_of` called ∧
        (e = KeyError ∨ learn_raised P w' e)
    end.
Proof.
  revert results w. induction ps as [|policy ps IH]; intros results w Hrun.
  { injection Hrun as <- <-. exists []. by rewrite app_nil_r. }
  simpl in Hrun.
  apply bind_inv in Hrun as [(a & w1 & Ha & Hrun)|(e & Ha & _)];
    [injection Ha as <- <-|discriminate Ha].
  apply bind_inv in Hrun as [(data & w1 & H1 & Hrun)|(e & H1 & ->)];
    apply quiet_key_or_raise in H1 as H1'; destruct H1' as [-> H1'].
  2:{ exists []. rewrite app_nil_r. cbv zeta.
      split_and!; [done|apply prefix_nil|by left]. }
  apply key_or_raise_Return in H1 as [Hdata _].
  cbv zeta. destruct data as [d|].
  - rewrite filter_cons_True by (rewrite Hdata; simpl; eauto).
    apply bind_inv in Hrun as [(out & w1 & H2 & Hrun)|(e & H2 & ->)];
      unfold call_learn in H2; injection H2 as H2 <-.
    + destruct (IH _ _ Hrun) as (evs & Htr & Hr). simpl in *.
      exists (CallLearn policy d :: evs). split.
      { rewrite Htr. by rewrite <-app_assoc. }
      destruct r as [rs|e]; simpl.
      * by f_equal.
      * destruct Hr as [Hpre Hor]. split; [by apply prefix_cons|done].
    + exists [CallLearn policy d]. simpl. split_and!; [done| |].
      * apply prefix_cons, prefix_nil.
      * right. by exists (trace w), policy, d.
  - rewrite filter_cons_False by (rewrite Hdata; simpl; by intros [? ?]).
    apply (IH _ _ Hrun).
Qed.

(** The calls [learn] makes, and where a failure comes from. *)
Lemma learn_calls (batch : gmap string (option Data)) w
    (r : result (gmap string Metric)) w' :
  learn P batch w = (r, w') →
  ∃ evs,
    trace w' = trace w ++ evs ∧
    match r with
    | Return _ => callee <$> evs = to_learn batch w
    | Raise e =>
        callee <$> evs `prefix_of` to_learn batch w ∧
        (e = KeyError ∨ learn_raised P w' e)
    end.
Proof.
  unfold learn. intros Hrun.
  apply bind_inv in Hrun as [(ps & w1 & Hps & Hrun)|(e & Hps & _)];
    [injection Hps as <- <-|discriminate Hps].
  by apply learn_loop_calls in Hrun.
Qed.

(** ** Further properties of the dispatch operations *)

(** X1: [forward] calls the registered policies that have transitions in
    the batch, once per registry slot and in registry order, and no
    other; when it fails, the calls made are an initial part of that
    sequence, and the exception is an indexing or key error of the
    manager's own statements or the very exception the last call raised. *)
Theorem forward_call_sequence batch state w (r : result Holder) w' :
  forward P batch state w = (r, w') →
  ∃ evs,
    trace w' = trace w ++ evs ∧
    match r with
    | Return _ => callee <$> evs = with_data batch w
    | Raise e =>
        callee <$> evs `prefix_of` with_data batch w ∧
        (manager_error e ∨ forward_raised P w' e)
    end.
Proof. apply forward_calls. Qed.

(** X2: [process_fn] calls the registered policies that have transitions
    in the batch, once per registry slot and in registry order; when it
    fails, the calls made are an initial part of that sequence, and
    either the manager's own indexing raised IndexError, or the last call
    raised that very exception and the buffer is exactly as that call
    left it. *)
Theorem process_fn_call_sequence batch indices w
    (r : result (gmap string (option Data))) w' :
  process_fn P batch indices w = (r, w') →
  ∃ evs,
    trace w' = trace w ++ evs ∧
    match r with
    | Return _ => callee <$> evs = with_data batch w
    | Raise e =>
        callee <$> evs `prefix_of` with_data batch w ∧
        (e = IndexError ∨ process_fn_raised P w' e)
    end.
Proof. apply process_fn_calls. Qed.

(** X3: [exploration_noise] calls the registered policies that have
    transitions in the batch, once per registry slot and in registry
    order; when it fails, the calls made are an initial part of that
    sequence, and the exception is an indexing or broadcasting error of
    the manager's own statements or the very exception the last call
    raised. *)
Theorem exploration_noise_call_sequence act batch w (r : result loc) w' :
  exploration_noise P act batch w = (r, w') →
  ∃ evs,
    trace w' = trace w ++ evs ∧
    match r with
    | Return _ => callee <$> evs = with_data batch w
    | Raise e =>
        callee <$> evs `prefix_of` with_data batch w ∧
        (manager_error e ∨ exploration_noise_raised P w' e)
    end.
Proof. apply exploration_noise_calls. Qed.

(** X4: [learn] calls the registered policies whose entry in the mapping
    is non-empty, once per registry slot and in registry order; when it
    fails, the calls made are an initial part of that sequence, and
    either a key was missing (KeyError) or the last call raised that very
    exception. *)
Theorem learn_call_sequence (batch : gmap string (option Data)) w
    (r : result (gmap string Metric)) w' :
  learn P batch w = (r, w') →
  ∃ evs,
    trace w' = trace w ++ evs ∧
    match r with
    | Return _ => callee <$> evs = to_learn batch w
    | Raise e =>
        callee <$> evs `prefix_of` to_learn batch w ∧
        (e = KeyError ∨ learn_raised P w' e)
    end.
Proof. apply learn_calls. Qed.

Lemma forward_merge_dicts zs (h h' : Holder) w w' :
  forward_merge zs h w = (Return (Exc:=Exc) h', w') →
  (∀ key, (∀ p s, (p, s) ∈ zs → key ≠ agent_key (agent_id w p)) →
     holder_out h' !! key = holder_out h !! key ∧
     holder_state h' !! key = holder_state h !! key) ∧
  (∀ (k : nat) p s, zs !! k = Some (p, s) →
     (∀ (k' : nat) p' s', (k < k')%nat → zs !! k' = Some (p', s') →
        agent_id w p' ≠ agent_id w p) →
     holder_out h' !! agent_key (agent_id w p) = Some (slot_out s) ∧
     holder_state h' !! agent_key (agent_id w p) = Some (slot_state s)).
Proof.
  revert h w. induction zs as [|[policy slot] zs IH]; intros h w Hrun.
  - simpl in Hrun. apply ret_Return in Hrun as [-> ->]. split; [done|].
    by intros k p s ?.
  - simpl in Hrun. inv_bind Hrun as acts w1 Hacts.
    assert (w1 = w) as ->.
    { destruct slot; [by apply ret_Return in Hacts as [_ ->]|].
      by apply lift_Return in Hacts as [_ ->]. }
    inv_bind Hrun. apply IH in Hrun as [Hother Hmine]. simpl in *. split.
    + intros key Hkey. destruct (Hother key) as [-> ->].
      { intros p s Hin. eapply Hkey. by right. }
      rewrite !lookup_insert_ne; [done|..];
        intros Heq; by apply (Hkey policy slot); [left|].
    + intros [|k] p s Hk Hlater; simpl in Hk.
      * simplify_eq. destruct (Hother (agent_key (agent_id w p))) as [-> ->].
        { intros p' s' [k' Hk']%list_elem_of_lookup_1 Heq%agent_key_inj.
          by eapply (Hlater (S k')); [lia|..]. }
        by rewrite !lookup_insert_eq.
      * eapply Hmine; [done|]. intros k' p' s' Hkk' Hk'.
        apply (Hlater (S k') p' s'); [lia|done].
Qed.

(** X5: on a registry with pairwise distinct agent ids, the [out] and
    [state] mappings [forward] returns have an entry under
    "agent_<id>" for every registered policy and no other key: for a
    policy with data the output its call returned and that output's
    state (the empty [Batch()] when it has none), for a policy without
    data the empty [Batch()] in both. *)
Theorem forward_mappings batch state w (h : Holder) w' :
  NoDup (registered_ids w) →
  forward P batch state w = (Return h, w') →
  (∀ key, (∀ l, l ∈ policies w → key ≠ agent_key (agent_id w l)) →
     holder_out h !! key = None ∧ holder_state h !! key = None) ∧
  ∀ l, l ∈ policies w →
    let index := nonzero_eq (obs_agent_id batch) (agent_id w l) in
    let key := agent_key (agent_id w l) in
    (index = [] →
       holder_out h !! key = Some None ∧ holder_state h !! key = Some None) ∧
    (index ≠ [] →
       ∃ out, forward_call P batch state w w' l out ∧
              holder_out h !! key = Some (Some out) ∧
              holder_state h !! key = Some (out_state out)).
Proof.
  intros Hnd Hrun. unfold forward in Hrun.
  inv_bind Hrun. inv_bind Hrun as slots w1 Hloop. inv_bind Hrun.
  pose proof Hloop as Hreg.
  apply same_registry_forward_loop in Hreg as (Hps & Hids & _).
  apply forward_loop_slots in Hloop as (slots' & -> & HF). simpl in *.
  rewrite Hps in Hrun.
  pose proof Hrun as Hw. apply forward_merge_spec in Hw as (-> & _).
  apply forward_merge_dicts in Hrun as [Hother Hmine]. simpl in *.
  rewrite Hids in Hother, Hmine. split.
  - intros key Hkey. destruct (Hother key) as [-> ->]; [|done].
    intros p s [k Hk]%list_elem_of_lookup_1.
    apply lookup_zip_with_Some in Hk as (? & ? & [= <- <-] & Hp & _).
    apply Hkey. by eapply list_elem_of_lookup_2.
  - intros l [k Hk]%list_elem_of_lookup_1. cbv zeta.
    destruct (Forall2_lookup_l _ _ _ _ _ HF Hk) as (s & Hs & Hok).
    destruct (Hmine k l s) as [Hout Hstate].
    { apply lookup_zip_with_Some. eauto. }
    { intros k' p' s' Hkk' (? & ? & [= <- <-] & Hp' & _)%lookup_zip_with_Some Heq.
      apply (NoDup_lookup _ k k' (agent_id w l)) in Hnd; [lia|..];
        unfold registered_ids; rewrite list_lookup_fmap.
      - by rewrite Hk.
      - rewrite Hp'. simpl. by rewrite Heq. }
    rewrite Hout, Hstate. destruct s as [|index out act st]; simpl in Hok.
    + split; [done|]. by intros Hne.
    + destruct Hok as (-> & Hne & -> & -> & Hcall). split; [done|].
      intros _. by exists out.
Qed.

Lemma process_fn_round_view {B} (has_rew : bool) (save_rew : Rew) policy a
    (tb : Batch) (ti : list Z)
    (k : option Data * option (list RewV) → M B) w (res : B) w' :
  (tmp_batch ← (if has_rew then
                  r ← lift (rew_column (rew tb) (a - 1));
                  r_buf ← lift (rew_column save_rew (a - 1));
                  _ ← set_buffer_rew r_buf;
                  ret (set_rew tb r)
                else ret tb);
   r ← call_process_fn P policy tmp_batch ti;
   k r : M _) w = (Return res, w') →
  ∃ sub buf0 r buf1,
    (if has_rew then
       rew_column (Exc:=Exc) (rew tb) (a - 1) = Return (rew sub) ∧
       sub = set_rew tb (rew sub) ∧
       rew_column (Exc:=Exc) save_rew (a - 1) = Return (meta_rew buf0)
     else sub = tb) ∧
    policy_process_fn P (trace w) policy sub buf0 ti = (Return r, buf1) ∧
    k (r, policy_process_fn_writes P (trace w) policy sub buf0 ti)
      (with_buffer buf1
         (with_trace (trace w ++ [CallProcessFn policy sub buf0 ti]) w))
      = (Return res, w').
Proof.
  intros Hrun. inv_bind Hrun. inv_bind Hrun. destruct x0 as [r written].
  apply call_process_fn_Return in Hc0 as (buf1 & Hcall & -> & ->).
  destruct has_rew.
  - do 3 inv_bind Hc. apply ret_Return in Hc as [-> ->].
    injection Hc2 as <-. simpl in *. eexists _, _, _, _.
    split; [|split; [exact Hcall|exact Hrun]]. done.
  - apply ret_Return in Hc as [-> ->]. eexists _, _, _, _.
    split; [|split; [exact Hcall|exact Hrun]]. done.
Qed.

Lemma process_fn_loop_delegation batch indices (has_rew : bool) save0 save_rew ps
    (results : gmap string (option Data)) w res save' w' :
  has_rew = is_ndarray save0 → rew_same_shape save0 save_rew →
  process_fn_loop P batch indices has_rew save_rew ps results w
    = (Return (res, save'), w') →
  (∀ key, (∀ l, l ∈ ps → key ≠ agent_key (agent_id w l)) →
     res !! key = results !! key) ∧
  (NoDup (agent_id w <$> ps) →
   ∀ l, l ∈ ps →
     nonzero_eq (obs_agent_id batch) (agent_id w l) ≠ [] →
     ∃ d, process_fn_call P batch indices save0 w w' l d ∧
          res !! agent_key (agent_id w l) = Some d).
Proof.
  intros ->. revert save_rew results w.
  induction ps as [|policy ps IH]; intros save_rew results w Hshape Hrun.
  - simpl in Hrun. apply ret_Return in Hrun as [[= -> ->] ->]. split; [done|].
    by intros _ l ?%elem_of_nil.
  - simpl in Hrun. inv_bind Hrun. case_decide as Hidx.
    + apply IH in Hrun as [Hother Hmine]; [|done]. split.
      * intros key Hkey. rewrite Hother.
        { apply lookup_insert_ne. intros Heq. by apply (Hkey policy); [left|]. }
        intros l Hl. apply Hkey. by right.
      * intros [Hnotin Hnd]%NoDup_cons l [->|Hl]%elem_of_cons Hne.
        { destruct Hne. by apply nil_length_inv. }
        by apply Hmine.
    + inv_bind Hrun as tb w1 Htb. inv_bind Hrun as ti w1 Hti.
      apply process_fn_round_view in Hrun
        as (sub & buf0 & d & buf1 & Hview & Hcall & Hrun).
      cbv beta iota in Hrun.
      pose proof Hrun as (_ & Hid & Hpre)%same_registry_process_fn_loop.
      apply IH in Hrun as [Hother Hmine];
        [|by eapply rew_same_shape_trans; [|apply saved_after_same_shape]].
      simpl in *. split.
      * intros key Hkey. rewrite Hother.
        { apply lookup_insert_ne. intros Heq. by apply (Hkey policy); [left|]. }
        intros l Hl. apply Hkey. by right.
      * intros [Hnotin Hnd]%NoDup_cons l [->|Hl]%elem_of_cons Hne.
        { exists d. split.
          - exists (trace w), sub, ti, buf0, buf1.
            split_and!; [|done| |done|done|done].
            + unfold process_view. rewrite Htb.
              destruct (is_ndarray save0); [|by rewrite Hview].
              destruct Hview as (Hc & Hsub & _). rewrite Hc. by rewrite Hsub at 2.
            + intros Hnd'. rewrite Hnd' in Hview.
              exists save_rew. split; [done|]. by destruct Hview as (_ & _ & ?).
          - rewrite Hother; [by rewrite lookup_insert_eq|].
            intros l Hl Heq%agent_key_inj. apply Hnotin. rewrite Heq.
            by apply list_elem_of_fmap_2. }
        destruct (Hmine Hnd l Hl Hne) as (d' & Hcall' & Hres). exists d'.
        split; [|done].
        destruct Hcall' as (tr & sub' & ti' & buf & buf' & ? & ? & ? & Hpre' & ? & ?).
        exists tr, sub', ti', buf, buf'. split_and!; try done.
        etrans; [|exact Hpre']. by apply prefix_app_r.
Qed.



(** X7: hot swap, then dispatch.  On a registry that satisfies the
    invariant, after [replace_policy] with an id in 1..N and a policy
    that is in no other slot, [forward] routes the transitions tagged
    with that id to the new policy: it is called on their slice, its
    actions are at their positions, and the policy it replaced is not
    called. *)
Theorem replace_policy_then_forward batch state w q a w1 (h : Holder) w2 :
  registry_inv w →
  1 ≤ a ≤ Z.of_nat (length (policies w)) →
  (∀ k : nat, policies w !! k = Some q → Z.of_nat k = a - 1) →
  replace_policy (Exc:=Exc) q a w = (Return (), w1) →
  forward P batch state w1 = (Return h, w2) →
  let index := nonzero_eq (obs_agent_id batch) a in
  index ≠ [] →
  agent_id w1 q = a ∧
  (∃ out, forward_call P batch state w1 w2 q out ∧
          length (out_act out) = length index ∧
          ∀ (j i : nat), index !! j = Some i →
                         holder_act h !! i = out_act out !! j) ∧
  ∃ evs, trace w2 = trace w1 ++ evs ∧
    ∀ old, policies w !! Z.to_nat (a - 1) = Some old → old ≠ q →
           ∀ e, e ∈ evs → callee e ≠ old.
Proof.
  intros Hinv Ha Hq Hrep Hrun index Hne.
  pose proof (registry_inv_replace_policy _ _ _ _ Hinv Ha Hq Hrep) as Hinv1.
  rewrite replace_policy_in_range in Hrep by done. injection Hrep as <-.
  set (w1 := set_agent_id q a
               (with_policies (<[Z.to_nat (a - 1):=q]> (policies w)) w)) in *.
  assert (agent_id w1 q = a) as Hqa.
  { unfold w1. rewrite agent_id_set_agent_id. by rewrite decide_True. }
  assert (q ∈ policies w1) as Hqin.
  { unfold w1. rewrite policies_set_agent_id. simpl.
    eapply list_elem_of_lookup_2, list_lookup_insert_eq. lia. }
  split; [done|]. split.
  - destruct (forward_general _ _ _ _ _ (registry_inv_distinct_ids _ Hinv1) Hrun)
      as (_ & _ & Hpos).
    specialize (Hpos q Hqin). cbv zeta in Hpos. rewrite Hqa in Hpos. by apply Hpos.
  - destruct (forward_calls _ _ _ _ _ Hrun) as (evs & Htr & Hcalls).
    exists evs. split; [done|]. intros old Hold Hneq e He Hcallee.
    assert (old ∈ policies w1) as [k Hk]%list_elem_of_lookup_1.
    { rewrite <-Hcallee.
      assert (callee e ∈ with_data batch w1) as Hin.
      { rewrite <-Hcalls. by apply list_elem_of_fmap_2. }
      unfold with_data in Hin. by apply list_elem_of_filter in Hin as [_ ?]. }
    unfold w1 in Hk. rewrite policies_set_agent_id in Hk. simpl in Hk.
    destruct (decide (k = Z.to_nat (a - 1))) as [->|Hkne].
    + rewrite list_lookup_insert_eq in Hk by lia. congruence.
    + rewrite list_lookup_insert_ne in Hk by done.
      pose proof (Hinv _ _ Hk) as H1. pose proof (Hinv _ _ Hold) as H2. lia.
Qed.

(** X8: what [process_fn] returns is a mapping [learn] accepts: every
    registered policy's key is in it, so [learn] on it raises no
    KeyError, and returns whenever the sub-policies' [learn] do. *)
Theorem process_fn_then_learn batch indices w res w1 :
  process_fn P batch indices w = (Return res, w1) →
  learn_total P →
  ∃ metrics w2, learn P res w1 = (Return metrics, w2).
Proof.
  intros Hrun Htotal.
  pose proof Hrun as (Hps & Hid & _)%same_registry_process_fn.
  unfold process_fn in Hrun.
  apply bind_inv_Return in Hrun as (save & w0 & [= <- <-] & Hrun).
  inv_bind Hrun as u w0 Hpre. inv_bind Hrun. inv_bind Hrun as rs w3 Hloop.
  destruct rs as [res0 save'].
  inv_bind Hrun as u' w4 Hpost. apply ret_Return in Hrun as [-> ->].
  assert (policies w0 = policies w ∧ agent_id w0 = agent_id w) as [Hp Ha].
  { destruct (is_ndarray (meta_rew (buffer w)));
      [by injection Hpre as <- <-|by apply ret_Return in Hpre as [_ ->]]. }
  apply process_fn_loop_results in Hloop as (_ & _ & _ & _ & Hdom & _).
  unfold learn. erewrite bind_run by reflexivity.
  apply learn_loop_returns; [done|].
  rewrite Hps, Hid. intros l Hl. rewrite <-Ha. apply Hdom. by rewrite Hp.
Qed.

(** *** No transition for any registered policy *)

Lemma forward_loop_no_data batch state ps (results : list Slot) w :
  (∀ l, l ∈ ps → nonzero_eq (obs_agent_id batch) (agent_id w l) = []) →
  forward_loop P batch state ps results w
  = (Return (results ++ replicate (length ps) NoData), w).
Proof.
  revert results. induction ps as [|policy ps IH]; intros results Hno; simpl.
  { by rewrite app_nil_r. }
  erewrite bind_run by reflexivity.
  rewrite decide_True by (rewrite Hno; [done|by left]).
  rewrite IH by (intros l Hl; apply Hno; by right).
  by rewrite <-app_assoc.
Qed.

Lemma forward_merge_no_data ps (h : Holder) w :
  ∃ h', forward_merge (Exc:=Exc) (zip ps (replicate (length ps) NoData)) h w
        = (Return h', w) ∧
    holder_act h' = holder_act h ∧
    ∀ key,
      (key ∈ (λ l, agent_key (agent_id w l)) <$> ps →
         holder_out h' !! key = Some None ∧ holder_state h' !! key = Some None) ∧
      (key ∉ (λ l, agent_key (agent_id w l)) <$> ps →
         holder_out h' !! key = holder_out h !! key ∧
         holder_state h' !! key = holder_state h !! key).
Proof.
  revert h. induction ps as [|policy ps IH]; intros h; simpl.
  { exists h. split_and!; [done..|]. intros key. split; [by intros ?%elem_of_nil|done]. }
  erewrite bind_run by reflexivity. erewrite bind_run by reflexivity.
  destruct (IH (mkHolder (holder_act h)
                  (<[agent_key (agent_id w policy) := None]> (holder_out h))
                  (<[agent_key (agent_id w policy) := None]> (holder_state h))))
    as (h' & Hrun & Hact & Hkeys).
  exists h'. split_and!; [done..|]. intros key.
  destruct (Hkeys key) as [Hin Hnotin]. simpl in *.
  destruct (decide (key ∈ (λ l, agent_key (agent_id w l)) <$> ps)) as [Hk|Hk].
  - split; [by intros _; apply Hin|]. intros Hn. destruct Hn. by right.
  - destruct (Hnotin Hk) as [Ho Hs]. rewrite Ho, Hs. split.
    + intros [->|?]%elem_of_cons; [|done]. by rewrite !lookup_insert_eq.
    + intros [Hne _]%not_elem_of_cons. by rewrite !lookup_insert_ne.
Qed.

Lemma process_fn_loop_no_data batch indices has_rew save_rew ps
    (results : gmap string (option Data)) w :
  (∀ l, l ∈ ps → nonzero_eq (obs_agent_id batch) (agent_id w l) = []) →
  ∃ res,
    process_fn_loop P batch indices has_rew save_rew ps results w
      = (Return (res, save_rew), w) ∧
    ∀ key,
      (key ∈ (λ l, agent_key (agent_id w l)) <$> ps → res !! key = Some None) ∧
      (key ∉ (λ l, agent_key (agent_id w l)) <$> ps → res !! key = results !! key).
Proof.
  revert results. induction ps as [|policy ps IH]; intros results Hno; simpl.
  { exists results. split; [done|]. intros key. split; [by intros ?%elem_of_nil|done]. }
  erewrite bind_run by reflexivity.
  rewrite decide_True by (rewrite Hno; [done|by left]).
  destruct (IH (<[agent_key (agent_id w policy) := None]> results))
    as (res & Hrun & Hkeys).
  { intros l Hl. apply Hno. by right. }
  exists res. split; [done|]. intros key. destruct (Hkeys key) as [Hin Hnotin].
  destruct (decide (key ∈ (λ l, agent_key (agent_id w l)) <$> ps)) as [Hk|Hk].
  - split; [by intros _; apply Hin|]. intros Hn. destruct Hn. by right.
  - rewrite (Hnotin Hk). split.
    + intros [->|?]%elem_of_cons; [|done]. by rewrite lookup_insert_eq.
    + intros [Hne _]%not_elem_of_cons. by rewrite lookup_insert_ne.
Qed.

Lemma exploration_noise_loop_no_data act batch ps w :
  (∀ l, l ∈ ps → nonzero_eq (obs_agent_id batch) (agent_id w l) = []) →
  exploration_noise_loop P act batch ps w = (Return (), w).
Proof.
  induction ps as [|policy ps IH]; intros Hno; simpl; [done|].
  erewrite bind_run by reflexivity.
  rewrite decide_True by (rewrite Hno; [done|by left]).
  apply IH. intros l Hl. apply Hno. by right.
Qed.

Lemma learn_loop_all_empty (batch : gmap string (option Data)) ps
    (results : gmap string Metric) w :
  (∀ l, l ∈ ps → batch !! agent_key (agent_id w l) = Some None) →
  learn_loop P batch ps results w = (Return results, w).
Proof.
  revert results. induction ps as [|policy ps IH]; intros results Hno; simpl; [done|].
  erewrite bind_run by reflexivity.
  rewrite Hno by (by left). erewrite bind_run by reflexivity.
  apply IH. intros l Hl. apply Hno. by right.
Qed.

Lemma with_buffer_restore w r :
  with_buffer (mkBuffer (meta_rew (buffer w)) (meta_other (buffer (with_buffer
     (mkBuffer r (meta_other (buffer w))) w))))
    (with_buffer (mkBuffer r (meta_other (buffer w))) w) = w.
Proof. by destruct w as [? ? [? ?] ? ?]. Qed.

(** X9: a batch in which no registered policy has a transition (an empty
    batch, or foreign tags only).  [forward] returns without calling any
    policy, with the empty [Batch()] under every registered key of [out]
    and [state]; [process_fn] returns the empty [Batch()] under every
    registered key and nothing else, and [learn] on that mapping returns
    no metric; [exploration_noise] returns the array it was given.  None
    of them changes the store: no call is made, the action array is
    untouched and the buffer's reward is back in place. *)
Theorem dispatch_without_data batch state indices act w :
  (∀ l, l ∈ policies w → nonzero_eq (obs_agent_id batch) (agent_id w l) = []) →
  (∃ h : Holder,
     forward P batch state w = (Return h, w) ∧
     ∀ l, l ∈ policies w →
       holder_out h !! agent_key (agent_id w l) = Some None ∧
       holder_state h !! agent_key (agent_id w l) = Some None) ∧
  (∃ res,
     process_fn P batch indices w = (Return res, w) ∧
     (∀ l, l ∈ policies w → res !! agent_key (agent_id w l) = Some None) ∧
     (∀ key, (∀ l, l ∈ policies w → key ≠ agent_key (agent_id w l)) →
             res !! key = None) ∧
     learn P res w = (Return ∅, w)) ∧
  exploration_noise P act batch w = (Return act, w).
Proof.
  intros Hno. split_and!.
  - unfold forward. erewrite bind_run by reflexivity.
    erewrite bind_run by (by apply forward_loop_no_data).
    erewrite bind_run by reflexivity. simpl.
    destruct (forward_merge_no_data (policies w)
                (mkHolder (cat_act (replicate (length (policies w)) (NoData : Slot))) ∅ ∅) w)
      as (h & Hrun & _ & Hkeys).
    exists h. split; [done|]. intros l Hl. apply Hkeys.
    by apply (list_elem_of_fmap_2 (λ l, agent_key (agent_id w l))).
  - destruct (process_fn_loop_no_data batch indices
                (is_ndarray (meta_rew (buffer w))) (meta_rew (buffer w))
                (policies w) ∅ w Hno) as (res & Hloop & Hkeys).
    exists res. split_and!.
    + unfold process_fn. erewrite bind_run by reflexivity.
      destruct (is_ndarray (meta_rew (buffer w))) eqn:Hrew.
      * erewrite bind_run by reflexivity. erewrite bind_run by reflexivity.
        destruct (process_fn_loop_no_data batch indices true (meta_rew (buffer w))
                    (policies w) ∅
                    (with_buffer (mkBuffer EmptyBatch (meta_other (buffer w))) w) Hno)
          as (res' & Hloop' & Hkeys').
        simpl in Hloop'. erewrite bind_run by exact Hloop'. cbv beta iota.
        erewrite bind_run by reflexivity. unfold ret, set_buffer_rew.
        rewrite with_buffer_restore. do 2 f_equal. apply map_eq. intros key.
        destruct (Hkeys key) as [H1 H2], (Hkeys' key) as [H1' H2']. simpl in *.
        destruct (decide (key ∈ (λ l, agent_key (agent_id w l)) <$> policies w));
          [by rewrite H1, H1'|by rewrite H2, H2'].
      * erewrite bind_run by reflexivity. erewrite bind_run by reflexivity.
        erewrite bind_run by exact Hloop. cbv beta iota.
        erewrite bind_run by reflexivity. reflexivity.
    + intros l Hl. apply Hkeys.
      by apply (list_elem_of_fmap_2 (λ l, agent_key (agent_id w l))).
    + intros key Hkey. destruct (Hkeys key) as [_ Hn]. rewrite Hn; [done|].
      intros (l & Heq & Hl)%list_elem_of_fmap_1. by apply (Hkey l).
    + unfold learn. erewrite bind_run by reflexivity.
      apply learn_loop_all_empty. intros l Hl. apply Hkeys.
      by apply (list_elem_of_fmap_2 (λ l, agent_key (agent_id w l))).
  - unfold exploration_noise. erewrite bind_run by reflexivity.
    erewrite bind_run by (by apply exploration_noise_loop_no_data). done.
Qed.

(** *** Construction and hot swap *)

Lemma agent_id_init_loop_last i ps w (k : nat) l :
  ps !! k = Some l →
  (∀ k' : nat, (k < k')%nat → ps !! k' ≠ Some l) →
  agent_id (init_loop i ps w) l = Z.of_nat (i + k) + 1.
Proof.
  revert i w k. induction ps as [|p ps IH]; intros i w k Hk Hlast; [done|].
  destruct k as [|k]; simpl in *.
  - simplify_eq. rewrite agent_id_init_loop_notin.
    + rewrite agent_id_set_agent_id, decide_True by done. f_equal. lia.
    + intros [k' Hk']%list_elem_of_lookup_1. by apply (Hlast (S k')); [lia|].
  - rewrite (IH (S i) _ k); [f_equal; lia|done|].
    intros k' Hkk'. apply (Hlast (S k')). lia.
Qed.

(** X10: [__init__] registers the policies in list order and assigns to
    each policy object the position + 1 of its last occurrence in the
    list; objects that are not in the list keep their agent id.  So the
    registry invariant (agent id = position + 1 in every slot) holds
    after construction exactly when the policy objects are pairwise
    distinct. *)
Theorem init_agent_ids ps w :
  policies (init ps w) = ps ∧
  (∀ (k : nat) l, ps !! k = Some l →
     (∀ k' : nat, (k < k')%nat → ps !! k' ≠ Some l) →
     agent_id (init ps w) l = Z.of_nat k + 1) ∧
  (∀ l, l ∉ ps → agent_id (init ps w) l = agent_id w l) ∧
  (registry_inv (init ps w) ↔ NoDup ps).
Proof.
  assert (policies (init ps w) = ps) as Hps.
  { unfold init. by rewrite policies_init_loop. }
  split_and!; [done|..].
  - intros k l Hk Hlast. unfold init.
    by rewrite (agent_id_init_loop_last 0 ps _ k l).
  - intros l Hl. unfold init. by rewrite agent_id_init_loop_notin.
  - split; [|apply registry_inv_init].
    intros Hinv. apply NoDup_alt. intros i j l Hi Hj.
    rewrite <-Hps in Hi, Hj.
    pose proof (Hinv i l Hi). pose proof (Hinv j l Hj). lia.
Qed.

(** X11: [replace_policy] with an agent id in 1..N returns, puts the
    policy into slot agent_id − 1 and gives it that id, and leaves every
    other slot, every other policy object's agent id, the buffer, the
    arrays and the call history as they were; with an agent id above N or
    below 1 − N it raises IndexError and changes nothing. *)
Theorem replace_policy_effect w q a :
  (1 ≤ a ≤ Z.of_nat (length (policies w)) →
   ∃ w', replace_policy (Exc:=Exc) q a w = (Return (), w') ∧
     length (policies w') = length (policies w) ∧
     policies w' !! Z.to_nat (a - 1) = Some q ∧
     (∀ k : nat, k ≠ Z.to_nat (a - 1) → policies w' !! k = policies w !! k) ∧
     agent_id w' q = a ∧
     (∀ l, l ≠ q → agent_id w' l = agent_id w l) ∧
     buffer w' = buffer w ∧ ndarray w' = ndarray w ∧ trace w' = trace w) ∧
  (a < 1 - Z.of_nat (length (policies w)) ∨ Z.of_nat (length (policies w)) < a →
   replace_policy (Exc:=Exc) q a w = (Raise IndexError, w)).
Proof.
  split; [|apply replace_policy_out_of_range].
  intros Ha. eexists. split; [by apply replace_policy_in_range|].
  rewrite policies_set_agent_id. simpl. split_and!; [|..|done|done|done].
  - by rewrite length_insert.
  - apply list_lookup_insert_eq. lia.
  - intros k Hk. by rewrite list_lookup_insert_ne.
  - by rewrite decide_True.
  - intros l Hl. by rewrite decide_False.
Qed.

(** *** Where the metrics of [learn] come from *)

Lemma foldl_metrics_origin a (kvs : list (string * Metric))
    (results : gmap string Metric) key v :
  foldl (λ acc kv, <[metric_key a kv.1 := kv.2]> acc) results kvs !! key = Some v →
  results !! key = Some v ∨ ∃ k, key = metric_key a k ∧ (k, v) ∈ kvs.
Proof.
  revert results. induction kvs as [|[k0 v0] kvs IH]; intros results; simpl; [auto|].
  intros [Hres|(k & -> & Hin)]%IH.
  - rewrite lookup_insert in Hres. case_decide as Hkey; [|by left].
    simplify_eq. right. exists k0. split; [done|by left].
  - right. exists k. split; [done|by right].
Qed.

Lemma add_metrics_origin a (out results : gmap string Metric) key v :
  add_metrics a out results !! key = Some v →
  results !! key = Some v ∨ ∃ k, key = metric_key a k ∧ out !! k = Some v.
Proof.
  intros [?|(k & -> & Hin)]%foldl_metrics_origin; [by left|].
  right. exists k. split; [done|]. by apply elem_of_map_to_list.
Qed.

Lemma learn_loop_origin (batch : gmap string (option Data)) ps
    (results : gmap string Metric) w res w' :
  learn_loop P batch ps results w = (Return res, w') →
  ∀ key v, res !! key = Some v →
    results !! key = Some v ∨
    ∃ l d k tr out,
      l ∈ ps ∧ batch !! agent_key (agent_id w l) = Some (Some d) ∧
      key = metric_key (agent_id w l) k ∧
      trace w `prefix_of` tr ∧ (tr ++ [CallLearn l d]) `prefix_of` trace w' ∧
      policy_learn P tr l d = Return out ∧ out !! k = Some v.
Proof.
  revert results w. induction ps as [|policy ps IH]; intros results w Hrun key v Hkey.
  - simpl in Hrun. apply ret_Return in Hrun as [-> ->]. by left.
  - simpl in Hrun. inv_bind Hrun. inv_bind Hrun as data w1 Hdata.
    destruct data as [d|].
    + inv_bind Hrun as out w1 Hcall.
      pose proof Hrun as (_ & _ & Hpre)%same_registry_learn_loop.
      destruct (IH _ _ Hrun key v Hkey) as [Hres|Hlater]; simpl in *.
      * apply add_metrics_origin in Hres as [?|(k & -> & Hk)]; [by left|].
        right. exists policy, d, k, (trace w), out.
        split_and!; [by left|done..].
      * right. destruct Hlater as (l & d' & k & tr & out' & Hl & ? & ? & Hpre' & ? & ? & ?).
        exists l, d', k, tr, out'. split_and!; [by right|done..| |done|done|done].
        etrans; [|exact Hpre']. by apply prefix_app_r.
    + destruct (IH _ _ Hrun key v Hkey) as [?|Hlater]; [by left|]. right.
      destruct Hlater as (l & d' & k & tr & out' & Hl & ?).
      exists l, d', k, tr, out'. split; [by right|done].
Qed.

(** X12: every entry of the mapping [learn] returns comes from a call it
    made: its key is "agent_<id>/<name>" for a registered policy with a
    non-empty entry, and its value is what that policy's [learn], called
    on that entry, returned under <name>. *)
Theorem learn_metric_origin (batch : gmap string (option Data)) w res w' :
  learn P batch w = (Return res, w') →
  ∀ key v, res !! key = Some v →
    ∃ l d k tr out,
      l ∈ policies w ∧ batch !! agent_key (agent_id w l) = Some (Some d) ∧
      key = metric_key (agent_id w l) k ∧
      trace w `prefix_of` tr ∧ (tr ++ [CallLearn l d]) `prefix_of` trace w' ∧
      policy_learn P tr l d = Return out ∧ out !! k = Some v.
Proof.
  intros Hrun key v Hkey. unfold learn in Hrun. inv_bind Hrun.
  by destruct (learn_loop_origin _ _ _ _ _ _ Hrun key v Hkey) as [?|?].
Qed.

(** ** When the dispatch operations return *)

Lemma agent_view_needs (b sub : Batch) a :
  agent_view (Exc:=Exc) b a = Return sub →
  rew b = EmptyBatch ∨ has_column (rew b) a.
Proof.
  unfold agent_view, batch_getitem.
  destruct (take_index (obs_agent_id b) _) as [ids|]; simpl; [|done].
  destruct (rew b) as [|v|n rws]; simpl; [by left|..].
  - destruct (take_index v _) as [v'|]; simpl; [|done].
    by destruct (take_index (rows b) _).
  - destruct (take_index rws _) as [rws'|]; simpl; [|done].
    destruct (take_index (rows b) _); simpl; [|done].
    case_decide; [by right|done].
Qed.

Lemma process_view_needs (b sub : Batch) a :
  process_view (Exc:=Exc) b true a = Return sub → has_column (rew b) a.
Proof.
  unfold process_view, batch_getitem.
  destruct (take_index (obs_agent_id b) _) as [ids|]; simpl; [|done].
  destruct (rew b) as [|v|n rws]; simpl.
  - by destruct (take_index (rows b) _).
  - destruct (take_index v _) as [v'|]; simpl; [|done].
    by destruct (take_index (rows b) _).
  - destruct (take_index rws _) as [rws'|]; simpl; [|done].
    destruct (take_index (rows b) _); simpl; [|done].
    case_decide; [done|done].
Qed.

Lemma rew_column_needs (r r' : Rew) a :
  rew_column (Exc:=Exc) r (a - 1) = Return r' → has_column r a.
Proof.
  destruct r as [| |n rws]; simpl; [done..|]. by case_decide.
Qed.

Lemma take_index_Forall_lt {A} (arr sub : list A) index :
  take_index arr index = Some sub → Forall (λ i, (i < length arr)%nat) index.
Proof.
  intros [Hlen Hsub]%take_index_lookup. apply Forall_forall.
  intros i [j Hj]%list_elem_of_lookup_1. apply lookup_lt_is_Some.
  rewrite <-(Hsub j i Hj). apply lookup_lt_is_Some.
  rewrite Hlen. by eapply lookup_lt_Some.
Qed.

(** Every position of a batch whose tags are all registered is in the
    partition of a registered policy. *)
Lemma covered_positions (batch : Batch) w (n : nat) :
  (∀ t, t ∈ obs_agent_id batch → t ∈ registered_ids w) →
  (∀ l, l ∈ policies w →
     Forall (λ i, (i < n)%nat) (nonzero_eq (obs_agent_id batch) (agent_id w l))) →
  (batch_len batch ≤ n)%nat.
Proof.
  intros Hcov Hall. unfold batch_len. apply Nat.le_ngt. intros Hlt.
  destruct (lookup_lt_is_Some_2 (obs_agent_id batch) n Hlt) as [t Ht].
  pose proof (Hcov t (list_elem_of_lookup_2 _ _ _ Ht)) as Hin.
  apply list_elem_of_fmap_1 in Hin as (l & -> & Hl).
  specialize (Hall l Hl). rewrite Forall_forall in Hall.
  apply elem_of_nonzero_eq in Ht. specialize (Hall n Ht). lia.
Qed.

(** X13: for sub-policies whose [forward] returns one action per
    transition, on a registry with pairwise distinct agent ids and a
    well-formed batch all of whose tags are registered, [forward] returns
    exactly when, for every registered policy with data, the batch's
    reward is empty or a matrix that has the policy's column, and the
    state mapping (when one is given) has the policy's key. *)
Theorem forward_returns_iff batch state w :
  NoDup (registered_ids w) →
  (∀ t, t ∈ obs_agent_id batch → t ∈ registered_ids w) →
  batch_wf batch → forward_total P →
  (∃ (h : Holder) w', forward P batch state w = (Return h, w')) ↔
  forward_ready batch state w.
Proof.
  intros Hnd Hcov Hwf Htotal. split; [|by intros Hready; apply forward_returns].
  intros (h & w' & Hrun) l Hl Hne. unfold forward in Hrun.
  inv_bind Hrun. inv_bind Hrun as slots w1 Hloop.
  apply forward_loop_slots in Hloop as (slots' & -> & HF).
  apply list_elem_of_lookup_1 in Hl as [k Hk].
  destruct (Forall2_lookup_l _ _ _ _ _ HF Hk) as (s & _ & Hok).
  destruct s as [|index out act st]; simpl in Hok; [done|].
  destruct Hok as (_ & _ & _ & _ & tr & sub & prior & Hview & Hprior & _).
  split; [by eapply agent_view_needs|].
  unfold prior_state in Hprior. destruct state as [sd|]; [|done].
  by destruct (sd !! agent_key (agent_id w l)).
Qed.

(** X14: for sub-policies whose [process_fn] returns, on a registry with
    pairwise distinct agent ids, a well-formed batch all of whose tags
    are registered and a well-formed buffer reward, [process_fn] returns
    exactly when there is an index for every transition and, if the
    buffer's reward is an array, both it and the batch's reward are
    matrices that have the column of every registered policy with
    data. *)
Theorem process_fn_returns_iff batch indices w :
  NoDup (registered_ids w) →
  (∀ t, t ∈ obs_agent_id batch → t ∈ registered_ids w) →
  batch_wf batch → (∃ len, rew_wf (meta_rew (buffer w)) len) →
  process_fn_total P →
  (∃ res w', process_fn P batch indices w = (Return res, w')) ↔
  (batch_len batch ≤ length indices)%nat ∧
  (is_ndarray (meta_rew (buffer w)) = true →
   ∀ l, l ∈ policies w →
     nonzero_eq (obs_agent_id batch) (agent_id w l) ≠ [] →
     has_column (rew batch) (agent_id w l) ∧
     has_column (meta_rew (buffer w)) (agent_id w l)).
Proof.
  intros Hnd Hcov Hwf Hsave Htotal. split.
  - intros (res & w' & Hrun).
    assert (∀ l, l ∈ policies w →
              nonzero_eq (obs_agent_id batch) (agent_id w l) ≠ [] →
              ∃ d, process_fn_call P batch indices (meta_rew (buffer w)) w w' l d)
      as Hcalls.
    { intros l Hl Hne. unfold process_fn in Hrun.
      apply bind_inv_Return in Hrun as (save & w1 & [= <- <-] & Hrun).
      inv_bind Hrun as u w0 Hpre. inv_bind Hrun. inv_bind Hrun as rs w1 Hloop.
      destruct rs as [res0 save'].
      inv_bind Hrun as u' w2 Hpost. apply ret_Return in Hrun as [-> ->].
      assert (policies w0 = policies w ∧ agent_id w0 = agent_id w ∧ trace w0 = trace w)
        as (Hp & Ha & Ht).
      { destruct (is_ndarray (meta_rew (buffer w)));
          [by injection Hpre as <- <-|by apply ret_Return in Hpre as [_ ->]]. }
      assert (trace w2 = trace w1) as Ht'.
      { destruct (is_ndarray (meta_rew (buffer w)));
          [by injection Hpost as <- <-|by apply ret_Return in Hpost as [_ ->]]. }
      apply (process_fn_loop_delegation _ _ _ (meta_rew (buffer w))) in Hloop
        as [_ Hmine]; [|done|apply rew_same_shape_refl].
      rewrite Hp, Ha in Hmine.
      destruct (Hmine Hnd l Hl Hne) as (d & Hcall & _). exists d.
      destruct Hcall as (tr & sub & ti & buf & buf' & H1 & H2 & H3 & H4 & H5 & H6).
      exists tr, sub, ti, buf, buf'. rewrite Ha in *. rewrite Ht in H4. rewrite Ht'.
      by split_and!. }
    split.
    + apply (covered_positions batch w); [done|]. intros l Hl.
      destruct (decide (nonzero_eq (obs_agent_id batch) (agent_id w l) = [])) as [->|Hne];
        [constructor|].
      destruct (Hcalls l Hl Hne) as (d & tr & sub & ti & buf & buf' & _ & Hti & _).
      by eapply take_index_Forall_lt.
    + intros Hrew l Hl Hne.
      destruct (Hcalls l Hl Hne) as (d & tr & sub & ti & buf & buf' & Hview & _ & Hcol & _).
      rewrite Hrew in Hview. split; [by eapply process_view_needs|].
      destruct (Hcol Hrew) as (cur & Hshape & Hcur).
      apply (rew_same_shape_has_column _ _ _ Hshape). by eapply rew_column_needs.
  - intros [Hix Hcols].
    destruct (process_fn_returns batch indices w Htotal Hwf Hix) as (res & w' & Hrun);
      [|by eauto].
    intros Hrew. split; [done|]. by apply Hcols.
Qed.

(** X15: for sub-policies whose [exploration_noise] returns as many
    actions as it was given, on a registry with pairwise distinct agent
    ids and a well-formed batch all of whose tags are registered,
    [exploration_noise] returns exactly when the action array has a
    position for every transition, and what it returns is the array it
    was given. *)
Theorem exploration_noise_returns_iff act batch w :
  NoDup (registered_ids w) →
  (∀ t, t ∈ obs_agent_id batch → t ∈ registered_ids w) →
  batch_wf batch → exploration_noise_total P →
  ((∃ r w', exploration_noise P act batch w = (Return r, w')) ↔
   (batch_len batch ≤ length (ndarray w act))%nat) ∧
  ∀ r w', exploration_noise P act batch w = (Return r, w') → r = act.
Proof.
  intros Hnd Hcov Hwf Htotal. split; [split|].
  - intros (r & w' & Hrun). unfold exploration_noise in Hrun.
    inv_bind Hrun. inv_bind Hrun as u w1 Hloop.
    apply exploration_noise_loop_spec in Hloop as (_ & _ & _ & _ & Hmine).
    apply (covered_positions batch w); [done|]. intros l Hl.
    destruct (decide (nonzero_eq (obs_agent_id batch) (agent_id w l) = [])) as [->|Hne];
      [constructor|].
    destruct (Hmine Hnd l Hl Hne) as (tr & sub_act & sub_batch & v & vals & Hsub & _).
    by eapply take_index_Forall_lt.
  - intros Hlen.
    destruct (exploration_noise_returns act batch w Htotal Hwf Hlen) as [w' Hrun].
    by eauto.
  - intros r w' Hrun. unfold exploration_noise in Hrun.
    inv_bind Hrun. inv_bind Hrun as u w1 Hloop.
    by apply ret_Return in Hrun as [-> _].
Qed.

(** X16: for sub-policies whose [learn] returns, [learn] returns exactly
    when the mapping it is given has a key "agent_<id>" for every
    registered policy; an empty entry is enough. *)
Theorem learn_returns_iff (batch : gmap string (option Data)) w :
  learn_total P →
  (∃ res w', learn P batch w = (Return res, w')) ↔
  ∀ l, l ∈ policies w → is_Some (batch !! agent_key (agent_id w l)).
Proof.
  intros Htotal. split; [|by apply learn_returns].
  intros (res & w' & Hrun). unfold learn in Hrun. inv_bind Hrun.
  by apply learn_loop_results in Hrun as (evs & _ & _ & Hkeys & _).
Qed.

End Properties.

(** * The properties on the concrete manager *)

Import Example.

Ltac by_computation := apply (bool_decide_unpack _); vm_compute; exact I.

Lemma world2_distinct_ids : NoDup (registered_ids world2).
Proof. by_computation. Defined.

Lemma world2_policies l : l ∈ policies world2 → l = 0%nat ∨ l = 1%nat.
Proof.
  change (policies world2) with [0%nat; 1%nat].
  intros [->|[->|[]%elem_of_nil]%elem_of_cons]%elem_of_cons; auto.
Defined.

(** The source's own scenario: positions 0, 2, 4 hold policy 0's actions
    and positions 1, 3, 5 hold policy 1's. *)
Lemma forward_positions_witness :
  ∃ h w',
    forward pols batch6 None world2 = (Return h, w') ∧
    holder_act h = [100; 111; 120; 131; 140; 151] ∧
    length (holder_act h) = batch_len batch6 ∧
    ∀ l, l ∈ policies world2 →
      let index := nonzero_eq (obs_agent_id batch6) (agent_id world2 l) in
      index ≠ [] →
      ∃ out, forward_call pols batch6 None world2 w' l out ∧
             length (out_act out) = length index ∧
             ∀ (j i : nat), index !! j = Some i →
                            holder_act h !! i = out_act out !! j.
Proof.
  eexists _, _. split; [vm_compute; reflexivity|]. split; [reflexivity|].
  apply (forward_positions pols batch6 None world2).
  - exact world2_distinct_ids.
  - apply Forall_forall. by_computation.
  - vm_compute. reflexivity.
Defined.

(** One policy object registered in both slots: it has the agent id 2
    and is dispatched to twice, so for a batch of two transitions, both
    tagged 2, the merged container has four actions. *)
Lemma forward_positions_counterexample :
  (∀ t, t ∈ obs_agent_id batch_two → t ∈ registered_ids world_same) ∧
  ∃ h w',
    forward pols batch_two None world_same = (Return h, w') ∧
    registered_ids world_same = [2; 2] ∧
    holder_act h = [104; 114; 104; 114] ∧
    batch_len batch_two = 2%nat.
Proof.
  split; [apply Forall_forall; by_computation|].
  eexists _, _. split; [vm_compute; reflexivity|]. by split_and!.
Qed.

(** The sub-policies of [pols] do not write the reward: the matrix comes
    back as it was.  With policy 0 zeroing the view it is handed, and
    transitions of agent 1 only, column 0 comes back changed and column
    1 as it was. *)
Lemma process_fn_reward_round_trip_witness :
  (∃ res w',
     process_fn pols batch6 [0; 1; 2; 3; 4; 5] world2 = (Return res, w') ∧
     meta_rew (buffer w') = rew6) ∧
  (∃ res w' rws',
     process_fn pols_writing batch_one [0; 1; 2] world2 = (Return res, w') ∧
     meta_rew (buffer w') = Mat 2 rws' ∧
     ∀ (i : nat) row row',
       [[1; -1]; [2; -2]; [3; -3]; [4; -4]; [5; -5]; [6; -6]] !! i = Some row →
       rws' !! i = Some row' → row' !! 1%nat = row !! 1%nat).
Proof.
  split.
  - eassert (process_fn pols batch6 [0; 1; 2; 3; 4; 5] world2 = (Return _, _)) as Hrun.
    { vm_compute. reflexivity. }
    destruct (process_fn_reward_round_trip pols batch6 _ world2 _ _ 2
                [[1; -1]; [2; -2]; [3; -3]; [4; -4]; [5; -5]; [6; -6]] eq_refl Hrun)
      as (rws' & Hrew & _ & _ & Hsame).
    eexists _, _. split; [exact Hrun|]. rewrite Hrew, Hsame; [reflexivity|].
    intros; reflexivity.
  - eassert (process_fn pols_writing batch_one [0; 1; 2] world2 = (Return _, _)) as Hrun.
    { vm_compute. reflexivity. }
    destruct (process_fn_reward_round_trip pols_writing batch_one _ world2 _ _ 2
                [[1; -1]; [2; -2]; [3; -3]; [4; -4]; [5; -5]; [6; -6]] eq_refl Hrun)
      as (rws' & Hrew & _ & Hframe & _).
    eexists _, _, rws'. split; [exact Hrun|]. split; [exact Hrew|].
    intros i row row' Hrow Hrow'. apply (Hframe i 1%nat row row' Hrow Hrow').
    intros l [->| ->]%world2_policies Hne.
    + vm_compute. discriminate.
    + destruct Hne. reflexivity.
Defined.

(** Every delegation returns normally and the reward field is not what
    it was.  First, policy 0 writes the reward view it is handed in
    place: the matrix put back has column 0 zeroed.  Second, the matrix
    has one column for two agents: policy 0's delegation returns, then
    the manager's own column selection for agent 2 raises IndexError,
    and the buffer is left with agent 1's column. *)
Lemma process_fn_reward_round_trip_counterexample :
  (∃ res w',
     process_fn pols_writing batch6 [0; 1; 2; 3; 4; 5] world2 = (Return res, w') ∧
     meta_rew (buffer world2) = rew6 ∧
     meta_rew (buffer w')
       = Mat 2 [[0; -1]; [0; -2]; [0; -3]; [0; -4]; [0; -5]; [0; -6]]) ∧
  (∃ w' sub buf ix,
     process_fn pols batch_one_column [0; 1] world_one_column
       = (Raise IndexError, w') ∧
     trace w' = [CallProcessFn 0%nat sub buf ix] ∧
     (policy_process_fn pols [] 0%nat sub buf ix).1 = Return (Some [10]) ∧
     meta_rew (buffer world_one_column) = Mat 1 [[1]; [2]] ∧
     meta_rew (buffer w') = Vec [1; 2]).
Proof.
  split.
  - eexists _, _. split; [vm_compute; reflexivity|]. split; reflexivity.
  - eexists _, _, _, _. split; [vm_compute; reflexivity|]. by split_and!.
Qed.

(** An empty partition: only agent 1 has transitions. *)
Lemma process_fn_entries_witness :
  let batch := mkBatch [1; 1; 1] rew6 [10; 11; 12] in
  ∃ res w' evs,
    process_fn pols batch [0; 1; 2] world2 = (Return res, w') ∧
    res !! "agent_2" = Some None ∧
    trace w' = trace world2 ++ evs ∧
    ∀ l, l ∈ policies world2 →
      is_Some (res !! agent_key (agent_id world2 l)) ∧
      (nonzero_eq (obs_agent_id batch) (agent_id world2 l) = [] →
         res !! agent_key (agent_id world2 l) = Some None ∧
         ∀ e, e ∈ evs → callee e ≠ l).
Proof.
  intros batch.
  destruct (process_fn_entries pols batch [0; 1; 2] world2
              (default ∅ (match (process_fn pols batch [0; 1; 2] world2).1 with
                          | Return res => Some res | Raise _ => None end))
              (process_fn pols batch [0; 1; 2] world2).2)
    as (evs & Htr & Hall).
  { vm_compute. reflexivity. }
  eexists _, _, evs. split; [vm_compute; reflexivity|].
  split; [vm_compute; reflexivity|]. split; [exact Htr|exact Hall].
Defined.

(** C3: a failure raised by a sub-policy's [process_fn] reaches the caller
    as it is, but the buffer's reward matrix is not restored first: the
    buffer is left with the failing agent's reward column. *)
Lemma process_fn_failure_not_restored :
  ∃ w',
    process_fn pols_failing batch6 [0; 1; 2; 3; 4; 5] world2
      = (Raise (PyExc ()), w') ∧
    meta_rew (buffer world2) = rew6 ∧
    meta_rew (buffer w') = Vec [-1; -2; -3; -4; -5; -6].
Proof. eexists. split; [vm_compute; reflexivity|]. split; reflexivity. Qed.

(** An unmatched transition before a matched one: the positional write
    of the only action is out of range. *)
Lemma forward_unmatched_counterexample :
  let batch := mkBatch [3; 1] EmptyBatch [10; 11] in
  (3 ∉ registered_ids world2) ∧
  (∃ w', forward pols batch None world2 = (Raise IndexError, w')).
Proof.
  split; [by_computation|]. eexists. vm_compute. reflexivity.
Qed.

(** An unmatched transition after the matched one: [forward] returns a
    one-element container for a batch of two.  An unmatched transition
    before the matched one: the positional write raises IndexError. *)
Lemma forward_unmatched_witness :
  let batch := mkBatch [1; 3] EmptyBatch [10; 11] in
  let batch' := mkBatch [3; 1] EmptyBatch [10; 11] in
  (∃ h w', forward pols batch None world2 = (Return h, w') ∧ holder_act h = [100]) ∧
  (∀ l, l ∈ policies world2 →
     1%nat ∉ nonzero_eq (obs_agent_id batch) (agent_id world2 l)) ∧
  (∀ h w', forward pols batch None world2 = (Return h, w') →
     holder_act h !! 1%nat = None ∧
     (length (holder_act h) < batch_len batch)%nat) ∧
  (∃ slots w1,
     forward_loop pols batch' None (policies world2) [] world2 = (Return slots, w1) ∧
     forward pols batch' None world2 = (Raise IndexError, w1) ∧
     forward_merge (Exc:=unit) (zip (policies world2) slots)
       (mkHolder (cat_act slots) ∅ ∅) w1 = (Raise IndexError, w1)).
Proof.
  intros batch batch'.
  destruct (forward_unmatched pols batch None world2 1 3) as (Hout & Hret & _).
  { exact world2_distinct_ids. }
  { reflexivity. }
  { by_computation. }
  split.
  { eexists _, _. split; [vm_compute; reflexivity|reflexivity]. }
  split; [exact Hout|]. split; [exact Hret|].
  destruct (forward_unmatched pols batch' None world2 0 3) as (_ & _ & Hraise).
  { exact world2_distinct_ids. }
  { reflexivity. }
  { by_computation. }
  destruct (Hraise 1%nat 0%nat) as (e & w' & Hrun & Hwrite).
  { lia. }
  { by_computation. }
  { reflexivity. }
  eassert (forward_loop pols batch' None (policies world2) [] world2 = (Return _, _))
    as Hloop.
  { vm_compute. reflexivity. }
  destruct (Hwrite _ _ Hloop) as (-> & Hmerge & _ & Hix).
  assert (e = IndexError) as ->.
  { apply Hix. by_computation. }
  eexists _, _. split; [exact Hloop|]. split; [exact Hrun|exact Hmerge].
Defined.

(** C5: [replace_policy] with agent id 0 on a registry of two policies is
    accepted: the last slot is overwritten and the new policy gets the
    reserved id 0, where the claim requires a failure that leaves the
    registry unchanged. *)
Lemma replace_policy_zero_accepted :
  ∃ w',
    replace_policy (Exc:=unit) 5%nat 0 world2 = (Return (), w') ∧
    policies world2 = [0%nat; 1%nat] ∧
    policies w' = [0%nat; 5%nat] ∧
    agent_id w' 5%nat = 0.
Proof. eexists. split; [vm_compute; reflexivity|]. by split_and!. Qed.

(** One policy object registered twice: the second assignment wins, and
    slot 0 holds a policy whose agent id is 2.  And on the two-policy
    manager, where the invariant holds, [replace_policy] with agent id 0
    breaks it. *)
Lemma registry_inv_counterexample :
  ¬ (registry_inv (init [4%nat; 4%nat] world0)) ∧
  (registry_inv world2 ∧
   ∃ w', replace_policy (Exc:=unit) 5%nat 0 world2 = (Return (), w') ∧
         ¬ (registry_inv w')).
Proof.
  split_and!.
  - intros Hinv. specialize (Hinv 0%nat 4%nat eq_refl).
    vm_compute in Hinv. discriminate.
  - intros [|[|k]] l Hk; vm_compute in Hk; simplify_eq; reflexivity.
  - eexists. split; [vm_compute; reflexivity|].
    intros Hinv. specialize (Hinv 1%nat 5%nat eq_refl).
    vm_compute in Hinv. discriminate.
Qed.

Lemma well_used_registry_inv_witness :
  ∃ w',
    replace_policy (Exc:=unit) 5%nat 2 world2 = (Return (), w') ∧
    policies w' = [0%nat; 5%nat] ∧
    registry_inv w'.
Proof.
  eexists. split; [vm_compute; reflexivity|]. split; [reflexivity|].
  apply (well_used_registry_inv pols).
  eapply (wu_replace pols world2 5%nat 2).
  - apply (wu_init pols [0%nat; 1%nat] world0). by_computation.
  - vm_compute. split; discriminate.
  - intros k Hk. exfalso. destruct k as [|[|k]]; vm_compute in Hk; discriminate.
  - vm_compute. reflexivity.
Defined.

(** The metric of agent 1 is filed under "agent_1/loss"; there is no
    key "1/loss". *)
Lemma learn_spec_key_counterexample :
  let batch : gmap string (option (list Z)) :=
    {[ "agent_1" := Some [10; 12; 14]; "agent_2" := None ]} in
  ∃ res w',
    learn pols batch world2 = (Return res, w') ∧
    policy_learn pols (trace world2) 0%nat [10; 12; 14] = Return {[ "loss" := 3 ]} ∧
    res !! spec_metric_key 1 "loss" = None ∧
    res !! metric_key 1 "loss" = Some 3.
Proof.
  intros batch. eexists _, _. split; [vm_compute; reflexivity|].
  split_and!; vm_compute; reflexivity.
Qed.

Lemma learn_metrics_witness :
  let batch : gmap string (option (list Z)) :=
    {[ "agent_1" := Some [10; 12; 14]; "agent_2" := None ]} in
  ∃ res w' evs,
    learn pols batch world2 = (Return res, w') ∧
    trace w' = trace world2 ++ evs ∧
    ∀ l, l ∈ policies world2 →
      ∃ data, batch !! agent_key (agent_id world2 l) = Some data ∧
        match data with
        | Some d =>
            ∃ tr out,
              trace world2 `prefix_of` tr ∧
              (tr ++ [CallLearn l d]) `prefix_of` trace w' ∧
              policy_learn pols tr l d = Return out ∧
              ∀ k v, out !! k = Some v →
                     res !! metric_key (agent_id world2 l) k = Some v
        | None =>
            (∀ k, res !! metric_key (agent_id world2 l) k = None) ∧
            (∀ e, e ∈ evs → callee e ≠ l)
        end.
Proof.
  intros batch.
  destruct (learn_metrics pols batch world2
              (default ∅ (match (learn pols batch world2).1 with
                          | Return res => Some res | Raise _ => None end))
              (learn pols batch world2).2)
    as (evs & Htr & Hall).
  { exact world2_distinct_ids. }
  { vm_compute. reflexivity. }
  eexists _, _, evs. split; [vm_compute; reflexivity|].
  split; [exact Htr|exact Hall].
Defined.

Lemma exploration_noise_in_place_witness :
  (∃ w',
     exploration_noise pols 7%nat batch6 world2 = (Return 7%nat, w') ∧
     ndarray world2 7%nat = [100; 101; 102; 103; 104; 105] ∧
     ndarray w' 7%nat = [101; 103; 103; 105; 105; 107] ∧
     (∀ r', r' ≠ 7%nat → ndarray w' r' = ndarray world2 r') ∧
     length (ndarray w' 7%nat) = length (ndarray world2 7%nat)) ∧
  (∃ w',
     exploration_noise pols 7%nat batch_two world_same = (Return 7%nat, w') ∧
     ndarray w' 7%nat = [110; 111; 102; 103; 104; 105] ∧
     (∀ r', r' ≠ 7%nat → ndarray w' r' = ndarray world_same r') ∧
     length (ndarray w' 7%nat) = length (ndarray world_same 7%nat)).
Proof.
  split.
  - eexists. split; [vm_compute; reflexivity|]. split; [reflexivity|].
    split; [reflexivity|].
    destruct (exploration_noise_in_place pols 7%nat batch6 world2 7%nat
                (exploration_noise pols 7%nat batch6 world2).2)
      as (_ & Hother & Hlen & _).
    + vm_compute. reflexivity.
    + split; [exact Hother|exact Hlen].
  - eexists. split; [vm_compute; reflexivity|]. split; [reflexivity|].
    destruct (exploration_noise_in_place pols 7%nat batch_two world_same 7%nat
                (exploration_noise pols 7%nat batch_two world_same).2)
      as (_ & Hother & Hlen & _).
    + vm_compute. reflexivity.
    + split; [exact Hother|exact Hlen].
Defined.

Lemma replace_policy_nonpositive_witness :
  ∃ w',
    replace_policy (Exc:=unit) 5%nat 0 world2 = (Return (), w') ∧
    policies w' = <[1%nat := 5%nat]> (policies world2) ∧
    policies w' !! 1%nat = Some 5%nat ∧
    agent_id w' 5%nat = 0 ∧
    agent_id w' 5%nat ≠ Z.of_nat 1 + 1.
Proof.
  apply (replace_policy_nonpositive (Exc:=unit) world2 5%nat 0).
  vm_compute. split; discriminate.
Defined.


(** * Further properties on the concrete manager *)

Lemma forward_call_sequence_witness :
  ∃ h w' evs,
    forward pols batch6 None world2 = (Return h, w') ∧
    trace w' = trace world2 ++ evs ∧
    callee <$> evs = [0%nat; 1%nat].
Proof.
  destruct (forward pols batch6 None world2) as [r w'] eqn:Hrun.
  destruct (forward_call_sequence pols batch6 None world2 r w' Hrun)
    as (evs & Htr & Hcalls).
  vm_compute in Hrun. injection Hrun as <- <-.
  eexists _, _, evs. split; [reflexivity|]. split; [exact Htr|exact Hcalls].
Defined.

(** The second policy's [process_fn] raises: both were called, in order,
    and the exception is the one raised. *)
Lemma process_fn_call_sequence_witness :
  ∃ w' evs,
    process_fn pols_failing batch6 [0; 1; 2; 3; 4; 5] world2
      = (Raise (PyExc ()), w') ∧
    trace w' = trace world2 ++ evs ∧
    callee <$> evs `prefix_of` [0%nat; 1%nat] ∧
    (PyExc () = IndexError ∨ process_fn_raised pols_failing w' (PyExc ())).
Proof.
  destruct (process_fn pols_failing batch6 [0; 1; 2; 3; 4; 5] world2)
    as [r w'] eqn:Hrun.
  destruct (process_fn_call_sequence pols_failing batch6 [0; 1; 2; 3; 4; 5]
              world2 r w' Hrun) as (evs & Htr & Hcalls).
  vm_compute in Hrun. injection Hrun as <- <-.
  eexists _, evs. split; [reflexivity|]. split; [exact Htr|exact Hcalls].
Defined.

Lemma exploration_noise_call_sequence_witness :
  ∃ w' evs,
    exploration_noise pols 7%nat batch6 world2 = (Return 7%nat, w') ∧
    trace w' = trace world2 ++ evs ∧
    callee <$> evs = [0%nat; 1%nat].
Proof.
  destruct (exploration_noise pols 7%nat batch6 world2) as [r w'] eqn:Hrun.
  destruct (exploration_noise_call_sequence pols 7%nat batch6 world2 r w' Hrun)
    as (evs & Htr & Hcalls).
  vm_compute in Hrun. injection Hrun as <- <-.
  eexists _, evs. split; [reflexivity|]. split; [exact Htr|exact Hcalls].
Defined.

Lemma learn_call_sequence_witness :
  let batch : gmap string (option (list Z)) :=
    {[ "agent_1" := None; "agent_2" := Some [11; 13; 15] ]} in
  ∃ res w' evs,
    learn pols batch world2 = (Return res, w') ∧
    trace w' = trace world2 ++ evs ∧
    callee <$> evs = to_learn batch world2.
Proof.
  intros batch.
  destruct (learn pols batch world2) as [r w'] eqn:Hrun.
  destruct (learn_call_sequence pols batch world2 r w' Hrun)
    as (evs & Htr & Hcalls).
  vm_compute in Hrun. injection Hrun as <- <-.
  eexists _, _, evs. split; [reflexivity|]. split; [exact Htr|exact Hcalls].
Defined.

(** ** Further properties on the concrete manager, continued *)

Lemma world2_registry_inv : registry_inv world2.
Proof. intros [|[|k]] l Hk; vm_compute in Hk; simplify_eq; reflexivity. Defined.

Lemma batch6_registered t : t ∈ obs_agent_id batch6 → t ∈ registered_ids world2.
Proof. revert t. apply Forall_forall. by_computation. Defined.

Lemma batch6_wf : batch_wf batch6.
Proof. split; [reflexivity|]. split; [reflexivity|]. by_computation. Defined.

Lemma batch6_columns l :
  l ∈ policies world2 →
  has_column (rew batch6) (agent_id world2 l) ∧
  has_column (meta_rew (buffer world2)) (agent_id world2 l).
Proof.
  intros [->| ->]%world2_policies; vm_compute; split_and!;
    first [discriminate|reflexivity].
Defined.

(** All transitions belong to agent 1: policy 1's entries are the empty
    [Batch()], policy 0's are what its call returned. *)
Lemma forward_mappings_witness :
  ∃ h w',
    forward pols batch_one None world2 = (Return h, w') ∧
    (∀ key, (∀ l, l ∈ policies world2 → key ≠ agent_key (agent_id world2 l)) →
       holder_out h !! key = None ∧ holder_state h !! key = None) ∧
    ∀ l, l ∈ policies world2 →
      let index := nonzero_eq (obs_agent_id batch_one) (agent_id world2 l) in
      let key := agent_key (agent_id world2 l) in
      (index = [] →
         holder_out h !! key = Some None ∧ holder_state h !! key = Some None) ∧
      (index ≠ [] →
         ∃ out, forward_call pols batch_one None world2 w' l out ∧
                holder_out h !! key = Some (Some out) ∧
                holder_state h !! key = Some (out_state out)).
Proof.
  eassert (forward pols batch_one None world2 = (Return _, _)) as Hrun.
  { vm_compute. reflexivity. }
  eexists _, _. split; [exact Hrun|].
  exact (forward_mappings pols batch_one None world2 _ _ world2_distinct_ids Hrun).
Defined.


(** Policy 5 takes the place of policy 1 as agent 2: it gets the
    transitions 1, 3 and 5, and policy 1 is not called. *)
Lemma replace_policy_then_forward_witness :
  ∃ h w2,
    replace_policy (Exc:=unit) 5%nat 2 world2 = (Return (), world2_swapped) ∧
    forward pols batch6 None world2_swapped = (Return h, w2) ∧
    agent_id world2_swapped 5%nat = 2 ∧
    (∃ out, forward_call pols batch6 None world2_swapped w2 5%nat out ∧
            length (out_act out) = length (nonzero_eq (obs_agent_id batch6) 2) ∧
            ∀ (j i : nat), nonzero_eq (obs_agent_id batch6) 2 !! j = Some i →
                           holder_act h !! i = out_act out !! j) ∧
    ∃ evs, trace w2 = trace world2_swapped ++ evs ∧
      ∀ old, policies world2 !! Z.to_nat (2 - 1) = Some old → old ≠ 5%nat →
             ∀ e, e ∈ evs → callee e ≠ old.
Proof.
  assert (replace_policy (Exc:=unit) 5%nat 2 world2 = (Return (), world2_swapped))
    as Hrep by (vm_compute; reflexivity).
  eassert (forward pols batch6 None world2_swapped = (Return _, _)) as Hrun.
  { vm_compute. reflexivity. }
  eexists _, _. split; [exact Hrep|]. split; [exact Hrun|].
  apply (replace_policy_then_forward pols batch6 None world2 5%nat 2
           world2_swapped _ _ world2_registry_inv).
  - vm_compute. split; discriminate.
  - intros k Hk. exfalso. destruct k as [|[|k]]; vm_compute in Hk; discriminate.
  - exact Hrep.
  - exact Hrun.
  - vm_compute. discriminate.
Defined.

Lemma pols_learn_total : learn_total pols.
Proof. intros tr l d. eexists. reflexivity. Defined.

(** What [process_fn] returns can be handed to [learn]. *)
Lemma process_fn_then_learn_witness :
  ∃ res w1 metrics w2,
    process_fn pols batch6 [0; 1; 2; 3; 4; 5] world2 = (Return res, w1) ∧
    learn pols res w1 = (Return metrics, w2).
Proof.
  eassert (process_fn pols batch6 [0; 1; 2; 3; 4; 5] world2 = (Return _, _)) as Hrun.
  { vm_compute. reflexivity. }
  destruct (process_fn_then_learn pols batch6 _ world2 _ _ Hrun pols_learn_total)
    as (metrics & w2 & Hlearn).
  eexists _, _, metrics, w2. split; [exact Hrun|exact Hlearn].
Defined.

(** A batch of an unregistered agent's transitions: nothing is called
    and nothing changes. *)
Lemma dispatch_without_data_witness :
  (∃ h,
     forward pols batch_stray None world2 = (Return h, world2) ∧
     ∀ l, l ∈ policies world2 →
       holder_out h !! agent_key (agent_id world2 l) = Some None ∧
       holder_state h !! agent_key (agent_id world2 l) = Some None) ∧
  (∃ res,
     process_fn pols batch_stray [0; 1] world2 = (Return res, world2) ∧
     (∀ l, l ∈ policies world2 → res !! agent_key (agent_id world2 l) = Some None) ∧
     (∀ key, (∀ l, l ∈ policies world2 → key ≠ agent_key (agent_id world2 l)) →
             res !! key = None) ∧
     learn pols res world2 = (Return ∅, world2)) ∧
  exploration_noise pols 7%nat batch_stray world2 = (Return 7%nat, world2).
Proof.
  apply (dispatch_without_data pols batch_stray None [0; 1] 7%nat world2).
  intros l [->| ->]%world2_policies; reflexivity.
Defined.

(** The same policy object in both slots gets the id of its last slot,
    and the invariant fails; with two objects it holds. *)
Lemma init_agent_ids_witness :
  agent_id (init [4%nat; 4%nat] world0) 4%nat = 2 ∧
  agent_id (init [4%nat; 4%nat] world0) 9%nat = agent_id world0 9%nat ∧
  ¬ (registry_inv (init [4%nat; 4%nat] world0)) ∧
  registry_inv (init [0%nat; 1%nat] world0).
Proof.
  destruct (init_agent_ids [4%nat; 4%nat] world0) as (_ & Hlast & Hout & Hiff).
  destruct (init_agent_ids [0%nat; 1%nat] world0) as (_ & _ & _ & Hiff').
  split_and!.
  - apply (Hlast 1%nat 4%nat); [reflexivity|].
    intros [|[|k']] Hk'; [lia|lia|discriminate].
  - apply Hout. by_computation.
  - intros Hnd%Hiff. apply NoDup_cons in Hnd as [Hnotin _]. apply Hnotin. by left.
  - apply Hiff'. by_computation.
Defined.

Lemma replace_policy_effect_witness :
  (∃ w', replace_policy (Exc:=unit) 5%nat 2 world2 = (Return (), w') ∧
     length (policies w') = length (policies world2) ∧
     policies w' !! Z.to_nat (2 - 1) = Some 5%nat ∧
     (∀ k : nat, k ≠ Z.to_nat (2 - 1) → policies w' !! k = policies world2 !! k) ∧
     agent_id w' 5%nat = 2 ∧
     (∀ l, l ≠ 5%nat → agent_id w' l = agent_id world2 l) ∧
     buffer w' = buffer world2 ∧ ndarray w' = ndarray world2 ∧
     trace w' = trace world2) ∧
  replace_policy (Exc:=unit) 5%nat 3 world2 = (Raise IndexError, world2) ∧
  replace_policy (Exc:=unit) 5%nat (-2) world2 = (Raise IndexError, world2).
Proof.
  split_and!.
  - apply (replace_policy_effect (Exc:=unit) world2 5%nat 2).
    vm_compute. split; discriminate.
  - apply (replace_policy_effect (Exc:=unit) world2 5%nat 3).
    right. vm_compute. reflexivity.
  - apply (replace_policy_effect (Exc:=unit) world2 5%nat (-2)).
    left. vm_compute. reflexivity.
Defined.

(** The one metric of the run is agent 1's. *)
Lemma learn_metric_origin_witness :
  let batch : gmap string (option (list Z)) :=
    {[ "agent_1" := Some [10; 12; 14]; "agent_2" := None ]} in
  ∃ res w',
    learn pols batch world2 = (Return res, w') ∧
    ∀ key v, res !! key = Some v →
      ∃ l d k tr out,
        l ∈ policies world2 ∧ batch !! agent_key (agent_id world2 l) = Some (Some d) ∧
        key = metric_key (agent_id world2 l) k ∧
        trace world2 `prefix_of` tr ∧ (tr ++ [CallLearn l d]) `prefix_of` trace w' ∧
        policy_learn pols tr l d = Return out ∧ out !! k = Some v.
Proof.
  intros batch.
  eassert (learn pols batch world2 = (Return _, _)) as Hrun.
  { vm_compute. reflexivity. }
  eexists _, _. split; [exact Hrun|].
  exact (learn_metric_origin pols batch world2 _ _ Hrun).
Defined.

Lemma pols_tag_forward_total : forward_total pols_tag.
Proof.
  intros tr l b st. eexists. split; [reflexivity|]. apply length_fmap.
Defined.

Lemma pols_process_fn_total : process_fn_total pols.
Proof. intros tr l b buf ix. eexists _, _. reflexivity. Defined.

Lemma pols_exploration_noise_total : exploration_noise_total pols.
Proof.
  intros tr l act b. eexists. split; [reflexivity|]. apply length_fmap.
Defined.

(** With a state mapping that lacks "agent_2" the action path does not
    return; without a state mapping it does. *)
Lemma forward_returns_iff_witness :
  (∃ h w', forward pols_tag batch6 None world2 = (Return h, w')) ∧
  ¬ (∃ h w',
       forward pols_tag batch6 (Some ({[ "agent_1" := 0 ]} : gmap string Z)) world2 = (Return h, w')).
Proof.
  split.
  - apply (forward_returns_iff pols_tag batch6 None world2 world2_distinct_ids
             batch6_registered batch6_wf pols_tag_forward_total).
    intros l Hl _. split; [|done]. right. by apply batch6_columns.
  - intros Hret.
    apply (forward_returns_iff pols_tag batch6 (Some ({[ "agent_1" := 0 ]} : gmap string Z)) world2
             world2_distinct_ids batch6_registered batch6_wf pols_tag_forward_total)
      in Hret.
    destruct (Hret 1%nat) as [_ [s Hs]].
    + by_computation.
    + vm_compute. discriminate.
    + vm_compute in Hs. discriminate.
Defined.

(** Six indices are enough, five are not. *)
Lemma process_fn_returns_iff_witness :
  (∃ res w', process_fn pols batch6 [0; 1; 2; 3; 4; 5] world2 = (Return res, w')) ∧
  ¬ (∃ res w', process_fn pols batch6 [0; 1; 2; 3; 4] world2 = (Return res, w')).
Proof.
  assert (∃ len, rew_wf (meta_rew (buffer world2)) len) as Hsave.
  { exists 6%nat. split; [reflexivity|]. by_computation. }
  split.
  - apply (process_fn_returns_iff pols batch6 [0; 1; 2; 3; 4; 5] world2
             world2_distinct_ids batch6_registered batch6_wf Hsave
             pols_process_fn_total).
    split; [vm_compute; lia|]. intros _ l Hl _. by apply batch6_columns.
  - intros Hret.
    apply (process_fn_returns_iff pols batch6 [0; 1; 2; 3; 4] world2
             world2_distinct_ids batch6_registered batch6_wf Hsave
             pols_process_fn_total) in Hret as [Hlen _].
    vm_compute in Hlen. lia.
Defined.

(** The six-element action array is long enough for the six
    transitions. *)
Lemma exploration_noise_returns_iff_witness :
  ∃ w', exploration_noise pols 7%nat batch6 world2 = (Return 7%nat, w').
Proof.
  destruct (exploration_noise_returns_iff pols 7%nat batch6 world2
              world2_distinct_ids batch6_registered batch6_wf
              pols_exploration_noise_total) as [Hiff Hact].
  destruct (proj2 Hiff) as (r & w' & Hrun); [vm_compute; lia|].
  exists w'. pose proof (Hact r w' Hrun) as ->. exact Hrun.
Defined.

(** A mapping without "agent_2" is refused; one with an empty entry for
    it is accepted. *)
Lemma learn_returns_iff_witness :
  (∃ res w',
     learn pols ({[ "agent_1" := Some [10; 12; 14]; "agent_2" := None ]}
                 : gmap string (option (list Z))) world2 = (Return res, w')) ∧
  ¬ (∃ res w',
       learn pols ({[ "agent_1" := Some [10; 12; 14] ]}
                   : gmap string (option (list Z))) world2 = (Return res, w')).
Proof.
  split.
  - apply (learn_returns_iff pols _ world2 pols_learn_total).
    intros l [->| ->]%world2_policies; vm_compute; eauto.
  - intros Hret.
    destruct (learn_returns_iff pols
                ({[ "agent_1" := Some [10; 12; 14] ]} : gmap string (option (list Z)))
                world2 pols_learn_total) as [Hnec _].
    destruct (Hnec Hret 1%nat) as [d Hd]; [by_computation|].
    vm_compute in Hd. discriminate.
Defined.
